(** * ChainShield: the claims state machine and the payout ledger

    A shallow embedding of the three Solidity contracts of the repository
    (contracts/PolicyRegistry.sol, contracts/PayoutManager.sol and
    contracts/ClaimsProcessor.sol) and the properties of the specification
    that concern them.

    Conventions of the embedding:
    - a [uint256], [uint8] or [address] value is a [Z]; Solidity 0.8 checks
      every arithmetic operation and reverts with a panic when the result
      leaves the type, which is written out in [add256], [sub256], [mul256];
    - a [mapping] is a [gmap] read through a default (a key that was never
      written reads as the zero value of the type);
    - a function that can revert returns a [result]; a reverted call leaves
      the storage as it was ([commit]);
    - [msg.sender], [block.timestamp] and the answers of the external
      contracts are explicit arguments. *)

From Stdlib Require Import ZArith Lia Bool List.
From stdpp Require Import gmap strings list fin_maps.
Import ListNotations.

Open Scope Z_scope.

(** ** Common definitions *)

Abbreviation address := Z.

Definition MAX_UINT256 : Z := 2 ^ 256 - 1.
Definition MAX_UINT8 : Z := 255.

Definition is_uint256 (x : Z) : bool := (0 <=? x) && (x <=? MAX_UINT256).
Definition is_uint8 (x : Z) : bool := (0 <=? x) && (x <=? MAX_UINT8).

(** The reasons for which a call reverts: one constructor per [require]
    message of the three contracts, [Panic] for a checked arithmetic
    operation that overflows or an array access out of bounds,
    [CallReverted] for an external call to a contract that reverts, and
    [BadCalldata] for an argument outside the range of its Solidity type. *)
Inductive error : Type :=
| OnlyAdmin
| OnlyClaimsProcessor
| OnlyAIOracle
| OnlyReviewer
| OnlyCoordinator
| PolicyDoesNotExist
| PolicyNotActive
| PolicyAlreadyInactive
| PayoutAlreadyProcessed
| AmountMustBePositive
| InvalidPriceData
| InsufficientFunds
| NoBalance
| TransferFailed
| ExceedsAvailableFunds
| AlreadyReviewer
| NotReviewer
| InvalidThresholds
| InvalidPolicy
| InvalidStatus
| NotAssignedReviewer
| NoActiveReviewers
| ClaimNotFound
| Panic
| CallReverted
| BadCalldata.

Inductive result (A : Type) : Type :=
| Ok (a : A)
| Err (e : error).
Arguments Ok {A} a.
Arguments Err {A} e.

Definition bind {A B : Type} (r : result A) (k : A -> result B) : result B :=
  match r with
  | Ok a => k a
  | Err e => Err e
  end.

#[global] Instance result_bind : MBind result :=
  fun A B k r => bind r k.
#[global] Instance result_ret : MRet result := @Ok.

(** [require c e]: the Solidity statement [require(c, "...")]. *)
Definition require (c : bool) (e : error) : result unit :=
  if c then Ok tt else Err e.

(** What the storage is after a call: a reverted call changes nothing. *)
Definition commit {S : Type} (s : S) (r : result S) : S :=
  match r with
  | Ok s' => s'
  | Err _ => s
  end.

Definition add256 (a b : Z) : result Z :=
  if a + b <=? MAX_UINT256 then Ok (a + b) else Err Panic.
Definition sub256 (a b : Z) : result Z :=
  if b <=? a then Ok (a - b) else Err Panic.
Definition mul256 (a b : Z) : result Z :=
  if a * b <=? MAX_UINT256 then Ok (a * b) else Err Panic.

(** ** PolicyRegistry.sol *)

Module PolicyRegistry.

Record Policy : Type := mkPolicy {
  policyId : Z;
  policyholder : address;
  premium : Z;
  coverage : Z;
  deductible : Z;
  policyType : string;
  startDate : Z;
  endDate : Z;
  isActive : bool;
  claimsCount : Z;
  totalPayouts : Z
}.

(** The value a [mapping(uint256 => Policy)] holds at a key never written. *)
Definition zeroPolicy : Policy :=
  mkPolicy 0 0 0 0 0 "" 0 0 false 0 0.

Record State : Type := mkState {
  policies : gmap Z Policy;
  userPolicies : gmap Z (list Z);
  nextPolicyId : Z;
  admin : address;
  claimsProcessor : address
}.

Definition policyAt (s : State) (id : Z) : Policy :=
  default zeroPolicy (policies s !! id).

Definition setPolicy (id : Z) (p : Policy) (s : State) : State :=
  mkState (<[id := p]> (policies s)) (userPolicies s) (nextPolicyId s)
          (admin s) (claimsProcessor s).

(** The state the constructor leaves. *)
Definition init (deployer : address) : State :=
  mkState ∅ ∅ 1 deployer 0.

Definition setClaimsProcessor (sender : address) (cp : address) (s : State)
  : result State :=
  _ ← require (sender =? admin s) OnlyAdmin;
  Ok (mkState (policies s) (userPolicies s) (nextPolicyId s) (admin s) cp).

Definition createPolicy (now : Z) (sender : address)
    (_policyholder : address) (_premium _coverage _deductible : Z)
    (_policyType : string) (_duration : Z) (s : State) : result (Z * State) :=
  _ ← require (sender =? admin s) OnlyAdmin;
  let id := nextPolicyId s in
  next ← add256 id 1;
  end_ ← add256 now _duration;
  let p := mkPolicy id _policyholder _premium _coverage _deductible
                    _policyType now end_ true 0 0 in
  Ok (id,
      mkState (<[id := p]> (policies s))
              (<[_policyholder :=
                   default [] (userPolicies s !! _policyholder) ++ [id]]>
                 (userPolicies s))
              next (admin s) (claimsProcessor s)).

Definition updatePolicy (sender : address) (_policyId : Z)
    (_premium _coverage _deductible _duration : Z) (s : State) : result State :=
  _ ← require (sender =? admin s) OnlyAdmin;
  let p := policyAt s _policyId in
  _ ← require (policyId p =? _policyId) PolicyDoesNotExist;
  _ ← require (isActive p) PolicyNotActive;
  end_ ← (if 0 <? _duration then add256 (endDate p) _duration
           else Ok (endDate p));
  Ok (setPolicy _policyId
        (mkPolicy (policyId p) (policyholder p) _premium _coverage _deductible
                  (policyType p) (startDate p) end_ (isActive p)
                  (claimsCount p) (totalPayouts p)) s).

Definition cancelPolicy (sender : address) (_policyId : Z) (s : State)
  : result State :=
  _ ← require (sender =? admin s) OnlyAdmin;
  let p := policyAt s _policyId in
  _ ← require (policyId p =? _policyId) PolicyDoesNotExist;
  _ ← require (isActive p) PolicyAlreadyInactive;
  Ok (setPolicy _policyId
        (mkPolicy (policyId p) (policyholder p) (premium p) (coverage p)
                  (deductible p) (policyType p) (startDate p) (endDate p)
                  false (claimsCount p) (totalPayouts p)) s).

Definition incrementClaimCount (sender : address) (_policyId : Z) (s : State)
  : result State :=
  _ ← require (sender =? claimsProcessor s) OnlyClaimsProcessor;
  let p := policyAt s _policyId in
  _ ← require (policyId p =? _policyId) PolicyDoesNotExist;
  _ ← require (isActive p) PolicyNotActive;
  n ← add256 (claimsCount p) 1;
  Ok (setPolicy _policyId
        (mkPolicy (policyId p) (policyholder p) (premium p) (coverage p)
                  (deductible p) (policyType p) (startDate p) (endDate p)
                  (isActive p) n (totalPayouts p)) s).

Definition recordPayout (sender : address) (_policyId _amount : Z) (s : State)
  : result State :=
  _ ← require (sender =? claimsProcessor s) OnlyClaimsProcessor;
  let p := policyAt s _policyId in
  _ ← require (policyId p =? _policyId) PolicyDoesNotExist;
  _ ← require (isActive p) PolicyNotActive;
  t ← add256 (totalPayouts p) _amount;
  Ok (setPolicy _policyId
        (mkPolicy (policyId p) (policyholder p) (premium p) (coverage p)
                  (deductible p) (policyType p) (startDate p) (endDate p)
                  (isActive p) (claimsCount p) t) s).

(** [now] is [block.timestamp]. *)
Definition isPolicyValidForClaims (now : Z) (s : State)
    (_policyId : Z) (_claimant : address) : bool :=
  let policy := policyAt s _policyId in
  (policyId policy =? _policyId) &&
  (policyholder policy =? _claimant) &&
  isActive policy &&
  (startDate policy <=? now) &&
  (now <=? endDate policy).

End PolicyRegistry.

(** ** PayoutManager.sol *)

Module PayoutManager.

Record Payout : Type := mkPayout {
  claimId : Z;
  recipient : address;
  usdAmount : Z;
  avaxAmount : Z;
  timestamp : Z;
  processed : bool;
  withdrawn : bool
}.

Definition zeroPayout : Payout := mkPayout 0 0 0 0 0 false false.

Inductive event : Type :=
| PayoutProcessed (claimId : Z) (recipient : address) (usdAmount avaxAmount : Z)
| FundsDeposited (depositor : address) (amount : Z)
| FundsWithdrawn (recipient : address) (amount : Z).

(** The storage of the contract, the native currency it holds
    ([selfBalance] is [address(this).balance]) and the events it has
    emitted, oldest first. *)
Record State : Type := mkState {
  payouts : gmap Z Payout;
  balances : gmap Z Z;
  claimsProcessor : address;
  admin : address;
  treasury : address;
  priceFeed : address;
  totalPayouts : Z;
  totalWithdrawn : Z;
  availableFunds : Z;
  selfBalance : Z;
  log : list event
}.

Definition payoutAt (s : State) (id : Z) : Payout :=
  default zeroPayout (payouts s !! id).

Definition balanceOf (s : State) (a : address) : Z :=
  default 0 (balances s !! a).

Definition sumBalances (s : State) : Z :=
  map_fold (fun _ v acc => v + acc) 0 (balances s).

(** The state the constructor leaves. *)
Definition init (deployer _claimsProcessor _priceFeed : address) : State :=
  mkState ∅ ∅ _claimsProcessor deployer deployer _priceFeed 0 0 0 0 [].

(** *** Field updates *)

Definition setBalance (a : address) (v : Z) (s : State) : State :=
  mkState (payouts s) (<[a := v]> (balances s)) (claimsProcessor s) (admin s)
          (treasury s) (priceFeed s) (totalPayouts s) (totalWithdrawn s)
          (availableFunds s) (selfBalance s) (log s).

Definition setPayout (id : Z) (p : Payout) (s : State) : State :=
  mkState (<[id := p]> (payouts s)) (balances s) (claimsProcessor s) (admin s)
          (treasury s) (priceFeed s) (totalPayouts s) (totalWithdrawn s)
          (availableFunds s) (selfBalance s) (log s).

Definition setTotalPayouts (v : Z) (s : State) : State :=
  mkState (payouts s) (balances s) (claimsProcessor s) (admin s)
          (treasury s) (priceFeed s) v (totalWithdrawn s)
          (availableFunds s) (selfBalance s) (log s).

Definition setTotalWithdrawn (v : Z) (s : State) : State :=
  mkState (payouts s) (balances s) (claimsProcessor s) (admin s)
          (treasury s) (priceFeed s) (totalPayouts s) v
          (availableFunds s) (selfBalance s) (log s).

Definition setAvailableFunds (v : Z) (s : State) : State :=
  mkState (payouts s) (balances s) (claimsProcessor s) (admin s)
          (treasury s) (priceFeed s) (totalPayouts s) (totalWithdrawn s)
          v (selfBalance s) (log s).

Definition setSelfBalance (v : Z) (s : State) : State :=
  mkState (payouts s) (balances s) (claimsProcessor s) (admin s)
          (treasury s) (priceFeed s) (totalPayouts s) (totalWithdrawn s)
          (availableFunds s) v (log s).

Definition emit (e : event) (s : State) : State :=
  mkState (payouts s) (balances s) (claimsProcessor s) (admin s)
          (treasury s) (priceFeed s) (totalPayouts s) (totalWithdrawn s)
          (availableFunds s) (selfBalance s) (log s ++ [e]).

(** *** The calls and the world around the contract *)

(** The external functions that change the state, with their arguments;
    [Deposit] and [Receive] carry [msg.value]. *)
Inductive msg : Type :=
| ProcessPayout (_claimId : Z) (_recipient : address) (_usdAmount : Z)
| Withdraw
| Deposit (value : Z)
| Receive (value : Z)
| WithdrawToTreasury (_amount : Z)
| SetTreasury (_treasury : address)
| SetPriceFeed (_priceFeed : address).

(** The arguments are unsigned 256-bit values. *)
Definition wf_msg (m : msg) : bool :=
  match m with
  | ProcessPayout c _ u => is_uint256 c && is_uint256 u
  | Deposit v | Receive v | WithdrawToTreasury v => is_uint256 v
  | Withdraw | SetTreasury _ | SetPriceFeed _ => true
  end.

(** What an account does when it is sent native currency by
    [call{value: v}("")]: it accepts, it reverts, or it first has a call made
    back into the contract, by itself or through another account it can make
    call (the sender of the nested call is [from]), and goes on according to
    the outcome of that call. An externally owned account always accepts; a
    re-entrant attacker [a] is a [Reenter a Withdraw ...]. *)
Inductive behaviour : Type :=
| Accept
| Refuse
| Reenter (from : address) (m : msg) (k : bool -> behaviour).

(** What the contract does not control: its own address, the time of the
    block, the latest answer of each price feed ([None]: the call to
    [latestRoundData] reverts) and the code of each account, which may depend
    on the call depth that is left. *)
Record Env : Type := mkEnv {
  this : address;
  now : Z;
  latestAnswer : address -> option Z;
  code : nat -> address -> behaviour
}.

(** *** The functions of the contract *)

Definition convertUSDToAVAX (env : Env) (s : State) (_usdAmount : Z) : result Z :=
  match latestAnswer env (priceFeed s) with
  | None => Err CallReverted
  | Some price =>
      _ ← require (0 <? price) InvalidPriceData;
      let avaxUsdPrice := price in
      num ← mul256 _usdAmount (10 ^ 18);
      den ← mul256 avaxUsdPrice (10 ^ 2);
      Ok (num / den)
  end.

Definition processPayout (env : Env) (sender : address)
    (_claimId : Z) (_recipient : address) (_usdAmount : Z) (s : State)
  : result State :=
  _ ← require (sender =? claimsProcessor s) OnlyClaimsProcessor;
  _ ← require (claimId (payoutAt s _claimId) =? 0) PayoutAlreadyProcessed;
  _ ← require (0 <? _usdAmount) AmountMustBePositive;
  avax ← convertUSDToAVAX env s _usdAmount;
  _ ← require (avax <=? availableFunds s) InsufficientFunds;
  let s1 := setPayout _claimId
              (mkPayout _claimId _recipient _usdAmount avax (now env) true false)
              s in
  bal ← add256 (balanceOf s1 _recipient) avax;
  let s2 := setBalance _recipient bal s1 in
  avail ← sub256 (availableFunds s2) avax;
  let s3 := setAvailableFunds avail s2 in
  total ← add256 (totalPayouts s3) avax;
  let s4 := setTotalPayouts total s3 in
  Ok (emit (PayoutProcessed _claimId _recipient _usdAmount avax) s4).

(** [receive()] and [deposit()]: the value sent is already part of
    [address(this).balance] when the body runs. *)
Definition deposit (sender : address) (value : Z) (s : State) : result State :=
  let s1 := setSelfBalance (selfBalance s + value) s in
  avail ← add256 (availableFunds s1) value;
  Ok (emit (FundsDeposited sender value) (setAvailableFunds avail s1)).

Definition setTreasury (sender : address) (_treasury : address) (s : State)
  : result State :=
  _ ← require (sender =? admin s) OnlyAdmin;
  Ok (mkState (payouts s) (balances s) (claimsProcessor s) (admin s)
              _treasury (priceFeed s) (totalPayouts s) (totalWithdrawn s)
              (availableFunds s) (selfBalance s) (log s)).

Definition setPriceFeed (sender : address) (_priceFeed : address) (s : State)
  : result State :=
  _ ← require (sender =? admin s) OnlyAdmin;
  Ok (mkState (payouts s) (balances s) (claimsProcessor s) (admin s)
              (treasury s) _priceFeed (totalPayouts s) (totalWithdrawn s)
              (availableFunds s) (selfBalance s) (log s)).

(** [withdraw()] up to the external call: the balance of the caller is read,
    checked and reset. The result is the amount to transfer and the state in
    which the transfer is made. *)
Definition withdraw_effects (sender : address) (s : State) : result (Z * State) :=
  let amount := balanceOf s sender in
  _ ← require (0 <? amount) NoBalance;
  Ok (amount, setBalance sender 0 s).

(** [withdraw()]; [send to v s] is [payable(to).call{value: v}("")] made in
    state [s]: whether it succeeded, and the state it left. *)
Definition withdraw (send : address -> Z -> State -> bool * State)
    (sender : address) (s : State) : result State :=
  '(amount, s1) ← withdraw_effects sender s;
  let '(success, s2) := send sender amount s1 in
  _ ← require success TransferFailed;
  total ← add256 (totalWithdrawn s2) amount;
  Ok (emit (FundsWithdrawn sender amount) (setTotalWithdrawn total s2)).

Definition withdrawToTreasury (send : address -> Z -> State -> bool * State)
    (sender : address) (_amount : Z) (s : State) : result State :=
  _ ← require (sender =? admin s) OnlyAdmin;
  a ← sub256 (selfBalance s) (totalPayouts s);
  bound ← add256 a (totalWithdrawn s);
  _ ← require (_amount <=? bound) ExceedsAvailableFunds;
  avail ← sub256 (availableFunds s) _amount;
  let s1 := setAvailableFunds avail s in
  let '(success, s2) := send (treasury s1) _amount s1 in
  _ ← require success TransferFailed;
  Ok (emit (FundsWithdrawn (treasury s2) _amount) s2).

Definition dispatch (env : Env) (send : address -> Z -> State -> bool * State)
    (sender : address) (m : msg) (s : State) : result State :=
  _ ← require (wf_msg m) BadCalldata;
  match m with
  | ProcessPayout c r u => processPayout env sender c r u s
  | Withdraw => withdraw send sender s
  | Deposit v | Receive v => deposit sender v s
  | WithdrawToTreasury a => withdrawToTreasury send sender a s
  | SetTreasury t => setTreasury sender t s
  | SetPriceFeed f => setPriceFeed sender f s
  end.

(** The receiving account runs its code; a call it makes back into the
    contract is made by [invoke]. A call that reverts changes nothing, and
    the account sees that it failed. *)
Fixpoint run (invoke : address -> msg -> State -> result State)
    (b : behaviour) (s : State) : result State :=
  match b with
  | Accept => Ok s
  | Refuse => Err CallReverted
  | Reenter from m k =>
      match invoke from m s with
      | Ok s' => run invoke (k true) s'
      | Err _ => run invoke (k false) s
      end
  end.

(** [payable(to).call{value: v}("")] with [depth] nested calls left: it
    fails when the contract does not hold [v] or when the receiver reverts,
    and then nothing has changed. A transfer of the contract to itself runs
    its own [receive()]. *)
Fixpoint transfer (env : Env) (depth : nat) (to : address) (v : Z) (s : State)
    {struct depth} : bool * State :=
  match depth with
  | O => (false, s)
  | S d =>
      if selfBalance s <? v then (false, s)
      else
        let s1 := setSelfBalance (selfBalance s - v) s in
        let r :=
          if to =? this env
          then dispatch env (transfer env d) (this env) (Receive v) s1
          else run (dispatch env (transfer env d)) (code env d to) s1 in
        match r with
        | Ok s2 => (true, s2)
        | Err _ => (false, s)
        end
  end.

(** A call of the contract by [sender], with [depth] nested calls left. *)
Definition exec (env : Env) (depth : nat) (sender : address) (m : msg)
    (s : State) : result State :=
  dispatch env (transfer env depth) sender m s.

(** A successful call, by anyone, in any environment. *)
Definition called (s s' : State) : Prop :=
  exists (env : Env) (depth : nat) (sender : address) (m : msg),
    exec env depth sender m s = Ok s'.

(** Native currency that reaches the contract without a call: as the
    beneficiary of a self-destruct or of a block reward, or sent to the
    address before the contract is deployed. No code of the contract runs:
    [address(this).balance] grows and the storage stays as it is. *)
Definition forced (v : Z) (s : State) : State :=
  setSelfBalance (selfBalance s + v) s.

(** One step of the contract: a successful call, or native currency forced
    into the contract. The states of a deployed contract are those that
    steps lead to from the state the constructor leaves. *)
Definition step (s s' : State) : Prop :=
  called s s' \/ exists v : Z, 0 <= v /\ s' = forced v s.

Definition reachable (s : State) : Prop :=
  exists deployer cp feed : address, rtc step (init deployer cp feed) s.

(** What the events say: the native currency received through [deposit()]
    and [receive()], and the native currency sent out. *)
Fixpoint deposited (l : list event) : Z :=
  match l with
  | [] => 0
  | FundsDeposited _ v :: l' => v + deposited l'
  | _ :: l' => deposited l'
  end.

Fixpoint paidOut (l : list event) : Z :=
  match l with
  | [] => 0
  | FundsWithdrawn _ v :: l' => v + paidOut l'
  | _ :: l' => paidOut l'
  end.

(** What the payouts processed so far have awarded to the recipient [a]. *)
Fixpoint credited (a : address) (l : list event) : Z :=
  match l with
  | [] => 0
  | PayoutProcessed _ r _ v :: l' => (if r =? a then v else 0) + credited a l'
  | _ :: l' => credited a l'
  end.

(** What was sent to the treasury: paid out, but not withdrawn by a recipient. *)
Definition swept (s : State) : Z := paidOut (log s) - totalWithdrawn s.

(** *** The books of the contract *)

(** Three quantities that every call leaves as it found them: what has been
    awarded and is neither withdrawable nor withdrawn; the funding pool
    against deposits, payouts and what went to the treasury; and what the
    contract holds beyond the funding pool and the withdrawable balances.
    Besides, a call never replaces a payout record, never changes the claims
    processor, and raises a withdrawable balance by no more than the payouts
    it processes for its owner. *)
Definition slack (s : State) : Z :=
  totalPayouts s - sumBalances s - totalWithdrawn s.

Definition books (s : State) : Z :=
  availableFunds s - deposited (log s) + totalPayouts s
  + paidOut (log s) - totalWithdrawn s.

Definition cover (s : State) : Z :=
  selfBalance s - availableFunds s - sumBalances s.

Record conserves (s s' : State) : Prop := mkConserves {
  cons_slack : slack s' = slack s;
  cons_books : books s' = books s;
  cons_cover : cover s' = cover s;
  cons_avail : 0 <= availableFunds s -> 0 <= availableFunds s';
  cons_payouts :
    forall c, claimId (payoutAt s c) <> 0 -> payoutAt s' c = payoutAt s c;
  cons_processor : claimsProcessor s' = claimsProcessor s;
  cons_credit :
    forall a, balanceOf s' a - credited a (log s')
              <= balanceOf s a - credited a (log s)
}.

(** What every step does, forced currency included: as [conserves], but
    what the contract holds beyond the funding pool and the withdrawable
    balances may grow. *)
Record sustains (s s' : State) : Prop := mkSustains {
  sus_slack : slack s' = slack s;
  sus_books : books s' = books s;
  sus_cover : cover s <= cover s';
  sus_avail : 0 <= availableFunds s -> 0 <= availableFunds s';
  sus_payouts :
    forall c, claimId (payoutAt s c) <> 0 -> payoutAt s' c = payoutAt s c;
  sus_processor : claimsProcessor s' = claimsProcessor s;
  sus_credit :
    forall a, balanceOf s' a - credited a (log s')
              <= balanceOf s a - credited a (log s)
}.

(** What is asked of a low-level call for the books to balance: when it
    fails nothing has changed, and when it succeeds the contract held the
    value and the receiver conserved the books. *)
Definition send_ok (send : address -> Z -> State -> bool * State) : Prop :=
  forall to v s,
    match send to v s with
    | (true, s2) =>
        v <= selfBalance s /\ conserves (setSelfBalance (selfBalance s - v) s) s2
    | (false, s2) => s2 = s
    end.

(** Balance conservation, with the funding pool as the code keeps it: net
    of what was sent to the treasury. *)
Definition conservation (s : State) : Prop :=
  sumBalances s + totalWithdrawn s <= totalPayouts s /\
  availableFunds s = deposited (log s) - totalPayouts s - swept s /\
  0 <= availableFunds s.

End PayoutManager.

(** ** ClaimsProcessor.sol *)

Module ClaimsProcessor.

Inductive ClaimStatus : Type :=
| Submitted
| AIAnalyzed
| UnderReview
| Approved
| Rejected
| Paid.

#[global] Instance ClaimStatus_eq_dec : EqDecision ClaimStatus.
Proof. solve_decision. Defined.

Record Claim : Type := mkClaim {
  claimId : Z;
  policyId : Z;
  claimant : address;
  description : string;
  evidenceHashes : list string;
  timestamp : Z;
  status : ClaimStatus;
  claimType : Z;
  severity : Z;
  fraudRisk : Z;
  recommendedPayout : Z;
  finalPayout : Z;
  processedAt : Z;
  requiresHumanReview : bool;
  assignedReviewer : address
}.

(** The value [claims] holds at an id never written: every field zero, so
    the status is the first member of the enumeration. *)
Definition zeroClaim : Claim :=
  mkClaim 0 0 0 "" [] 0 Submitted 0 0 0 0 0 0 false 0.

(** The storage of the contract. The parameters of the randomness requests
    (key hash, subscription, gas limit, confirmations, number of words) are
    only handed to the coordinator and are left out. *)
Record State : Type := mkState {
  claims : gmap Z Claim;
  vrfRequestToClaim : gmap Z Z;
  reviewers : gmap Z bool;
  activeReviewers : list address;
  nextClaimId : Z;
  vrfCoordinator : address;
  policyRegistry : address;
  payoutManager : address;
  aiOracle : address;
  admin : address;
  autoApproveThreshold : Z;
  autoRejectThreshold : Z
}.

Definition claimAt (s : State) (id : Z) : Claim :=
  default zeroClaim (claims s !! id).

Definition requestClaim (s : State) (requestId : Z) : Z :=
  default 0 (vrfRequestToClaim s !! requestId).

Definition isReviewer (s : State) (a : address) : bool :=
  default false (reviewers s !! a).

(** The state the constructor leaves. *)
Definition init (deployer _vrfCoordinator _policyRegistry : address) : State :=
  mkState ∅ ∅ ∅ [] 1 _vrfCoordinator _policyRegistry 0 deployer deployer 20 70.

(** *** Field updates *)

Definition withStatus (st : ClaimStatus) (c : Claim) : Claim :=
  mkClaim (claimId c) (policyId c) (claimant c) (description c)
          (evidenceHashes c) (timestamp c) st (claimType c) (severity c)
          (fraudRisk c) (recommendedPayout c) (finalPayout c) (processedAt c)
          (requiresHumanReview c) (assignedReviewer c).

Definition withAnalysis (ty sev fraud payout : Z) (c : Claim) : Claim :=
  mkClaim (claimId c) (policyId c) (claimant c) (description c)
          (evidenceHashes c) (timestamp c) (status c) ty sev
          fraud payout (finalPayout c) (processedAt c)
          (requiresHumanReview c) (assignedReviewer c).

Definition withFinalPayout (v : Z) (c : Claim) : Claim :=
  mkClaim (claimId c) (policyId c) (claimant c) (description c)
          (evidenceHashes c) (timestamp c) (status c) (claimType c) (severity c)
          (fraudRisk c) (recommendedPayout c) v (processedAt c)
          (requiresHumanReview c) (assignedReviewer c).

Definition withProcessedAt (t : Z) (c : Claim) : Claim :=
  mkClaim (claimId c) (policyId c) (claimant c) (description c)
          (evidenceHashes c) (timestamp c) (status c) (claimType c) (severity c)
          (fraudRisk c) (recommendedPayout c) (finalPayout c) t
          (requiresHumanReview c) (assignedReviewer c).

Definition withHumanReview (b : bool) (c : Claim) : Claim :=
  mkClaim (claimId c) (policyId c) (claimant c) (description c)
          (evidenceHashes c) (timestamp c) (status c) (claimType c) (severity c)
          (fraudRisk c) (recommendedPayout c) (finalPayout c) (processedAt c)
          b (assignedReviewer c).

Definition withReviewer (r : address) (c : Claim) : Claim :=
  mkClaim (claimId c) (policyId c) (claimant c) (description c)
          (evidenceHashes c) (timestamp c) (status c) (claimType c) (severity c)
          (fraudRisk c) (recommendedPayout c) (finalPayout c) (processedAt c)
          (requiresHumanReview c) r.

Definition setClaims (m : gmap Z Claim) (s : State) : State :=
  mkState m (vrfRequestToClaim s) (reviewers s) (activeReviewers s)
          (nextClaimId s) (vrfCoordinator s) (policyRegistry s)
          (payoutManager s) (aiOracle s) (admin s)
          (autoApproveThreshold s) (autoRejectThreshold s).

(** [Claim storage claim = claims[id]; claim.f = ...]: a write through a
    storage reference updates the entry of the mapping. *)
Definition updClaim (id : Z) (f : Claim -> Claim) (s : State) : State :=
  setClaims (<[id := f (claimAt s id)]> (claims s)) s.

Definition setRequest (requestId id : Z) (s : State) : State :=
  mkState (claims s) (<[requestId := id]> (vrfRequestToClaim s)) (reviewers s)
          (activeReviewers s) (nextClaimId s) (vrfCoordinator s)
          (policyRegistry s) (payoutManager s) (aiOracle s) (admin s)
          (autoApproveThreshold s) (autoRejectThreshold s).

Definition setReviewers (m : gmap Z bool) (l : list address) (s : State) : State :=
  mkState (claims s) (vrfRequestToClaim s) m l (nextClaimId s)
          (vrfCoordinator s) (policyRegistry s) (payoutManager s) (aiOracle s)
          (admin s) (autoApproveThreshold s) (autoRejectThreshold s).

Definition setNextClaimId (n : Z) (s : State) : State :=
  mkState (claims s) (vrfRequestToClaim s) (reviewers s) (activeReviewers s) n
          (vrfCoordinator s) (policyRegistry s) (payoutManager s) (aiOracle s)
          (admin s) (autoApproveThreshold s) (autoRejectThreshold s).

(** *** The world of the contract *)

(** The claims processor together with the two contracts it calls: the
    registry at the address [policyRegistry] and, when [payoutManager] is
    not zero, the payout manager at that address. *)
Record World : Type := mkWorld {
  cp : State;
  registry : PolicyRegistry.State;
  manager : PayoutManager.State
}.

Definition setCp (s : State) (w : World) : World :=
  mkWorld s (registry w) (manager w).

(** What the contract does not control: its own address, the time of the
    block, the answers of the price feeds, and the request id the
    randomness coordinator returns ([None]: [requestRandomWords] reverts). *)
Record Env : Type := mkEnv {
  self : address;
  now : Z;
  latestAnswer : address -> option Z;
  requestId : option Z
}.

Definition managerEnv (env : Env) (w : World) : PayoutManager.Env :=
  PayoutManager.mkEnv (payoutManager (cp w)) (now env) (latestAnswer env)
                      (fun _ _ => PayoutManager.Accept).

(** *** Administration *)

Definition setPayoutManager (sender _payoutManager : address) (s : State)
  : result State :=
  _ ← require (sender =? admin s) OnlyAdmin;
  Ok (mkState (claims s) (vrfRequestToClaim s) (reviewers s)
              (activeReviewers s) (nextClaimId s) (vrfCoordinator s)
              (policyRegistry s) _payoutManager (aiOracle s) (admin s)
              (autoApproveThreshold s) (autoRejectThreshold s)).

Definition setAIOracle (sender _aiOracle : address) (s : State) : result State :=
  _ ← require (sender =? admin s) OnlyAdmin;
  Ok (mkState (claims s) (vrfRequestToClaim s) (reviewers s)
              (activeReviewers s) (nextClaimId s) (vrfCoordinator s)
              (policyRegistry s) (payoutManager s) _aiOracle (admin s)
              (autoApproveThreshold s) (autoRejectThreshold s)).

Definition addReviewer (sender _reviewer : address) (s : State) : result State :=
  _ ← require (sender =? admin s) OnlyAdmin;
  _ ← require (negb (isReviewer s _reviewer)) AlreadyReviewer;
  Ok (setReviewers (<[_reviewer := true]> (reviewers s))
                   (activeReviewers s ++ [_reviewer]) s).

(** The loop of [removeReviewer], from index [i], with [fuel] iterations
    left: the first entry equal to [_reviewer] is overwritten with the last
    entry, the array is shortened by one, and the loop ends. *)
Fixpoint removeLoop (fuel : nat) (i : nat) (_reviewer : address)
    (l : list address) : list address :=
  match fuel with
  | O => l
  | S fuel' =>
      if (i <? length l)%nat
      then
        if nth i l 0 =? _reviewer
        then List.removelast (<[i := List.last l 0]> l)
        else removeLoop fuel' (S i) _reviewer l
      else l
  end.

Definition removeReviewer (sender _reviewer : address) (s : State) : result State :=
  _ ← require (sender =? admin s) OnlyAdmin;
  _ ← require (isReviewer s _reviewer) NotReviewer;
  Ok (setReviewers (<[_reviewer := false]> (reviewers s))
                   (removeLoop (length (activeReviewers s)) 0 _reviewer
                               (activeReviewers s)) s).

Definition setThresholds (sender : address) (_autoApprove _autoReject : Z)
    (s : State) : result State :=
  _ ← require (sender =? admin s) OnlyAdmin;
  _ ← require (_autoApprove <? _autoReject) InvalidThresholds;
  Ok (mkState (claims s) (vrfRequestToClaim s) (reviewers s)
              (activeReviewers s) (nextClaimId s) (vrfCoordinator s)
              (policyRegistry s) (payoutManager s) (aiOracle s) (admin s)
              _autoApprove _autoReject).

(** *** The life of a claim *)

Definition submitClaim (env : Env) (sender : address) (_policyId : Z)
    (_description : string) (_evidenceHashes : list string) (w : World)
  : result (Z * World) :=
  _ ← require (PolicyRegistry.isPolicyValidForClaims (now env) (registry w)
                  _policyId sender) InvalidPolicy;
  let id := nextClaimId (cp w) in
  next ← add256 id 1;
  let c := mkClaim id _policyId sender _description _evidenceHashes (now env)
                   Submitted 0 0 0 0 0 0 false 0 in
  let s1 := setClaims (<[id := c]> (claims (cp w))) (setNextClaimId next (cp w)) in
  reg ← PolicyRegistry.incrementClaimCount (self env) _policyId (registry w);
  Ok (id, mkWorld s1 reg (manager w)).

Definition _approveClaim (env : Env) (_claimId _payout : Z) (w : World)
  : result World :=
  let s1 := updClaim _claimId
              (fun c => withProcessedAt (now env)
                          (withFinalPayout _payout (withStatus Approved c)))
              (cp w) in
  if payoutManager s1 =? 0 then Ok (setCp s1 w)
  else
    let claim := claimAt s1 _claimId in
    man ← PayoutManager.processPayout (managerEnv env w) (self env)
            _claimId (claimant claim) _payout (manager w);
    reg ← PolicyRegistry.recordPayout (self env) (policyId claim) _payout
            (registry w);
    Ok (mkWorld (updClaim _claimId (withStatus Paid) s1) reg man).

Definition _requestRandomReviewer (env : Env) (_claimId : Z) (s : State)
  : result State :=
  _ ← require (0 <? Z.of_nat (length (activeReviewers s))) NoActiveReviewers;
  let s1 := updClaim _claimId (withStatus UnderReview) s in
  match requestId env with
  | None => Err CallReverted
  | Some rid => Ok (setRequest rid _claimId s1)
  end.

(** The first statements of [submitAIAnalysis]: the report is recorded and
    the status becomes [AIAnalyzed]. *)
Definition recordAnalysis (_claimId _claimType _severity _fraudRisk
    _recommendedPayout : Z) (s : State) : State :=
  updClaim _claimId
    (fun c => withStatus AIAnalyzed
                (withAnalysis _claimType _severity _fraudRisk
                              _recommendedPayout c)) s.

Definition submitAIAnalysis (env : Env) (sender : address)
    (_claimId _claimType _severity _fraudRisk _recommendedPayout : Z)
    (w : World) : result World :=
  _ ← require (sender =? aiOracle (cp w)) OnlyAIOracle;
  _ ← require (bool_decide (status (claimAt (cp w) _claimId) = Submitted))
        InvalidStatus;
  let s1 := recordAnalysis _claimId _claimType _severity _fraudRisk
              _recommendedPayout (cp w) in
  if (_fraudRisk <? autoApproveThreshold s1) && (0 <? _recommendedPayout)
  then _approveClaim env _claimId _recommendedPayout (setCp s1 w)
  else if autoRejectThreshold s1 <? _fraudRisk
  then Ok (setCp (updClaim _claimId
                    (fun c => withProcessedAt (now env) (withStatus Rejected c))
                    s1) w)
  else
    s2 ← _requestRandomReviewer env _claimId
           (updClaim _claimId (withHumanReview true) s1);
    Ok (setCp s2 w).

Definition reviewerApproveClaim (env : Env) (sender : address)
    (_claimId _payout : Z) (w : World) : result World :=
  _ ← require (isReviewer (cp w) sender) OnlyReviewer;
  let claim := claimAt (cp w) _claimId in
  _ ← require (bool_decide (status claim = UnderReview)) InvalidStatus;
  _ ← require (assignedReviewer claim =? sender) NotAssignedReviewer;
  _approveClaim env _claimId _payout w.

Definition reviewerRejectClaim (env : Env) (sender : address)
    (_claimId : Z) (_reason : string) (w : World) : result World :=
  _ ← require (isReviewer (cp w) sender) OnlyReviewer;
  let claim := claimAt (cp w) _claimId in
  _ ← require (bool_decide (status claim = UnderReview)) InvalidStatus;
  _ ← require (assignedReviewer claim =? sender) NotAssignedReviewer;
  Ok (setCp (updClaim _claimId
               (fun c => withProcessedAt (now env) (withStatus Rejected c))
               (cp w)) w).

(** *** The randomness callback *)

(** The reviewer a fulfilment selects: the administrator when no reviewer
    is active; otherwise the entry at [randomWords[0] % length], where
    reading the first word of an empty array panics. *)
Definition selectReviewer (s : State) (randomWords : list Z) : result address :=
  if (length (activeReviewers s) =? 0)%nat then Ok (admin s)
  else
    match randomWords with
    | [] => Err Panic
    | word :: _ =>
        let reviewerIndex := word mod Z.of_nat (length (activeReviewers s)) in
        match activeReviewers s !! Z.to_nat reviewerIndex with
        | Some selectedReviewer => Ok selectedReviewer
        | None => Err Panic
        end
    end.

Definition fulfillRandomWords (_requestId : Z) (randomWords : list Z)
    (s : State) : result State :=
  let id := requestClaim s _requestId in
  _ ← require (0 <? id) ClaimNotFound;
  r ← selectReviewer s randomWords;
  Ok (updClaim id (withReviewer r) s).

(** Modelled from the spec: the entry point [rawFulfillRandomWords] of the
    inherited [VRFConsumerBaseV2], which the repository imports and does not
    contain. The callback comes from the oracle identity: only the
    coordinator may deliver a fulfilment, which is then handed to
    [fulfillRandomWords]. *)
Definition rawFulfillRandomWords (sender : address) (_requestId : Z)
    (randomWords : list Z) (s : State) : result State :=
  _ ← require (sender =? vrfCoordinator s) OnlyCoordinator;
  fulfillRandomWords _requestId randomWords s.

(** *** Calls and steps *)

Inductive msg : Type :=
| SetPayoutManager (_payoutManager : address)
| SetAIOracle (_aiOracle : address)
| AddReviewer (_reviewer : address)
| RemoveReviewer (_reviewer : address)
| SetThresholds (_autoApprove _autoReject : Z)
| SubmitClaim (_policyId : Z) (_description : string)
    (_evidenceHashes : list string)
| SubmitAIAnalysis (_claimId _claimType _severity _fraudRisk
    _recommendedPayout : Z)
| ReviewerApproveClaim (_claimId _payout : Z)
| ReviewerRejectClaim (_claimId : Z) (_reason : string)
| RawFulfillRandomWords (_requestId : Z) (randomWords : list Z).

(** The arguments are in the range of their Solidity types. *)
Definition wf_msg (m : msg) : bool :=
  match m with
  | SetThresholds a r => is_uint8 a && is_uint8 r
  | SubmitClaim p _ _ => is_uint256 p
  | SubmitAIAnalysis c t s f p =>
      is_uint256 c && is_uint8 t && is_uint8 s && is_uint8 f && is_uint256 p
  | ReviewerApproveClaim c p => is_uint256 c && is_uint256 p
  | ReviewerRejectClaim c _ => is_uint256 c
  | RawFulfillRandomWords q ws => is_uint256 q && forallb is_uint256 ws
  | _ => true
  end.

Definition onCp (f : State -> result State) (w : World) : result World :=
  s ← f (cp w); Ok (setCp s w).

Definition exec (env : Env) (sender : address) (m : msg) (w : World)
  : result World :=
  _ ← require (wf_msg m) BadCalldata;
  match m with
  | SetPayoutManager a => onCp (setPayoutManager sender a) w
  | SetAIOracle a => onCp (setAIOracle sender a) w
  | AddReviewer a => onCp (addReviewer sender a) w
  | RemoveReviewer a => onCp (removeReviewer sender a) w
  | SetThresholds a r => onCp (setThresholds sender a r) w
  | SubmitClaim p d e => '(_, w') ← submitClaim env sender p d e w; Ok w'
  | SubmitAIAnalysis c t s f p => submitAIAnalysis env sender c t s f p w
  | ReviewerApproveClaim c p => reviewerApproveClaim env sender c p w
  | ReviewerRejectClaim c r => reviewerRejectClaim env sender c r w
  | RawFulfillRandomWords q ws => onCp (rawFulfillRandomWords sender q ws) w
  end.

(** One step of the world: a successful call of the claims processor, or
    any activity of the registry and of the payout manager on their own
    (their administrators, depositors and recipients), which does not touch
    the storage of the claims processor. *)
Inductive step : World -> World -> Prop :=
| step_call (env : Env) (sender : address) (m : msg) (w w' : World) :
    exec env sender m w = Ok w' -> step w w'
| step_others (w : World) (reg : PolicyRegistry.State)
    (man : PayoutManager.State) :
    step w (mkWorld (cp w) reg man).

(** A call touched no claim but [id], and neither the reviewers nor the
    counter of claim ids. *)
Definition touches_only (id : Z) (s s' : State) : Prop :=
  (forall c, c <> id -> claimAt s' c = claimAt s c) /\
  nextClaimId s' = nextClaimId s /\
  reviewers s' = reviewers s.

(** A step that neither re-adds the reviewer [r] nor delivers a randomness
    fulfilment for a request of the claim [c]. *)
Definition step_without (c : Z) (r : address) (w w' : World) : Prop :=
  (exists reg man, w' = mkWorld (cp w) reg man) \/
  (exists env sender m,
     exec env sender m w = Ok w' /\
     m <> AddReviewer r /\
     (forall q ws, m = RawFulfillRandomWords q ws -> requestClaim (cp w) q <> c)).

(** A claim under review whose assigned reviewer is not registered. *)
Definition orphaned (s : State) (c : Z) (r : address) : Prop :=
  status (claimAt s c) = UnderReview /\
  assignedReviewer (claimAt s c) = r /\
  isReviewer s r = false.

End ClaimsProcessor.

(** ** Concrete scenarios *)

Module Scenarios.

(** A registry deployed by account 1, with one policy created at time 100
    for the holder 7, for a duration of 50. *)
Definition registryWithPolicy : PolicyRegistry.State :=
  match PolicyRegistry.createPolicy 100 1 7 10 50000000 1000000 "auto" 50
          (PolicyRegistry.init 1) with
  | Ok (_, s) => s
  | Err _ => PolicyRegistry.init 1
  end.

(** A payout manager deployed by account 1 for the claims processor 2 and
    the price feed 3, at the address 500; every feed answers [price], and
    every account accepts what it is sent. *)
Definition quote (price : Z) : PayoutManager.Env :=
  PayoutManager.mkEnv 500 1000 (fun _ => Some price)
                      (fun _ _ => PayoutManager.Accept).

Definition freshManager : PayoutManager.State := PayoutManager.init 1 2 3.

(** The calls of a list, in order, each by its sender; a call that reverts
    changes nothing. *)
Fixpoint managerAfter (env : PayoutManager.Env)
    (calls : list (address * PayoutManager.msg)) (s : PayoutManager.State)
  : PayoutManager.State :=
  match calls with
  | [] => s
  | (sender, m) :: rest =>
      managerAfter env rest (commit s (PayoutManager.exec env 8 sender m s))
  end.

(** Account 9 deposits 10^18. *)
Definition fundedManager : PayoutManager.State :=
  managerAfter (quote 2000000000)
    [(9, PayoutManager.Deposit (10 ^ 18))] freshManager.

(** Account 9 deposits 10^18; the claims processor has 5_000_000 paid to
    the recipient 7 for the claim 1; the recipient withdraws. *)
Definition paidManager : PayoutManager.State :=
  managerAfter (quote 2000000000)
    [(2, PayoutManager.ProcessPayout 1 7 5000000)] fundedManager.

Definition settledManager : PayoutManager.State :=
  managerAfter (quote 2000000000) [(7, PayoutManager.Withdraw)] paidManager.

(** Account 9 deposits 10 and the administrator sends 3 to the treasury. *)
Definition sweptManager : PayoutManager.State :=
  managerAfter (quote 2000000000)
    [(9, PayoutManager.Deposit 10); (1, PayoutManager.WithdrawToTreasury 3)]
    freshManager.

(** Two payouts for the claim id 0, to the recipients 7 and 8. *)
Definition zeroPaidOnce : PayoutManager.State :=
  managerAfter (quote 2000000000)
    [(2, PayoutManager.ProcessPayout 0 7 5000000)] fundedManager.

Definition zeroPaidTwice : PayoutManager.State :=
  managerAfter (quote 2000000000)
    [(2, PayoutManager.ProcessPayout 0 8 5000000)] zeroPaidOnce.

(** A world in which the account 66 is a contract that, each time it is
    sent native currency, calls [withdraw()] again and accepts whatever the
    outcome ([hostile true]: it reverts when the inner call fails). *)
Definition hostile (strict : bool) : PayoutManager.Env :=
  PayoutManager.mkEnv 500 1000 (fun _ => Some 2000000000)
    (fun _ a =>
       if a =? 66
       then PayoutManager.Reenter 66 PayoutManager.Withdraw
              (fun ok => if ok || negb strict then PayoutManager.Accept
                         else PayoutManager.Refuse)
       else PayoutManager.Accept).

(** The recipient 66 has been awarded 5_000_000. *)
Definition owingHostile : PayoutManager.State :=
  managerAfter (quote 2000000000)
    [(2, PayoutManager.ProcessPayout 1 66 5000000)] fundedManager.

(** *** The three contracts together

    Account 1 deploys and administers everything; the registry is at the
    address 200, the claims processor at 300, the randomness coordinator at
    400, the payout manager at 500. The coordinator answers every request
    with the id 77. The reviewers are the accounts 11 and 12, the holder of
    the policy 1 is the account 7. *)
Definition world0 : ClaimsProcessor.World :=
  ClaimsProcessor.mkWorld
    (ClaimsProcessor.init 1 400 200)
    (commit registryWithPolicy
       (PolicyRegistry.setClaimsProcessor 1 300 registryWithPolicy))
    (managerAfter (quote 2000000000)
       [(9, PayoutManager.Deposit (10 ^ 18))] (PayoutManager.init 1 300 3)).

Definition chain : ClaimsProcessor.Env :=
  ClaimsProcessor.mkEnv 300 120 (fun _ => Some 2000000000) (Some 77).

Fixpoint worldAfter (calls : list (address * ClaimsProcessor.msg))
    (w : ClaimsProcessor.World) : ClaimsProcessor.World :=
  match calls with
  | [] => w
  | (sender, m) :: rest =>
      worldAfter rest (commit w (ClaimsProcessor.exec chain sender m w))
  end.

(** The claim 1 is submitted, analysed with a fraud risk of 50 and sent to
    review, with the request 77. *)
Definition reviewWorld : ClaimsProcessor.World :=
  worldAfter
    [(1, ClaimsProcessor.AddReviewer 11);
     (1, ClaimsProcessor.AddReviewer 12);
     (7, ClaimsProcessor.SubmitClaim 1 "hail damage" ["Qm1"]);
     (1, ClaimsProcessor.SubmitAIAnalysis 1 0 5 50 1000000)]
    world0.

(** The fulfilment of the request 77 carries the word 0 and assigns the
    reviewer 11. *)
Definition assignedWorld : ClaimsProcessor.World :=
  worldAfter [(400, ClaimsProcessor.RawFulfillRandomWords 77 [0])] reviewWorld.

(** A second fulfilment of the request 77, with the word 1. *)
Definition reassignedWorld : ClaimsProcessor.World :=
  worldAfter [(400, ClaimsProcessor.RawFulfillRandomWords 77 [1])]
    assignedWorld.

(** The reviewer 11 rejects the claim; the request 77 is then fulfilled
    again, with the word 1. *)
Definition rejectedWorld : ClaimsProcessor.World :=
  worldAfter [(11, ClaimsProcessor.ReviewerRejectClaim 1 "not covered")]
    assignedWorld.

Definition rejectedReassignedWorld : ClaimsProcessor.World :=
  worldAfter [(400, ClaimsProcessor.RawFulfillRandomWords 77 [1])]
    rejectedWorld.

(** The reviewer 11 is removed while the claim is assigned to it; the
    request 77 is then fulfilled again, and the reviewer 12 approves. *)
Definition removedWorld : ClaimsProcessor.World :=
  worldAfter [(1, ClaimsProcessor.RemoveReviewer 11)] assignedWorld.

Definition refulfilledWorld : ClaimsProcessor.World :=
  worldAfter [(400, ClaimsProcessor.RawFulfillRandomWords 77 [0])] removedWorld.

Definition rescuedWorld : ClaimsProcessor.World :=
  worldAfter [(12, ClaimsProcessor.ReviewerApproveClaim 1 1000000)]
    refulfilledWorld.

(** The zero address is registered as a reviewer; the claim is sent to
    review, and before the only fulfilment of its request arrives the zero
    address is removed. The fulfilment assigns the reviewer 12, who rejects. *)
Definition pendingWorld : ClaimsProcessor.World :=
  worldAfter
    [(1, ClaimsProcessor.AddReviewer 0);
     (1, ClaimsProcessor.AddReviewer 12);
     (7, ClaimsProcessor.SubmitClaim 1 "hail damage" ["Qm1"]);
     (1, ClaimsProcessor.SubmitAIAnalysis 1 0 5 50 1000000)]
    world0.

Definition pendingRemovedWorld : ClaimsProcessor.World :=
  worldAfter [(1, ClaimsProcessor.RemoveReviewer 0)] pendingWorld.

Definition pendingAssignedWorld : ClaimsProcessor.World :=
  worldAfter [(400, ClaimsProcessor.RawFulfillRandomWords 77 [5])]
    pendingRemovedWorld.

Definition pendingResolvedWorld : ClaimsProcessor.World :=
  worldAfter [(12, ClaimsProcessor.ReviewerRejectClaim 1 "not covered")]
    pendingAssignedWorld.

(** Before any claim is submitted the oracle sends an analysis for the id 1
    with a fraud risk of 71; the holder then submits a claim, which gets the
    id 1. *)
Definition phantomWorld : ClaimsProcessor.World :=
  worldAfter [(1, ClaimsProcessor.SubmitAIAnalysis 1 0 5 71 0)] world0.

Definition phantomOverwrittenWorld : ClaimsProcessor.World :=
  worldAfter [(7, ClaimsProcessor.SubmitClaim 1 "hail damage" ["Qm1"])]
    phantomWorld.

(** The claim 1 is submitted and waits for its analysis; the thresholds are
    those of the constructor, 20 and 70. Two reviewers are registered. *)
Definition submittedWorld : ClaimsProcessor.World :=
  worldAfter
    [(1, ClaimsProcessor.AddReviewer 11);
     (1, ClaimsProcessor.AddReviewer 12);
     (7, ClaimsProcessor.SubmitClaim 1 "hail damage" ["Qm1"])]
    world0.

(** The same, with the payout manager set. *)
Definition wiredWorld : ClaimsProcessor.World :=
  worldAfter [(1, ClaimsProcessor.SetPayoutManager 500)] submittedWorld.

End Scenarios.

(** ** The calls of the registry *)

Module PolicyRegistryCalls.
Import PolicyRegistry.

Inductive msg : Type :=
| SetClaimsProcessor (_claimsProcessor : address)
| CreatePolicy (_policyholder : address) (_premium _coverage _deductible : Z)
    (_policyType : string) (_duration : Z)
| UpdatePolicy (_policyId _premium _coverage _deductible _duration : Z)
| CancelPolicy (_policyId : Z)
| IncrementClaimCount (_policyId : Z)
| RecordPayout (_policyId _amount : Z).

(** The arguments are unsigned 256-bit values. *)
Definition wf_msg (m : msg) : bool :=
  match m with
  | SetClaimsProcessor _ => true
  | CreatePolicy _ p c d _ t =>
      is_uint256 p && is_uint256 c && is_uint256 d && is_uint256 t
  | UpdatePolicy i p c d t =>
      is_uint256 i && is_uint256 p && is_uint256 c && is_uint256 d
      && is_uint256 t
  | CancelPolicy i | IncrementClaimCount i => is_uint256 i
  | RecordPayout i a => is_uint256 i && is_uint256 a
  end.

(** A call of the registry by [sender] in a block of time [now]. *)
Definition exec (now : Z) (sender : address) (m : msg) (s : State)
  : result State :=
  _ ← require (is_uint256 now && wf_msg m) BadCalldata;
  match m with
  | SetClaimsProcessor a => setClaimsProcessor sender a s
  | CreatePolicy h p c d ty t =>
      '(_, s') ← createPolicy now sender h p c d ty t s; Ok s'
  | UpdatePolicy i p c d t => updatePolicy sender i p c d t s
  | CancelPolicy i => cancelPolicy sender i s
  | IncrementClaimCount i => incrementClaimCount sender i s
  | RecordPayout i a => recordPayout sender i a s
  end.

Definition step (s s' : State) : Prop :=
  exists (now : Z) (sender : address) (m : msg), exec now sender m s = Ok s'.

Definition reachable (s : State) : Prop :=
  exists deployer : address, rtc step (init deployer) s.

Definition getUserPolicies (s : State) (_user : address) : list Z :=
  default [] (userPolicies s !! _user).

(** The ids that have been assigned. *)
Definition created (s : State) (id : Z) : Prop := 1 <= id < nextPolicyId s.

(** What holds of the records in every reachable state: the counter of ids
    is at least 1 and fits in 256 bits, a record under an assigned id carries
    that id and a window that does not end before it starts, and nothing is
    stored under any other id. *)
Definition consistent (s : State) : Prop :=
  1 <= nextPolicyId s <= MAX_UINT256 /\
  (forall id, created s id ->
     policyId (policyAt s id) = id /\
     0 <= startDate (policyAt s id) <= endDate (policyAt s id)) /\
  (forall id, ~ created s id -> policies s !! id = None).

(** The lists of [userPolicies]: each holds, in increasing order, the ids
    of the policies of its holder. *)
Definition indexed (s : State) : Prop :=
  forall h, getUserPolicies s h =
    filter (fun id => policyholder (policyAt s id) = h)
           (seqZ 1 (nextPolicyId s - 1)).

(** What the four mutators of a record do: the record under [id], which
    carries that id and is active, is replaced by one that keeps the id, the
    holder and the start, does not shorten the window and does not lower the
    counters. *)
Definition amends (s s' : State) (id : Z) : Prop :=
  exists p' : Policy,
    s' = setPolicy id p' s /\
    policyId (policyAt s id) = id /\
    isActive (policyAt s id) = true /\
    policyId p' = id /\
    policyholder p' = policyholder (policyAt s id) /\
    startDate p' = startDate (policyAt s id) /\
    endDate (policyAt s id) <= endDate p' /\
    claimsCount (policyAt s id) <= claimsCount p' /\
    totalPayouts (policyAt s id) <= totalPayouts p'.

(** How the registry may differ between a state and a later one. *)
Definition evolves (s s' : State) : Prop :=
  nextPolicyId s <= nextPolicyId s' /\
  admin s' = admin s /\
  forall id, created s id ->
    policyId (policyAt s' id) = policyId (policyAt s id) /\
    policyholder (policyAt s' id) = policyholder (policyAt s id) /\
    startDate (policyAt s' id) = startDate (policyAt s id) /\
    endDate (policyAt s id) <= endDate (policyAt s' id) /\
    claimsCount (policyAt s id) <= claimsCount (policyAt s' id) /\
    totalPayouts (policyAt s id) <= totalPayouts (policyAt s' id) /\
    (isActive (policyAt s id) = false -> isActive (policyAt s' id) = false).

End PolicyRegistryCalls.

(** ** The health of the payout manager *)

Module PayoutManagerHealth.
Import PayoutManager.

(** The amounts in storage are in the range of their type. *)
Definition in_range (s : State) : Prop :=
  (forall a, 0 <= balanceOf s a) /\
  0 <= totalWithdrawn s /\
  0 <= totalPayouts s <= MAX_UINT256 /\
  availableFunds s <= MAX_UINT256.

(** What [payouts] holds at the id [c]: nothing, or a record that carries
    the id, for a positive amount, marked as processed and not as
    withdrawn. *)
Definition filed (p : Payout) (c : Z) : Prop :=
  p = zeroPayout \/
  (claimId p = c /\ processed p = true /\ withdrawn p = false /\
   0 < usdAmount p /\ 0 <= avaxAmount p).

(** What every call keeps of a state: the administrator, the ranges, and
    the shape of the payout records. *)
Record upholds (s s' : State) : Prop := mkUpholds {
  up_admin : admin s' = admin s;
  up_balances : (forall a, 0 <= balanceOf s a) -> forall a, 0 <= balanceOf s' a;
  up_withdrawn : 0 <= totalWithdrawn s -> 0 <= totalWithdrawn s';
  up_payouts :
    0 <= totalPayouts s <= MAX_UINT256 -> 0 <= totalPayouts s' <= MAX_UINT256;
  up_available :
    availableFunds s <= MAX_UINT256 -> availableFunds s' <= MAX_UINT256;
  up_records :
    (forall c, filed (payoutAt s c) c) -> forall c, filed (payoutAt s' c) c
}.

Definition send_upholds (send : address -> Z -> State -> bool * State) : Prop :=
  forall to v s, upholds s (snd (send to v s)).

(** The states of a contract that received native currency through
    [deposit()] and [receive()] only: those that calls alone lead to. *)
Definition reachable_by_calls (s : State) : Prop :=
  exists deployer cp feed : address, rtc called (init deployer cp feed) s.

End PayoutManagerHealth.

(** ** The views and the reachable states of the claims processor *)

Module ClaimsProcessorViews.
Import ClaimsProcessor.

(** The first loop of [getUserClaims] and of [getClaimsForReview], from the
    id [i], with [fuel] iterations left: the claims that satisfy [p] are
    counted. *)
Fixpoint countLoop (fuel : nat) (i next : Z) (p : Z -> bool) (count : Z) : Z :=
  match fuel with
  | O => count
  | S fuel' =>
      if i <? next
      then countLoop fuel' (i + 1) next p (if p i then count + 1 else count)
      else count
  end.

(** The second loop: the ids of the claims that satisfy [p] are written to
    the array, from the position [index] on. Writing past the end of the
    array panics. *)
Fixpoint fillLoop (fuel : nat) (i next : Z) (p : Z -> bool) (index : nat)
    (claimIds : list Z) : result (list Z) :=
  match fuel with
  | O => Ok claimIds
  | S fuel' =>
      if i <? next
      then
        if p i
        then
          if (index <? length claimIds)%nat
          then fillLoop fuel' (i + 1) next p (S index) (<[index := i]> claimIds)
          else Err Panic
        else fillLoop fuel' (i + 1) next p index claimIds
      else Ok claimIds
  end.

(** Both loops run over the ids from 1 to [nextClaimId - 1]. *)
Definition collect (s : State) (p : Z -> bool) : result (list Z) :=
  let n := Z.to_nat (nextClaimId s - 1) in
  let count := countLoop n 1 (nextClaimId s) p 0 in
  fillLoop n 1 (nextClaimId s) p 0 (replicate (Z.to_nat count) 0).

Definition getUserClaims (s : State) (_user : address) : result (list Z) :=
  collect s (fun i => claimant (claimAt s i) =? _user).

Definition getClaimsForReview (sender : address) (s : State)
  : result (list Z) :=
  _ ← require (isReviewer s sender) OnlyReviewer;
  collect s (fun i =>
               bool_decide (status (claimAt s i) = UnderReview)
               && (assignedReviewer (claimAt s i) =? sender)).

Definition getActiveReviewerCount (s : State) : Z :=
  Z.of_nat (length (activeReviewers s)).

(** The worlds that steps lead to from a freshly deployed claims processor,
    beside any registry and any payout manager. *)
Definition reachable (w : World) : Prop :=
  exists (deployer coordinator reg_addr : address)
         (reg : PolicyRegistry.State) (man : PayoutManager.State),
    rtc step (mkWorld (init deployer coordinator reg_addr) reg man) w.

(** The ids that [submitClaim] has assigned. *)
Definition created (s : State) (c : Z) : Prop := 1 <= c < nextClaimId s.

(** What a claim keeps for life: who filed it, against which policy, with
    which description and evidence, and when. *)
Definition identity (c : Claim) : Z * Z * address * string * list string * Z :=
  (claimId c, policyId c, claimant c, description c, evidenceHashes c,
   timestamp c).

(** The reviewers: the flags of [reviewers] and the array [activeReviewers]
    agree, and the array has no duplicates. *)
Definition reviewers_in_sync (s : State) : Prop :=
  NoDup (activeReviewers s) /\
  forall a, isReviewer s a = true <-> a ∈ activeReviewers s.

(** The moves of the status of a claim. *)
Definition moves (a b : ClaimStatus) : Prop :=
  match a with
  | Submitted => b = UnderReview \/ b = Approved \/ b = Rejected \/ b = Paid
  | UnderReview => b = Approved \/ b = Rejected \/ b = Paid
  | _ => False
  end.

(** How the record of a claim changes: its identity stays; either the
    status and the review flag stay too, or the status moves, and a claim
    that comes under review has the flag set. *)
Definition advances (a b : Claim) : Prop :=
  identity b = identity a /\
  ((status b = status a /\ requiresHumanReview b = requiresHumanReview a) \/
   (moves (status a) (status b) /\
    (status b = UnderReview -> requiresHumanReview b = true))).

(** What the constructor fixes, and what the administrator sets. *)
Definition same_wiring (s s' : State) : Prop :=
  admin s' = admin s /\
  vrfCoordinator s' = vrfCoordinator s /\
  policyRegistry s' = policyRegistry s.

Definition same_settings (s s' : State) : Prop :=
  payoutManager s' = payoutManager s /\
  aiOracle s' = aiOracle s /\
  autoApproveThreshold s' = autoApproveThreshold s /\
  autoRejectThreshold s' = autoRejectThreshold s /\
  reviewers s' = reviewers s /\
  activeReviewers s' = activeReviewers s.

(** The calls under the modifier [onlyAdmin]. *)
Definition by_admin (m : msg) : bool :=
  match m with
  | SetPayoutManager _ | SetAIOracle _ | AddReviewer _ | RemoveReviewer _
  | SetThresholds _ _ => true
  | _ => false
  end.

Definition thresholds_ordered (s : State) : Prop :=
  0 <= autoApproveThreshold s < autoRejectThreshold s /\
  autoRejectThreshold s <= MAX_UINT8.

(** The stored claims: ids are assigned from 1 without gaps, a record
    carries its id exactly when the id was assigned, no stored status is
    [AIAnalyzed], and a claim under review is flagged for human review. *)
Definition well_kept (s : State) : Prop :=
  1 <= nextClaimId s <= MAX_UINT256 /\
  forall c,
    claimId (claimAt s c) = (if bool_decide (created s c) then c else 0) /\
    status (claimAt s c) <> AIAnalyzed /\
    (status (claimAt s c) = UnderReview ->
     requiresHumanReview (claimAt s c) = true).

End ClaimsProcessorViews.

(** ** Further scenarios *)

Module MoreScenarios.

(** The calls of a list, in order, each at its time and by its sender; a
    call that reverts changes nothing. *)
Definition registryAfter (calls : list (Z * address * PolicyRegistryCalls.msg))
    (s : PolicyRegistry.State) : PolicyRegistry.State :=
  fold_left
    (fun st '(now, sender, m) =>
       commit st (PolicyRegistryCalls.exec now sender m st))
    calls s.

(** A registry deployed by the account 1, with a policy for the holder 7
    created at time 100, the claims processor set to the account 300, and
    two more policies created at time 110, for the holders 8 and 7. *)
Definition busyRegistry : PolicyRegistry.State :=
  registryAfter
    [(100, 1, PolicyRegistryCalls.CreatePolicy 7 10 50000000 1000000 "auto" 50);
     (105, 1, PolicyRegistryCalls.SetClaimsProcessor 300);
     (110, 1, PolicyRegistryCalls.CreatePolicy 8 20 70000000 1000000 "home" 90);
     (110, 1, PolicyRegistryCalls.CreatePolicy 7 30 90000000 1000000 "travel" 30)]
    (PolicyRegistry.init 1).

(** The policy 1 is cancelled at time 120. *)
Definition cancelledRegistry : PolicyRegistry.State :=
  registryAfter [(120, 1, PolicyRegistryCalls.CancelPolicy 1)] busyRegistry.

(** A fourth policy, for the holder 9, created at time 130. *)
Definition crowdedRegistry : PolicyRegistry.State :=
  registryAfter
    [(130, 1, PolicyRegistryCalls.CreatePolicy 9 5 6 7 "health" 10)]
    busyRegistry.

(** A world of accounts that accept what they are sent; every price feed
    answers 2_000_000_000. *)
Definition calm : PayoutManager.Env := Scenarios.quote 2000000000.

(** The account 9 deposits 3 * 10^13, of which 2.5 * 10^13 are awarded to
    the recipient 7, who withdraws them: the contract then holds less than
    the total of the payouts. *)
Definition drainedManager : PayoutManager.State :=
  Scenarios.managerAfter calm
    [(9, PayoutManager.Deposit 30000000000000);
     (2, PayoutManager.ProcessPayout 1 7 5000000);
     (7, PayoutManager.Withdraw)]
    Scenarios.freshManager.

(** The account 9 deposits 10, and 5 more are forced into the contract. *)
Definition forcedManager : PayoutManager.State :=
  PayoutManager.forced 5
    (Scenarios.managerAfter calm [(9, PayoutManager.Deposit 10)]
       Scenarios.freshManager).

(** In [Scenarios.wiredWorld] the claim 1 is analysed with a fraud risk of
    50 and the request 77 is answered with the word 0: the claim is under
    review, assigned to the reviewer 11. *)
Definition wiredReviewWorld : ClaimsProcessor.World :=
  Scenarios.worldAfter
    [(1, ClaimsProcessor.SubmitAIAnalysis 1 0 5 50 1000000);
     (400, ClaimsProcessor.RawFulfillRandomWords 77 [0])]
    Scenarios.wiredWorld.

(** The same after the administrator of the registry has cancelled the
    policy 1, at time 115. *)
Definition lapsedWorld : ClaimsProcessor.World :=
  ClaimsProcessor.mkWorld
    (ClaimsProcessor.cp wiredReviewWorld)
    (registryAfter [(115, 1, PolicyRegistryCalls.CancelPolicy 1)]
       (ClaimsProcessor.registry wiredReviewWorld))
    (ClaimsProcessor.manager wiredReviewWorld).

End MoreScenarios.

(** * Properties *)

(** ** Reasoning about results *)

Module ResultFacts.

Lemma require_ok (c : bool) (e : error) : c = true -> require c e = Ok tt.
Proof. intros ->. reflexivity. Qed.

Lemma require_err (c : bool) (e : error) : c = false -> require c e = Err e.
Proof. intros ->. reflexivity. Qed.

Lemma bind_Ok {A B : Type} (r : result A) (k : A -> result B) (b : B) :
  r ≫= k = Ok b -> exists a, r = Ok a /\ k a = Ok b.
Proof. destruct r as [a|e]; [eauto | discriminate]. Qed.

Lemma require_Ok (c : bool) (e : error) (u : unit) :
  require c e = Ok u -> c = true.
Proof. destruct c; [reflexivity | discriminate]. Qed.

Lemma add256_Ok (a b c : Z) :
  add256 a b = Ok c -> c = a + b /\ a + b <= MAX_UINT256.
Proof.
  unfold add256. destruct (Z.leb_spec (a + b) MAX_UINT256); [|discriminate].
  intros [= <-]. auto.
Qed.

Lemma sub256_Ok (a b c : Z) : sub256 a b = Ok c -> c = a - b /\ b <= a.
Proof.
  unfold sub256. destruct (Z.leb_spec b a); [|discriminate].
  intros [= <-]. auto.
Qed.

Lemma is_uint256_nonneg (v : Z) : is_uint256 v = true -> 0 <= v.
Proof.
  unfold is_uint256. intros H. apply andb_true_iff in H.
  apply Z.leb_le. exact (proj1 H).
Qed.

(** A call that returned: each [require] held and each checked operation
    stayed in range. *)
Ltac inv_ok :=
  repeat match goal with
  | H : _ ≫= _ = Ok _ |- _ =>
      apply bind_Ok in H; destruct H as (? & ? & H)
  | H : require _ _ = Ok _ |- _ => apply require_Ok in H
  | H : (_ =? _) = true |- _ => apply Z.eqb_eq in H
  | H : (_ <=? _) = true |- _ => apply Z.leb_le in H
  | H : (_ <? _) = true |- _ => apply Z.ltb_lt in H
  | H : _ && _ = true |- _ => apply andb_true_iff in H; destruct H
  | H : add256 _ _ = Ok _ |- _ => apply add256_Ok in H; destruct H as [-> ?]
  | H : sub256 _ _ = Ok _ |- _ => apply sub256_Ok in H; destruct H as [-> ?]
  | H : Ok _ = Ok _ |- _ => injection H as H
  | H : Err _ = Ok _ |- _ => discriminate H
  | H : (_, _) = (_, _) |- _ => injection H as ? ?
  end.

End ResultFacts.

(** ** The policy registry *)

Module PolicyRegistryProofs.
Import PolicyRegistry.

(** C8, as the code has it: [isPolicyValidForClaims] is true exactly when
    the record stored under the id carries that id (the policy exists), its
    holder is the claimant, it is active, and the time of the block lies in
    the closed window from [startDate] to [endDate], both ends included. *)
Theorem isPolicyValidForClaims_closed_window
    (now : Z) (s : State) (_policyId : Z) (_claimant : address) :
  isPolicyValidForClaims now s _policyId _claimant = true <->
  policyId (policyAt s _policyId) = _policyId /\
  policyholder (policyAt s _policyId) = _claimant /\
  isActive (policyAt s _policyId) = true /\
  startDate (policyAt s _policyId) <= now <= endDate (policyAt s _policyId).
Proof.
  unfold isPolicyValidForClaims.
  rewrite !andb_true_iff, !Z.eqb_eq, !Z.leb_le.
  tauto.
Qed.

(** C8 as stated fails when the time of the block is [endDate]: the policy
    created at time 100 for 50 seconds is still valid for claims at time
    150, which the half-open window excludes. *)
Lemma isPolicyValidForClaims_at_endDate :
  endDate (policyAt Scenarios.registryWithPolicy 1) = 150 /\
  isPolicyValidForClaims 150 Scenarios.registryWithPolicy 1 7 = true /\
  ~ (isPolicyValidForClaims 150 Scenarios.registryWithPolicy 1 7 = true <->
     policyId (policyAt Scenarios.registryWithPolicy 1) = 1 /\
     policyholder (policyAt Scenarios.registryWithPolicy 1) = 7 /\
     isActive (policyAt Scenarios.registryWithPolicy 1) = true /\
     startDate (policyAt Scenarios.registryWithPolicy 1) <= 150
       < endDate (policyAt Scenarios.registryWithPolicy 1)).
Proof.
  assert (He : endDate (policyAt Scenarios.registryWithPolicy 1) = 150)
    by (vm_compute; reflexivity).
  assert (Hv : isPolicyValidForClaims 150 Scenarios.registryWithPolicy 1 7 = true)
    by (vm_compute; reflexivity).
  split; [exact He|]. split; [exact Hv|].
  intros [H _]. specialize (H Hv). rewrite He in H. lia.
Qed.

End PolicyRegistryProofs.

(** ** The payout manager *)

Module PayoutManagerProofs.
Import PayoutManager ResultFacts.

(** *** Conversion *)

Lemma convertUSDToAVAX_cases (env : Env) (s : State) (usd p : Z) :
  latestAnswer env (priceFeed s) = Some p ->
  (p <= 0 -> convertUSDToAVAX env s usd = Err InvalidPriceData) /\
  (0 < p -> usd * 10 ^ 18 <= MAX_UINT256 -> p * 10 ^ 2 <= MAX_UINT256 ->
   convertUSDToAVAX env s usd = Ok (usd * 10 ^ 18 / (p * 10 ^ 2))) /\
  (0 < p -> MAX_UINT256 < usd * 10 ^ 18 \/ MAX_UINT256 < p * 10 ^ 2 ->
   convertUSDToAVAX env s usd = Err Panic).
Proof.
  intros Hfeed. unfold convertUSDToAVAX. rewrite Hfeed.
  repeat split.
  - intros Hp. rewrite require_err by (apply Z.ltb_ge; exact Hp). reflexivity.
  - intros Hp Hn Hd. rewrite require_ok by (apply Z.ltb_lt; exact Hp).
    cbn [mbind result_bind bind]. unfold mul256.
    rewrite (proj2 (Z.leb_le _ _) Hn). cbn [bind].
    rewrite (proj2 (Z.leb_le _ _) Hd). reflexivity.
  - intros Hp Hover. rewrite require_ok by (apply Z.ltb_lt; exact Hp).
    cbn [mbind result_bind bind]. unfold mul256.
    destruct (Z.leb_spec (usd * 10 ^ 18) MAX_UINT256) as [Hn|Hn]; [|reflexivity].
    cbn [bind].
    destruct (Z.leb_spec (p * 10 ^ 2) MAX_UINT256) as [Hd|Hd]; [|reflexivity].
    lia.
Qed.

(** C1, as the code has it: when the oracle returns the quote [p],
    [convertUSDToAVAX] fails with [InvalidPriceData] if [p] is not positive;
    it returns [usdAmount * 10^18 / (p * 10^2)] if [p] is positive and the
    two products fit in 256 bits; and it reverts with an arithmetic panic
    if [p] is positive and one of the two products does not fit. *)
Theorem convertUSDToAVAX_formula (env : Env) (s : State) (usdAmount p : Z) :
  latestAnswer env (priceFeed s) = Some p ->
  (p <= 0 -> convertUSDToAVAX env s usdAmount = Err InvalidPriceData) /\
  (0 < p -> usdAmount * 10 ^ 18 <= MAX_UINT256 -> p * 10 ^ 2 <= MAX_UINT256 ->
   convertUSDToAVAX env s usdAmount = Ok (usdAmount * 10 ^ 18 / (p * 10 ^ 2))) /\
  (0 < p ->
   MAX_UINT256 < usdAmount * 10 ^ 18 \/ MAX_UINT256 < p * 10 ^ 2 ->
   convertUSDToAVAX env s usdAmount = Err Panic).
Proof. apply convertUSDToAVAX_cases. Qed.

Lemma convertUSDToAVAX_formula_witness :
  convertUSDToAVAX (Scenarios.quote 2500000000) Scenarios.freshManager 1000000
  = Ok (1000000 * 10 ^ 18 / (2500000000 * 10 ^ 2)) /\
  convertUSDToAVAX (Scenarios.quote 0) Scenarios.freshManager 1000000
  = Err InvalidPriceData.
Proof.
  split.
  - apply (convertUSDToAVAX_formula (Scenarios.quote 2500000000)
             Scenarios.freshManager 1000000 2500000000);
      [reflexivity | lia | vm_compute; discriminate | vm_compute; discriminate].
  - apply (convertUSDToAVAX_formula (Scenarios.quote 0)
             Scenarios.freshManager 1000000 0); [reflexivity | lia].
Defined.

(** C1 as stated fails for a large amount: with the quote 1, the amount
    [2^256 - 1] is a [uint256], and the call reverts instead of returning
    the quotient. *)
Lemma convertUSDToAVAX_overflow :
  is_uint256 MAX_UINT256 = true /\
  convertUSDToAVAX (Scenarios.quote 1) Scenarios.freshManager MAX_UINT256
  = Err Panic /\
  convertUSDToAVAX (Scenarios.quote 1) Scenarios.freshManager MAX_UINT256
  <> Ok (MAX_UINT256 * 10 ^ 18 / (1 * 10 ^ 2)).
Proof.
  split; [reflexivity|].
  assert (H : convertUSDToAVAX (Scenarios.quote 1) Scenarios.freshManager
                MAX_UINT256 = Err Panic) by (vm_compute; reflexivity).
  split; [exact H|]. rewrite H. discriminate.
Qed.

(** C2, at the failing input: for 5_000_000 at the quote 2_000_000_000
    the code returns 25_000_000_000_000 (2.5 * 10^13). The documentation of
    the function gives the amount 6 decimals, the quote 8 and the result 18,
    which makes 5 dollars at 20 dollars a quarter of a unit, 2.5 * 10^17;
    its comment divides by the quote times 10^10 where the code multiplies
    the quote by 10^2. *)
Theorem convertUSDToAVAX_five_dollars (env : Env) (s : State) :
  latestAnswer env (priceFeed s) = Some 2000000000 ->
  convertUSDToAVAX env s 5000000 = Ok 25000000000000.
Proof.
  intros Hfeed.
  destruct (convertUSDToAVAX_cases env s 5000000 2000000000 Hfeed)
    as (_ & Hpos & _).
  rewrite Hpos; [reflexivity | lia | vm_compute; discriminate
                | vm_compute; discriminate].
Qed.

Lemma convertUSDToAVAX_five_dollars_witness :
  convertUSDToAVAX (Scenarios.quote 2000000000) Scenarios.freshManager 5000000
  = Ok 25000000000000.
Proof.
  apply (convertUSDToAVAX_five_dollars (Scenarios.quote 2000000000)
           Scenarios.freshManager).
  reflexivity.
Defined.

(** The result is not the 25_000_000_000_000_000 of C2. *)
Lemma convertUSDToAVAX_five_dollars_not_stated :
  convertUSDToAVAX (Scenarios.quote 2000000000) Scenarios.freshManager 5000000
  <> Ok 25000000000000000.
Proof. vm_compute. discriminate. Qed.

(** *** The books balance *)

Lemma sum_insert_fresh (m : gmap Z Z) (k v : Z) :
  m !! k = None ->
  map_fold (fun _ x acc => x + acc) 0 (<[k := v]> m)
  = v + map_fold (fun _ x acc => x + acc) 0 m.
Proof.
  intros Hk. rewrite map_fold_insert_L.
  - reflexivity.
  - intros j1 j2 z1 z2 y _ _ _. lia.
  - exact Hk.
Qed.

Lemma sum_insert (m : gmap Z Z) (k v : Z) :
  map_fold (fun _ x acc => x + acc) 0 (<[k := v]> m)
  = map_fold (fun _ x acc => x + acc) 0 m - default 0 (m !! k) + v.
Proof.
  destruct (m !! k) as [x|] eqn:Hk; cbn [default from_option].
  - rewrite <- (insert_delete_id m k x Hk) at 2.
    rewrite <- (insert_delete_eq m k v).
    rewrite !sum_insert_fresh by apply lookup_delete_eq. unfold id. lia.
  - rewrite sum_insert_fresh by exact Hk. lia.
Qed.

Lemma sumBalances_setBalance (a : address) (v : Z) (s : State) :
  sumBalances (setBalance a v s) = sumBalances s - balanceOf s a + v.
Proof. apply sum_insert. Qed.

Lemma deposited_app (l l' : list event) :
  deposited (l ++ l') = deposited l + deposited l'.
Proof. induction l as [|[] l IH]; cbn [deposited app]; lia. Qed.

Lemma paidOut_app (l l' : list event) :
  paidOut (l ++ l') = paidOut l + paidOut l'.
Proof. induction l as [|[] l IH]; cbn [paidOut app]; lia. Qed.

Lemma credited_app (a : address) (l l' : list event) :
  credited a (l ++ l') = credited a l + credited a l'.
Proof. induction l as [|[] l IH]; cbn [credited app]; lia. Qed.

Lemma conserves_refl (s : State) : conserves s s.
Proof. split; auto. intros a. lia. Qed.

Lemma conserves_trans (s1 s2 s3 : State) :
  conserves s1 s2 -> conserves s2 s3 -> conserves s1 s3.
Proof.
  intros [] []. split; try congruence; auto.
  - intros c Hc. rewrite <- (cons_payouts0 c Hc).
    apply cons_payouts1. rewrite (cons_payouts0 c Hc). exact Hc.
  - intros a. specialize (cons_credit0 a). specialize (cons_credit1 a). lia.
Qed.

Ltac books_simpl :=
  unfold slack, books, cover, sumBalances, balanceOf, payoutAt, emit,
    setTotalPayouts, setTotalWithdrawn, setAvailableFunds, setSelfBalance,
    setBalance, setPayout in *;
  cbn [payouts balances claimsProcessor admin treasury priceFeed totalPayouts
       totalWithdrawn availableFunds selfBalance log] in *;
  rewrite ?deposited_app, ?paidOut_app, ?credited_app, ?sum_insert in *;
  cbn [deposited paidOut credited] in *.

(** The balance of [a] after [balances[k] = v]. *)
Ltac balance_cases k a :=
  destruct (Z.eqb_spec k a) as [->|?];
  [rewrite ?lookup_insert_eq | rewrite ?lookup_insert_ne by assumption];
  cbn [from_option id].

Lemma processPayout_conserves env sender c r u s s' :
  processPayout env sender c r u s = Ok s' -> conserves s s'.
Proof.
  unfold processPayout. intros H. inv_ok. subst s'. split.
  1-4: books_simpl; lia.
  - intros c' Hc'. books_simpl. destruct (decide (c = c')) as [->|Hne].
    + congruence.
    + rewrite lookup_insert_ne by exact Hne. reflexivity.
  - reflexivity.
  - intros a. books_simpl. balance_cases r a; lia.
Qed.

Lemma deposit_conserves sender v s s' :
  0 <= v -> deposit sender v s = Ok s' -> conserves s s'.
Proof.
  unfold deposit. intros Hv H. inv_ok. subst s'. split.
  1-4: books_simpl; lia.
  - auto.
  - reflexivity.
  - intros a. books_simpl. lia.
Qed.

Lemma setTreasury_conserves sender t s s' :
  setTreasury sender t s = Ok s' -> conserves s s'.
Proof.
  unfold setTreasury. intros H. inv_ok. subst s'. split.
  1-4: books_simpl; lia.
  - auto.
  - reflexivity.
  - intros a. books_simpl. lia.
Qed.

Lemma setPriceFeed_conserves sender f s s' :
  setPriceFeed sender f s = Ok s' -> conserves s s'.
Proof.
  unfold setPriceFeed. intros H. inv_ok. subst s'. split.
  1-4: books_simpl; lia.
  - auto.
  - reflexivity.
  - intros a. books_simpl. lia.
Qed.

Lemma withdraw_conserves send sender s s' :
  send_ok send -> withdraw send sender s = Ok s' -> conserves s s'.
Proof.
  intros Hsend. unfold withdraw, withdraw_effects. intros H. inv_ok.
  match goal with x : (Z * State)%type |- _ => destruct x as [amount s1] end.
  inv_ok. subst amount s1.
  specialize (Hsend sender (balanceOf s sender) (setBalance sender 0 s)).
  destruct (send sender (balanceOf s sender) (setBalance sender 0 s))
    as [[] s2]; inv_ok; [|discriminate].
  subst s'. destruct Hsend as [_ []]. split.
  1-4: books_simpl; lia.
  - exact cons_payouts0.
  - exact cons_processor0.
  - intros a. specialize (cons_credit0 a). books_simpl.
    revert cons_credit0. balance_cases sender a; lia.
Qed.

Lemma withdrawToTreasury_conserves send sender a s s' :
  send_ok send -> withdrawToTreasury send sender a s = Ok s' -> conserves s s'.
Proof.
  intros Hsend. unfold withdrawToTreasury. intros H. inv_ok.
  match type of H with
  | (let '(_, _) := send ?t ?v ?st in _) = _ =>
      specialize (Hsend t v st); destruct (send t v st) as [[] s2]
  end; inv_ok; [|discriminate].
  subst s'. destruct Hsend as [_ []]. split.
  1-4: books_simpl; lia.
  - exact cons_payouts0.
  - exact cons_processor0.
  - intros a'. specialize (cons_credit0 a'). books_simpl. lia.
Qed.

Lemma dispatch_conserves env send sender m s s' :
  send_ok send -> dispatch env send sender m s = Ok s' -> conserves s s'.
Proof.
  intros Hsend. unfold dispatch. intros H. inv_ok.
  destruct m; cbn [wf_msg] in *.
  - eapply processPayout_conserves; eassumption.
  - eapply withdraw_conserves; eassumption.
  - eapply deposit_conserves; [apply is_uint256_nonneg|]; eassumption.
  - eapply deposit_conserves; [apply is_uint256_nonneg|]; eassumption.
  - eapply withdrawToTreasury_conserves; eassumption.
  - eapply setTreasury_conserves; eassumption.
  - eapply setPriceFeed_conserves; eassumption.
Qed.

Lemma run_conserves invoke b :
  (forall from m s s', invoke from m s = Ok s' -> conserves s s') ->
  forall s s', run invoke b s = Ok s' -> conserves s s'.
Proof.
  intros Hinv. induction b as [| |from m k IH]; intros s s' H; cbn [run] in H.
  - inv_ok. subst. apply conserves_refl.
  - discriminate.
  - destruct (invoke from m s) as [s1|e] eqn:Hm.
    + eapply conserves_trans; [eapply Hinv; exact Hm | eapply IH; exact H].
    + eapply IH; exact H.
Qed.

Lemma transfer_ok env depth : send_ok (transfer env depth).
Proof.
  induction depth as [|d IH]; intros to v s; cbn [transfer]; [reflexivity|].
  destruct (Z.ltb_spec (selfBalance s) v) as [Hlt|Hge]; [reflexivity|].
  destruct (to =? this env).
  - destruct (dispatch env (transfer env d) (this env) (Receive v) _) eqn:Hd;
      [|reflexivity].
    split; [lia|]. eapply dispatch_conserves; [exact IH | exact Hd].
  - destruct (run _ _ _) eqn:Hr; [|reflexivity].
    split; [lia|]. eapply run_conserves; [|exact Hr].
    intros from m s1 s2. apply dispatch_conserves. exact IH.
Qed.

Lemma exec_conserves env depth sender m s s' :
  exec env depth sender m s = Ok s' -> conserves s s'.
Proof. apply dispatch_conserves, transfer_ok. Qed.

(** *** Balance conservation *)

Lemma conserves_sustains (s s' : State) : conserves s s' -> sustains s s'.
Proof. intros []. split; auto. lia. Qed.

Lemma sustains_refl (s : State) : sustains s s.
Proof. apply conserves_sustains, conserves_refl. Qed.

Lemma sustains_trans (s1 s2 s3 : State) :
  sustains s1 s2 -> sustains s2 s3 -> sustains s1 s3.
Proof.
  intros [] []. split; try congruence; try lia; auto.
  - intros c Hc.
    rewrite sus_payouts1; [apply sus_payouts0, Hc|].
    rewrite sus_payouts0; exact Hc.
  - intros a. specialize (sus_credit0 a). specialize (sus_credit1 a). lia.
Qed.

(** Forced currency changes what the contract holds and nothing else. *)
Lemma forced_sustains (v : Z) (s : State) : 0 <= v -> sustains s (forced v s).
Proof.
  intros Hv. split; try reflexivity; auto.
  unfold cover, forced, sumBalances. cbn. lia.
Qed.

Lemma called_conserves (s s' : State) : called s s' -> conserves s s'.
Proof. intros (env & depth & sender & m & H). eapply exec_conserves, H. Qed.

Lemma step_sustains (s s' : State) : step s s' -> sustains s s'.
Proof.
  intros [Hcall | (v & Hv & ->)].
  - apply conserves_sustains, called_conserves, Hcall.
  - apply forced_sustains, Hv.
Qed.

Lemma steps_sustain (s s' : State) : rtc step s s' -> sustains s s'.
Proof.
  induction 1 as [|s1 s2 s3 H12 _ IH]; [apply sustains_refl|].
  eapply sustains_trans; [apply step_sustains, H12 | exact IH].
Qed.

Lemma conservation_books (s : State) :
  conservation s <-> 0 <= slack s /\ books s = 0 /\ 0 <= availableFunds s.
Proof. unfold conservation, slack, books, swept. lia. Qed.

Lemma sustains_conservation (s s' : State) :
  sustains s s' -> conservation s -> conservation s'.
Proof.
  intros [] H. apply conservation_books in H. apply conservation_books.
  destruct H as (? & ? & ?). repeat split; lia.
Qed.

Lemma conservation_init (d c f : address) : conservation (init d c f).
Proof.
  unfold conservation, swept, sumBalances. cbn.
  rewrite map_fold_empty. lia.
Qed.

(** What [swept] counts. When the receivers only accept what they are sent,
    a transfer leaves [swept] as it is, a successful [withdrawToTreasury]
    adds its amount to it, and every other call leaves it as it is. *)
Lemma transfer_passive_swept env depth to v s :
  (forall d a, code env d a = Accept) ->
  swept (snd (transfer env depth to v s)) = swept s.
Proof.
  intros Hcode. destruct depth as [|d]; cbn [transfer]; [reflexivity|].
  destruct (selfBalance s <? v); [reflexivity|].
  destruct (to =? this env).
  - destruct (dispatch env (transfer env d) (this env) (Receive v) _)
      as [s2|e] eqn:Hd; [|reflexivity].
    unfold dispatch in Hd. inv_ok. cbn [snd]. unfold deposit in Hd. inv_ok.
    subst s2. unfold swept. books_simpl. lia.
  - rewrite Hcode. reflexivity.
Qed.

Lemma exec_passive_swept env depth sender m s s' :
  (forall d a, code env d a = Accept) ->
  exec env depth sender m s = Ok s' ->
  swept s' = swept s + match m with WithdrawToTreasury a => a | _ => 0 end.
Proof.
  intros Hcode H. unfold exec, dispatch in H. inv_ok.
  match goal with Hwf : wf_msg _ = true |- _ => clear Hwf end.
  destruct m.
  - unfold processPayout in H. inv_ok. subst s'. unfold swept. books_simpl. lia.
  - unfold withdraw, withdraw_effects in H. inv_ok.
    match goal with x : (Z * State)%type |- _ => destruct x as [amount s1] end.
    inv_ok. subst amount s1.
    pose proof (transfer_passive_swept env depth sender (balanceOf s sender)
                  (setBalance sender 0 s) Hcode) as Hs.
    destruct (transfer env depth sender _ _) as [[] s2]; inv_ok;
      [|discriminate].
    subst s'. cbn [snd] in Hs. unfold swept in *. books_simpl. lia.
  - unfold deposit in H. inv_ok. subst s'. unfold swept. books_simpl. lia.
  - unfold deposit in H. inv_ok. subst s'. unfold swept. books_simpl. lia.
  - unfold withdrawToTreasury in H. inv_ok.
    match type of H with
    | (let '(_, _) := transfer ?e ?d ?t ?v ?st in _) = _ =>
        pose proof (transfer_passive_swept e d t v st Hcode) as Hs;
        destruct (transfer e d t v st) as [[] s2]
    end; inv_ok; [|discriminate].
    subst s'. cbn [snd] in Hs. unfold swept in *. books_simpl. lia.
  - unfold setTreasury in H. inv_ok. subst s'. unfold swept. cbn. lia.
  - unfold setPriceFeed in H. inv_ok. subst s'. unfold swept. cbn. lia.
Qed.

(** C6, as the code has it: in every reachable state the withdrawable
    balances plus what was withdrawn do not exceed the total of the payouts,
    the funding pool is the deposits less the payouts less what was sent to
    the treasury, and the funding pool is not negative; every step preserves
    this: a successful call (a payout, a withdrawal, a deposit or a plain
    receipt, a transfer to the treasury, with whatever the receivers do in
    between), and native currency forced into the contract. *)
Theorem balance_conservation :
  (forall s, reachable s -> conservation s) /\
  (forall s s', conservation s -> step s s' -> conservation s').
Proof.
  split.
  - intros s (d & c & f & Hsteps).
    eapply sustains_conservation; [apply steps_sustain, Hsteps|].
    apply conservation_init.
  - intros s s' Hs Hstep.
    eapply sustains_conservation; [apply step_sustains, Hstep | exact Hs].
Qed.

Lemma managerAfter_reaches env calls s :
  rtc step s (Scenarios.managerAfter env calls s).
Proof.
  revert s. induction calls as [|[sender m] rest IH]; intros s;
    cbn [Scenarios.managerAfter]; [apply rtc_refl|].
  destruct (exec env 8 sender m s) as [s'|e] eqn:He; cbn [commit].
  - eapply rtc_l; [|apply IH]. left. exists env, 8%nat, sender, m. exact He.
  - apply IH.
Defined.

Lemma settledManager_reachable : reachable Scenarios.settledManager.
Proof.
  exists 1, 2, 3.
  unfold Scenarios.settledManager, Scenarios.paidManager, Scenarios.fundedManager.
  etrans; [apply managerAfter_reaches|].
  etrans; [apply managerAfter_reaches|].
  apply managerAfter_reaches.
Defined.

Lemma balance_conservation_witness :
  reachable Scenarios.settledManager /\ conservation Scenarios.settledManager.
Proof.
  split; [apply settledManager_reachable|].
  apply (proj1 balance_conservation). apply settledManager_reachable.
Defined.

(** C6 as stated fails after a transfer to the treasury: 10 were deposited,
    nothing was paid out, and the funding pool holds 7. *)
Lemma sweptManager_breaks_stated_pool :
  reachable Scenarios.sweptManager /\
  availableFunds Scenarios.sweptManager = 7 /\
  deposited (log Scenarios.sweptManager) - totalPayouts Scenarios.sweptManager = 10 /\
  availableFunds Scenarios.sweptManager
  <> deposited (log Scenarios.sweptManager) - totalPayouts Scenarios.sweptManager.
Proof.
  split.
  - exists 1, 2, 3. apply managerAfter_reaches.
  - assert (Ha : availableFunds Scenarios.sweptManager = 7)
      by (vm_compute; reflexivity).
    assert (Hd : deposited (log Scenarios.sweptManager)
                 - totalPayouts Scenarios.sweptManager = 10)
      by (vm_compute; reflexivity).
    split; [exact Ha|]. split; [exact Hd|]. rewrite Ha, Hd. lia.
Qed.

(** *** One payout per claim *)

Lemma processPayout_record env sender c r u s s1 :
  processPayout env sender c r u s = Ok s1 ->
  sender = claimsProcessor s /\
  claimId (payoutAt s c) = 0 /\
  exists avax, convertUSDToAVAX env s u = Ok avax /\
    payoutAt s1 c = mkPayout c r u avax (now env) true false.
Proof.
  unfold processPayout. intros H. inv_ok. subst s1.
  repeat split; try assumption.
  eexists. split; [eassumption|].
  unfold payoutAt, emit, setTotalPayouts, setAvailableFunds, setBalance, setPayout.
  cbn [payouts]. rewrite lookup_insert_eq. reflexivity.
Qed.

Lemma processPayout_duplicate env sender c r u s :
  claimId (payoutAt s c) <> 0 ->
  processPayout env sender c r u s =
    Err (if sender =? claimsProcessor s then PayoutAlreadyProcessed
         else OnlyClaimsProcessor).
Proof.
  intros Hc. unfold processPayout.
  destruct (sender =? claimsProcessor s); [|reflexivity].
  cbn [require mbind result_bind bind].
  apply Z.eqb_neq in Hc. rewrite Hc. reflexivity.
Qed.

(** C4, as the code has it: for a claim id other than zero, the first
    successful [processPayout] finds no record and creates one; in every
    later state the record is the same, and every further [processPayout]
    for that id fails, with [PayoutAlreadyProcessed] when the claims
    processor calls and at the caller guard otherwise, and changes nothing. *)
Theorem payout_unique (env : Env) (sender : address) (c : Z) (r : address)
    (u : Z) (s s1 : State) :
  c <> 0 ->
  processPayout env sender c r u s = Ok s1 ->
  claimId (payoutAt s c) = 0 /\
  (exists avax, convertUSDToAVAX env s u = Ok avax /\
     payoutAt s1 c = mkPayout c r u avax (now env) true false) /\
  forall s2, rtc step s1 s2 ->
    payoutAt s2 c = payoutAt s1 c /\
    forall env' sender' r' u',
      processPayout env' sender' c r' u' s2 =
        Err (if sender' =? claimsProcessor s2 then PayoutAlreadyProcessed
             else OnlyClaimsProcessor) /\
      commit s2 (processPayout env' sender' c r' u' s2) = s2.
Proof.
  intros Hc H. destruct (processPayout_record _ _ _ _ _ _ _ H)
    as (_ & Hfresh & avax & Hconv & Hrec).
  split; [exact Hfresh|]. split; [eauto|].
  intros s2 Hsteps.
  assert (Hid : claimId (payoutAt s1 c) <> 0) by (rewrite Hrec; exact Hc).
  pose proof (sus_payouts _ _ (steps_sustain _ _ Hsteps) c Hid) as Hkeep.
  split; [exact Hkeep|]. intros env' sender' r' u'.
  assert (Hdup := processPayout_duplicate env' sender' c r' u' s2).
  rewrite Hkeep in Hdup. specialize (Hdup Hid).
  split; [exact Hdup|]. rewrite Hdup. reflexivity.
Qed.

Lemma payout_unique_witness :
  processPayout (Scenarios.quote 2000000000) 2 1 7 5000000 Scenarios.fundedManager
  = Ok Scenarios.paidManager /\
  payoutAt Scenarios.settledManager 1 = payoutAt Scenarios.paidManager 1 /\
  processPayout (Scenarios.quote 2000000000) 2 1 8 9000000
    Scenarios.settledManager = Err PayoutAlreadyProcessed.
Proof.
  assert (H : processPayout (Scenarios.quote 2000000000) 2 1 7 5000000
                Scenarios.fundedManager = Ok Scenarios.paidManager)
    by (vm_compute; reflexivity).
  split; [exact H|].
  destruct (payout_unique (Scenarios.quote 2000000000) 2 1 7 5000000
              Scenarios.fundedManager Scenarios.paidManager
              ltac:(discriminate) H) as (_ & _ & Hlater).
  destruct (Hlater Scenarios.settledManager
              (managerAfter_reaches _ _ _)) as [Hkeep Hdup].
  split; [exact Hkeep|].
  exact (proj1 (Hdup (Scenarios.quote 2000000000) 2 8 9000000)).
Defined.

(** C4 as stated fails for the claim id 0, which the duplicate check takes
    for "no record": two payouts for it succeed, the second replaces the
    record of the first, and both recipients are credited. *)
Lemma payout_zero_id_twice :
  processPayout (Scenarios.quote 2000000000) 2 0 7 5000000 Scenarios.fundedManager
  = Ok Scenarios.zeroPaidOnce /\
  processPayout (Scenarios.quote 2000000000) 2 0 8 5000000 Scenarios.zeroPaidOnce
  = Ok Scenarios.zeroPaidTwice /\
  recipient (payoutAt Scenarios.zeroPaidOnce 0) = 7 /\
  recipient (payoutAt Scenarios.zeroPaidTwice 0) = 8 /\
  balanceOf Scenarios.zeroPaidTwice 7 = 25000000000000 /\
  balanceOf Scenarios.zeroPaidTwice 8 = 25000000000000 /\
  Scenarios.zeroPaidTwice <> Scenarios.zeroPaidOnce.
Proof.
  repeat (split; [vm_compute; reflexivity|]).
  intros Heq.
  assert (H : recipient (payoutAt Scenarios.zeroPaidTwice 0)
              = recipient (payoutAt Scenarios.zeroPaidOnce 0))
    by (rewrite Heq; reflexivity).
  vm_compute in H. discriminate H.
Qed.

(** *** Withdrawal *)




(** What a receiver does while it runs is a sequence of steps of the
    contract: each call it has made that succeeds is one. *)
Lemma run_reaches env d b s s' :
  run (dispatch env (transfer env d)) b s = Ok s' -> rtc step s s'.
Proof.
  revert s. induction b as [| |from m k IH]; intros s H; cbn [run] in H.
  - inv_ok. subst. apply rtc_refl.
  - discriminate.
  - destruct (dispatch env (transfer env d) from m s) as [s1|e] eqn:Hm.
    + eapply rtc_l; [|eapply IH; exact H]. left. exists env, d, from, m. exact Hm.
    + eapply IH; exact H.
Qed.

(** The withdrawal to a receiver that accepts: one nested call suffices, the
    caller is paid its balance, and the total withdrawn grows by it. *)
Lemma withdraw_pays env d caller s :
  0 < balanceOf s caller ->
  balanceOf s caller <= selfBalance s ->
  totalWithdrawn s + balanceOf s caller <= MAX_UINT256 ->
  caller <> this env ->
  code env d caller = Accept ->
  exec env (S d) caller Withdraw s
  = Ok (emit (FundsWithdrawn caller (balanceOf s caller))
          (setTotalWithdrawn (totalWithdrawn s + balanceOf s caller)
             (setSelfBalance (selfBalance s - balanceOf s caller)
                (setBalance caller 0 s)))).
Proof.
  intros Hb Hheld Hroom Hself Hcode.
  unfold exec, dispatch. cbn [wf_msg require mbind result_bind bind].
  unfold withdraw, withdraw_effects.
  rewrite require_ok by (apply Z.ltb_lt; exact Hb).
  cbn [mbind result_bind bind transfer].
  change (selfBalance (setBalance caller 0 s)) with (selfBalance s).
  rewrite (proj2 (Z.ltb_ge _ _) Hheld).
  rewrite (proj2 (Z.eqb_neq _ _) Hself), Hcode.
  cbn [run require mbind result_bind bind]. unfold add256.
  change (totalWithdrawn (setSelfBalance _ (setBalance caller 0 s)))
    with (totalWithdrawn s).
  rewrite (proj2 (Z.leb_le _ _) Hroom). reflexivity.
Qed.



(** The hostile receiver in action. Its re-entrant call fails; when it
    ignores the failure the withdrawal goes through and it is paid its
    balance once; when it reverts on the failure the transfer fails and the
    withdrawal is rolled back. *)
Example hostile_receiver_paid_once :
  balanceOf Scenarios.owingHostile 66 = 25000000000000 /\
  (s' ← exec (Scenarios.hostile false) 8 66 Withdraw Scenarios.owingHostile;
   Ok (balanceOf s' 66,
       selfBalance Scenarios.owingHostile - selfBalance s',
       totalWithdrawn s'))
  = Ok (0, 25000000000000, 25000000000000).
Proof. split; vm_compute; reflexivity. Qed.

Example hostile_receiver_rolled_back :
  exec (Scenarios.hostile true) 8 66 Withdraw Scenarios.owingHostile
  = Err TransferFailed /\
  balanceOf
    (commit Scenarios.owingHostile
       (exec (Scenarios.hostile true) 8 66 Withdraw Scenarios.owingHostile)) 66
  = 25000000000000.
Proof. split; vm_compute; reflexivity. Qed.

End PayoutManagerProofs.
(** ** The claims processor *)

Module ClaimsProcessorProofs.
Import ClaimsProcessor ResultFacts.

(** *** How a call changes the claims *)

Lemma claimAt_updClaim (id : Z) (f : Claim -> Claim) (s : State) (c : Z) :
  claimAt (updClaim id f s) c
  = if decide (id = c) then f (claimAt s c) else claimAt s c.
Proof.
  unfold updClaim, setClaims, claimAt at 1. cbn [claims].
  destruct (decide (id = c)) as [->|Hne].
  - rewrite lookup_insert_eq. reflexivity.
  - rewrite lookup_insert_ne by exact Hne. reflexivity.
Qed.

Lemma claimAt_updClaim_eq (id : Z) (f : Claim -> Claim) (s : State) :
  claimAt (updClaim id f s) id = f (claimAt s id).
Proof. rewrite claimAt_updClaim. destruct (decide (id = id)); congruence. Qed.

Lemma claimAt_updClaim_ne (id : Z) (f : Claim -> Claim) (s : State) (c : Z) :
  id <> c -> claimAt (updClaim id f s) c = claimAt s c.
Proof. intros H. rewrite claimAt_updClaim. destruct (decide (id = c)); congruence. Qed.

Lemma touches_only_refl id s : touches_only id s s.
Proof. repeat split. Qed.

Lemma touches_only_trans id s1 s2 s3 :
  touches_only id s1 s2 -> touches_only id s2 s3 -> touches_only id s1 s3.
Proof.
  intros (H1 & H2 & H3) (H4 & H5 & H6). repeat split; try congruence.
  intros c Hc. rewrite H4, H1; auto.
Qed.

Lemma touches_only_updClaim id f s : touches_only id s (updClaim id f s).
Proof.
  repeat split. intros c Hc. apply claimAt_updClaim_ne. congruence.
Qed.

Lemma touches_only_setRequest id q c s : touches_only id s (setRequest q c s).
Proof. repeat split. Qed.

Lemma approveClaim_touches env id p w w' :
  _approveClaim env id p w = Ok w' -> touches_only id (cp w) (cp w').
Proof.
  unfold _approveClaim. intros H.
  destruct (payoutManager _ =? 0).
  - inv_ok. subst w'. apply touches_only_updClaim.
  - inv_ok. subst w'. cbn [cp].
    eapply touches_only_trans; apply touches_only_updClaim.
Qed.

Lemma requestRandomReviewer_touches env id s s' :
  _requestRandomReviewer env id s = Ok s' -> touches_only id s s'.
Proof.
  unfold _requestRandomReviewer. intros H. inv_ok.
  destruct (requestId env); inv_ok; subst s'.
  eapply touches_only_trans;
    [apply touches_only_updClaim | apply touches_only_setRequest].
Qed.

Lemma submitAIAnalysis_touches env sender id ty sev fraud p w w' :
  submitAIAnalysis env sender id ty sev fraud p w = Ok w' ->
  status (claimAt (cp w) id) = Submitted /\ touches_only id (cp w) (cp w').
Proof.
  unfold submitAIAnalysis. intros H. inv_ok.
  match goal with
  | Hs : bool_decide _ = true |- _ => apply bool_decide_eq_true in Hs
  end.
  split; [assumption|].
  destruct (_ && _).
  - apply approveClaim_touches in H. cbn [cp setCp] in H.
    eapply touches_only_trans; [|exact H].
    apply touches_only_updClaim.
  - destruct (_ <? _).
    + inv_ok. subst w'. cbn [cp setCp].
      eapply touches_only_trans; apply touches_only_updClaim.
    + inv_ok. subst w'. cbn [cp setCp].
      match goal with
      | Hr : _requestRandomReviewer _ _ _ = Ok _ |- _ =>
          apply requestRandomReviewer_touches in Hr
      end.
      eapply touches_only_trans; [|eassumption].
      eapply touches_only_trans; apply touches_only_updClaim.
Qed.

Lemma reviewerApproveClaim_touches env sender id p w w' :
  reviewerApproveClaim env sender id p w = Ok w' ->
  status (claimAt (cp w) id) = UnderReview /\
  isReviewer (cp w) sender = true /\
  assignedReviewer (claimAt (cp w) id) = sender /\
  touches_only id (cp w) (cp w').
Proof.
  unfold reviewerApproveClaim. intros H. inv_ok.
  match goal with
  | Hs : bool_decide _ = true |- _ => apply bool_decide_eq_true in Hs
  end.
  repeat (split; [assumption|]).
  eapply approveClaim_touches, H.
Qed.

Lemma reviewerRejectClaim_touches env sender id reason w w' :
  reviewerRejectClaim env sender id reason w = Ok w' ->
  status (claimAt (cp w) id) = UnderReview /\
  isReviewer (cp w) sender = true /\
  assignedReviewer (claimAt (cp w) id) = sender /\
  touches_only id (cp w) (cp w').
Proof.
  unfold reviewerRejectClaim. intros H. inv_ok.
  match goal with
  | Hs : bool_decide _ = true |- _ => apply bool_decide_eq_true in Hs
  end.
  repeat (split; [assumption|]).
  subst w'. apply touches_only_updClaim.
Qed.

Lemma fulfillRandomWords_inv q ws s s' :
  fulfillRandomWords q ws s = Ok s' ->
  0 < requestClaim s q /\
  exists r, selectReviewer s ws = Ok r /\
    s' = updClaim (requestClaim s q) (withReviewer r) s.
Proof.
  unfold fulfillRandomWords. intros H. inv_ok.
  subst s'. split; [assumption|]. eauto.
Qed.

Lemma rawFulfillRandomWords_inv sender q ws s s' :
  rawFulfillRandomWords sender q ws s = Ok s' ->
  sender = vrfCoordinator s /\ 0 < requestClaim s q /\
  exists r, selectReviewer s ws = Ok r /\
    s' = updClaim (requestClaim s q) (withReviewer r) s.
Proof.
  unfold rawFulfillRandomWords. intros H. inv_ok.
  split; [assumption|]. apply fulfillRandomWords_inv. assumption.
Qed.

Lemma isReviewer_insert_other (m : gmap Z bool) (a r : address) (b : bool) :
  a <> r -> default false (<[a := b]> m !! r) = default false (m !! r).
Proof. intros H. rewrite lookup_insert_ne by exact H. reflexivity. Qed.

Lemma exec_effect env sender m w w' :
  exec env sender m w = Ok w' ->
  nextClaimId (cp w) <= nextClaimId (cp w') /\
  (forall r, m <> AddReviewer r -> isReviewer (cp w) r = false ->
     isReviewer (cp w') r = false) /\
  (forall c, c < nextClaimId (cp w) ->
     claimAt (cp w') c = claimAt (cp w) c \/
     status (claimAt (cp w) c) = Submitted \/
     (status (claimAt (cp w) c) = UnderReview /\
      isReviewer (cp w) sender = true /\
      assignedReviewer (claimAt (cp w) c) = sender) \/
     (exists q ws r, m = RawFulfillRandomWords q ws /\
        requestClaim (cp w) q = c /\
        claimAt (cp w') c = withReviewer r (claimAt (cp w) c))).
Proof.
  unfold exec. intros H. inv_ok.
  match goal with Hwf : wf_msg _ = true |- _ => clear Hwf end.
  destruct m.
  - (* setPayoutManager *)
    unfold onCp, setPayoutManager in H. inv_ok. subst.
    cbn. split; [lia|]. split; auto.
  - unfold onCp, setAIOracle in H. inv_ok. subst.
    cbn. split; [lia|]. split; auto.
  - (* addReviewer *)
    unfold onCp, addReviewer in H. inv_ok. subst.
    cbn. split; [lia|]. split; [|auto].
    intros r Hr Hf. unfold isReviewer, setReviewers in *. cbn [reviewers].
    rewrite isReviewer_insert_other by congruence. exact Hf.
  - (* removeReviewer *)
    unfold onCp, removeReviewer in H. inv_ok. subst.
    cbn. split; [lia|]. split; [|auto].
    intros r Hr Hf. unfold isReviewer, setReviewers in *. cbn [reviewers].
    destruct (decide (_reviewer = r)) as [->|Hne].
    + rewrite lookup_insert_eq. reflexivity.
    + rewrite isReviewer_insert_other by exact Hne. exact Hf.
  - unfold onCp, setThresholds in H. inv_ok. subst.
    cbn. split; [lia|]. split; auto.
  - (* submitClaim *)
    unfold submitClaim in H. inv_ok.
    match goal with x : (Z * World)%type |- _ => destruct x as [id w1] end.
    inv_ok. subst. cbn [cp]. split; [cbn; lia|]. split; [auto|].
    intros c Hc. left.
    unfold claimAt, setClaims. cbn [claims].
    rewrite lookup_insert_ne by lia. reflexivity.
  - (* submitAIAnalysis *)
    apply submitAIAnalysis_touches in H. destruct H as (Hst & Hc & Hn & Hr).
    split; [lia|]. split.
    + intros r _ Hf. unfold isReviewer in *. rewrite Hr. exact Hf.
    + intros c _. destruct (decide (c = _claimId)) as [->|Hne]; auto 10.
  - apply reviewerApproveClaim_touches in H.
    destruct H as (Hst & Hrev & Has & Hc & Hn & Hr).
    split; [lia|]. split.
    + intros r _ Hf. unfold isReviewer in *. rewrite Hr. exact Hf.
    + intros c _. destruct (decide (c = _claimId)) as [->|Hne]; auto 10.
  - apply reviewerRejectClaim_touches in H.
    destruct H as (Hst & Hrev & Has & Hc & Hn & Hr).
    split; [lia|]. split.
    + intros r _ Hf. unfold isReviewer in *. rewrite Hr. exact Hf.
    + intros c _. destruct (decide (c = _claimId)) as [->|Hne]; auto 10.
  - (* rawFulfillRandomWords *)
    unfold onCp in H. inv_ok. subst w'.
    match goal with
    | Hf : rawFulfillRandomWords _ _ _ _ = Ok _ |- _ =>
        apply rawFulfillRandomWords_inv in Hf;
        destruct Hf as (_ & _ & r & _ & ->)
    end.
    cbn [cp setCp]. split; [cbn; lia|]. split; [auto|].
    intros c _. destruct (decide (requestClaim (cp w) _requestId = c)) as [Hq|Hq].
    + right. right. right. exists _requestId, randomWords, r.
      split; [reflexivity|]. split; [exact Hq|].
      rewrite Hq. apply claimAt_updClaim_eq.
    + left. apply claimAt_updClaim_ne. exact Hq.
Qed.

(** *** Routing by thresholds *)

(** The three branches of [submitAIAnalysis], in the order of the code, for
    any thresholds. *)
Lemma submitAIAnalysis_route env c ty sev fraud p w :
  status (claimAt (cp w) c) = Submitted ->
  let s1 := recordAnalysis c ty sev fraud p (cp w) in
  submitAIAnalysis env (aiOracle (cp w)) c ty sev fraud p w =
    if (fraud <? autoApproveThreshold (cp w)) && (0 <? p)
    then _approveClaim env c p (setCp s1 w)
    else if autoRejectThreshold (cp w) <? fraud
    then Ok (setCp (updClaim c (fun x => withProcessedAt (now env)
                                           (withStatus Rejected x)) s1) w)
    else s2 ← _requestRandomReviewer env c
                (updClaim c (withHumanReview true) s1);
         Ok (setCp s2 w).
Proof.
  intros Hst s1. unfold submitAIAnalysis.
  rewrite Z.eqb_refl. cbn [require mbind result_bind bind].
  rewrite bool_decide_eq_true_2 by exact Hst. reflexivity.
Qed.

Lemma approveClaim_outcome env c p w w' :
  _approveClaim env c p w = Ok w' ->
  (status (claimAt (cp w') c) = Approved \/ status (claimAt (cp w') c) = Paid) /\
  (status (claimAt (cp w') c) = Paid <-> payoutManager (cp w) <> 0) /\
  finalPayout (claimAt (cp w') c) = p /\
  processedAt (claimAt (cp w') c) = now env.
Proof.
  unfold _approveClaim. intros H.
  destruct (Z.eqb_spec
              (payoutManager
                 (updClaim c (fun x => withProcessedAt (now env)
                                (withFinalPayout p (withStatus Approved x)))
                    (cp w))) 0) as [He|Hne].
  - inv_ok. subst w'. cbn [cp setCp]. rewrite claimAt_updClaim_eq.
    cbn. repeat split; auto; try discriminate. intros Hc. exfalso. apply Hc, He.
  - inv_ok. subst w'. cbn [cp]. rewrite !claimAt_updClaim_eq.
    cbn. repeat split; auto.
Qed.

Lemma approveClaim_unfunded env c p w :
  payoutManager (cp w) = 0 ->
  _approveClaim env c p w
  = Ok (setCp (updClaim c (fun x => withProcessedAt (now env)
                             (withFinalPayout p (withStatus Approved x)))
                 (cp w)) w).
Proof.
  intros H. unfold _approveClaim.
  change (payoutManager (updClaim _ _ (cp w))) with (payoutManager (cp w)).
  rewrite H. reflexivity.
Qed.

Lemma approveClaim_funded env c p w man reg :
  payoutManager (cp w) <> 0 ->
  PayoutManager.processPayout (managerEnv env w) (self env) c
    (claimant (claimAt (cp w) c)) p (manager w) = Ok man ->
  PolicyRegistry.recordPayout (self env) (policyId (claimAt (cp w) c)) p
    (registry w) = Ok reg ->
  _approveClaim env c p w
  = Ok (mkWorld
          (updClaim c (withStatus Paid)
             (updClaim c (fun x => withProcessedAt (now env)
                            (withFinalPayout p (withStatus Approved x)))
                (cp w))) reg man).
Proof.
  intros Hpm Hman Hreg. unfold _approveClaim.
  change (payoutManager (updClaim _ _ (cp w))) with (payoutManager (cp w)).
  rewrite (proj2 (Z.eqb_neq _ _) Hpm).
  rewrite claimAt_updClaim_eq.
  change (claimant (withProcessedAt _ (withFinalPayout _ (withStatus _ ?x))))
    with (claimant x).
  change (policyId (withProcessedAt _ (withFinalPayout _ (withStatus _ ?x))))
    with (policyId x).
  rewrite Hman. cbn [mbind result_bind bind]. rewrite Hreg. reflexivity.
Qed.

(** C5: with the thresholds 20 and 70, [submitAIAnalysis] by the oracle on a
    [Submitted] claim routes as follows. A fraud risk of 19 with a positive
    recommended payout goes to the approval routine: whenever the call
    returns, the claim is [Approved] or [Paid] with the recommended payout as
    its final payout, and without a payout manager it returns with the claim
    [Approved]. A fraud risk of 70 goes to human review, not to rejection:
    whenever the call returns the claim is [UnderReview] with
    [requiresHumanReview] set, and it returns when a reviewer is active and
    the coordinator answers the request. A fraud risk of 71 is rejected.
    Whatever the thresholds, the approval check comes first, the rejection
    check second, and human review last. *)
Theorem threshold_routing (env : Env) (w : World) (c ty sev p : Z) :
  autoApproveThreshold (cp w) = 20 ->
  autoRejectThreshold (cp w) = 70 ->
  status (claimAt (cp w) c) = Submitted ->
  let oracle := aiOracle (cp w) in
  let analysed := fun fraud => recordAnalysis c ty sev fraud p (cp w) in
  (* 19, with a positive recommended payout: the approval routine *)
  (0 < p ->
   submitAIAnalysis env oracle c ty sev 19 p w
   = _approveClaim env c p (setCp (analysed 19) w) /\
   (forall w', submitAIAnalysis env oracle c ty sev 19 p w = Ok w' ->
      (status (claimAt (cp w') c) = Approved \/
       status (claimAt (cp w') c) = Paid) /\
      finalPayout (claimAt (cp w') c) = p /\
      requiresHumanReview (claimAt (cp w') c)
      = requiresHumanReview (claimAt (cp w) c)) /\
   (payoutManager (cp w) = 0 ->
    exists w', submitAIAnalysis env oracle c ty sev 19 p w = Ok w' /\
      status (claimAt (cp w') c) = Approved /\
      finalPayout (claimAt (cp w') c) = p) /\
   (payoutManager (cp w) <> 0 -> forall man reg,
    PayoutManager.processPayout (managerEnv env w) (self env) c
      (claimant (claimAt (cp w) c)) p (manager w) = Ok man ->
    PolicyRegistry.recordPayout (self env) (policyId (claimAt (cp w) c)) p
      (registry w) = Ok reg ->
    exists w', submitAIAnalysis env oracle c ty sev 19 p w = Ok w' /\
      status (claimAt (cp w') c) = Paid /\
      finalPayout (claimAt (cp w') c) = p /\
      manager w' = man /\ registry w' = reg)) /\
  (* 70: human review, not rejection *)
  (submitAIAnalysis env oracle c ty sev 70 p w
   = (s2 ← _requestRandomReviewer env c
              (updClaim c (withHumanReview true) (analysed 70));
      Ok (setCp s2 w)) /\
   (forall w', submitAIAnalysis env oracle c ty sev 70 p w = Ok w' ->
      status (claimAt (cp w') c) = UnderReview /\
      requiresHumanReview (claimAt (cp w') c) = true) /\
   (activeReviewers (cp w) <> [] -> forall q, requestId env = Some q ->
    exists w', submitAIAnalysis env oracle c ty sev 70 p w = Ok w' /\
      status (claimAt (cp w') c) = UnderReview /\
      requiresHumanReview (claimAt (cp w') c) = true /\
      requestClaim (cp w') q = c)) /\
  (* 71: rejection *)
  (exists w', submitAIAnalysis env oracle c ty sev 71 p w = Ok w' /\
     status (claimAt (cp w') c) = Rejected /\
     processedAt (claimAt (cp w') c) = now env /\
     requiresHumanReview (claimAt (cp w') c)
     = requiresHumanReview (claimAt (cp w) c)) /\
  (* the order of the checks, whatever the thresholds *)
  (forall w2 fraud,
     status (claimAt (cp w2) c) = Submitted ->
     let s1 := recordAnalysis c ty sev fraud p (cp w2) in
     submitAIAnalysis env (aiOracle (cp w2)) c ty sev fraud p w2 =
       if (fraud <? autoApproveThreshold (cp w2)) && (0 <? p)
       then _approveClaim env c p (setCp s1 w2)
       else if autoRejectThreshold (cp w2) <? fraud
       then Ok (setCp (updClaim c (fun x => withProcessedAt (now env)
                                              (withStatus Rejected x)) s1) w2)
       else s2 ← _requestRandomReviewer env c
                   (updClaim c (withHumanReview true) s1);
            Ok (setCp s2 w2)).
Proof.
  intros Ha Hr Hst oracle analysed.
  assert (Hroute := fun fraud => submitAIAnalysis_route env c ty sev fraud p w Hst).
  cbv zeta in Hroute. rewrite Ha, Hr in Hroute. fold oracle in Hroute.
  split; [|split; [|split]].
  - intros Hp.
    assert (H19 : submitAIAnalysis env oracle c ty sev 19 p w
                  = _approveClaim env c p (setCp (analysed 19) w)).
    { rewrite Hroute. rewrite (proj2 (Z.ltb_lt 0 p) Hp). reflexivity. }
    split; [exact H19|]. split.
    + intros w' Hok. rewrite H19 in Hok.
      destruct (approveClaim_outcome _ _ _ _ _ Hok) as (Hs & _ & Hf & _).
      split; [exact Hs|]. split; [exact Hf|].
      unfold _approveClaim in Hok.
      destruct (payoutManager _ =? 0); inv_ok; subst w'; cbn [cp setCp];
        unfold analysed, recordAnalysis;
        rewrite !claimAt_updClaim_eq; reflexivity.
    + split.
      * intros Hpm. rewrite H19, approveClaim_unfunded by exact Hpm.
        eexists. split; [reflexivity|]. cbn [cp setCp].
        rewrite claimAt_updClaim_eq. split; reflexivity.
      * intros Hpm man reg Hman Hreg.
        rewrite H19, (approveClaim_funded env c p _ man reg).
        -- eexists. split; [reflexivity|]. cbn [cp setCp].
           rewrite !claimAt_updClaim_eq. repeat split.
        -- exact Hpm.
        -- unfold analysed, recordAnalysis. cbn [cp setCp].
           rewrite claimAt_updClaim_eq. exact Hman.
        -- unfold analysed, recordAnalysis. cbn [cp setCp].
           rewrite claimAt_updClaim_eq. exact Hreg.
  - assert (H70 : submitAIAnalysis env oracle c ty sev 70 p w
                  = (s2 ← _requestRandomReviewer env c
                             (updClaim c (withHumanReview true) (analysed 70));
                     Ok (setCp s2 w))).
    { rewrite Hroute. reflexivity. }
    split; [exact H70|]. split.
    + intros w' Hok. rewrite H70 in Hok. inv_ok. subst w'.
      unfold _requestRandomReviewer in *. inv_ok.
      destruct (requestId env); inv_ok.
      match goal with Hx : setRequest _ _ _ = _ |- _ => rewrite <- Hx end.
      cbn [cp setCp]. unfold analysed, recordAnalysis.
      change (claimAt (setRequest ?q ?i ?s) c) with (claimAt s c).
      rewrite !claimAt_updClaim_eq. split; reflexivity.
    + intros Hrev q Hq. rewrite H70. unfold _requestRandomReviewer.
      rewrite require_ok.
      2:{ apply Z.ltb_lt.
          change (activeReviewers (updClaim _ _ (analysed 70)))
            with (activeReviewers (cp w)).
          destruct (activeReviewers (cp w)); [congruence | cbn; lia]. }
      cbn [mbind result_bind bind]. rewrite Hq.
      eexists. split; [reflexivity|]. cbn [cp setCp].
      change (claimAt (setRequest ?q ?i ?s) c) with (claimAt s c).
      unfold analysed, recordAnalysis. rewrite !claimAt_updClaim_eq.
      repeat split.
      unfold requestClaim, setRequest. cbn [vrfRequestToClaim].
      rewrite lookup_insert_eq. reflexivity.
  - eexists. split; [rewrite Hroute; reflexivity|].
    cbn [cp setCp]. unfold recordAnalysis. rewrite !claimAt_updClaim_eq.
    repeat split.
  - intros w2 fraud Hst2. apply submitAIAnalysis_route. exact Hst2.
Qed.

Lemma threshold_routing_witness :
  (exists w',
     submitAIAnalysis Scenarios.chain (aiOracle (cp Scenarios.submittedWorld))
       1 0 5 19 1000000 Scenarios.submittedWorld = Ok w' /\
     status (claimAt (cp w') 1) = Approved) /\
  (exists w',
     submitAIAnalysis Scenarios.chain (aiOracle (cp Scenarios.submittedWorld))
       1 0 5 70 1000000 Scenarios.submittedWorld = Ok w' /\
     status (claimAt (cp w') 1) = UnderReview) /\
  (exists w',
     submitAIAnalysis Scenarios.chain (aiOracle (cp Scenarios.submittedWorld))
       1 0 5 71 1000000 Scenarios.submittedWorld = Ok w' /\
     status (claimAt (cp w') 1) = Rejected).
Proof.
  assert (Ha : autoApproveThreshold (cp Scenarios.submittedWorld) = 20)
    by (vm_compute; reflexivity).
  assert (Hr : autoRejectThreshold (cp Scenarios.submittedWorld) = 70)
    by (vm_compute; reflexivity).
  assert (Hst : status (claimAt (cp Scenarios.submittedWorld) 1) = Submitted)
    by (vm_compute; reflexivity).
  pose proof (threshold_routing Scenarios.chain Scenarios.submittedWorld
                1 0 5 1000000 Ha Hr Hst) as H.
  cbv zeta in H. destruct H as (H19 & H70 & H71 & _).
  split; [|split].
  - destruct H19 as (_ & _ & Hunfunded & _); [lia|].
    destruct Hunfunded as (w' & Hok & Hs & _); [vm_compute; reflexivity|].
    exists w'. split; assumption.
  - destruct H70 as (_ & _ & Hreview).
    destruct (Hreview ltac:(vm_compute; discriminate) 77 eq_refl)
      as (w' & Hok & Hs & _).
    exists w'. split; assumption.
  - destruct H71 as (w' & Hok & Hs & _). exists w'. split; assumption.
Defined.

(** With the payout manager set, the analysis with a fraud risk of 19 pays
    the claim at once: the claim is [Paid], the payout of 1_000_000 is
    recorded, and the claimant can withdraw the converted amount. *)
Example wired_auto_approval_pays :
  (w' ← submitAIAnalysis Scenarios.chain 1 1 0 5 19 1000000 Scenarios.wiredWorld;
   Ok (status (claimAt (cp w') 1),
       PayoutManager.usdAmount (PayoutManager.payoutAt (manager w') 1),
       PayoutManager.balanceOf (manager w') 7,
       PolicyRegistry.totalPayouts (PolicyRegistry.policyAt (registry w') 1)))
  = Ok (Paid, 1000000, 5000000000000, 1000000).
Proof. vm_compute. reflexivity. Qed.

(** *** Terminal claims *)

Lemma submitAIAnalysis_not_submitted env sender c ty sev fraud p w :
  status (claimAt (cp w) c) <> Submitted ->
  submitAIAnalysis env sender c ty sev fraud p w
  = Err (if sender =? aiOracle (cp w) then InvalidStatus else OnlyAIOracle).
Proof.
  intros Hst. unfold submitAIAnalysis.
  destruct (sender =? aiOracle (cp w)); [|reflexivity].
  cbn [require mbind result_bind bind].
  rewrite bool_decide_eq_false_2 by exact Hst. reflexivity.
Qed.

Lemma reviewerApproveClaim_not_under_review env sender c p w :
  status (claimAt (cp w) c) <> UnderReview ->
  reviewerApproveClaim env sender c p w
  = Err (if isReviewer (cp w) sender then InvalidStatus else OnlyReviewer).
Proof.
  intros Hst. unfold reviewerApproveClaim.
  destruct (isReviewer (cp w) sender); [|reflexivity].
  cbn [require mbind result_bind bind].
  rewrite bool_decide_eq_false_2 by exact Hst. reflexivity.
Qed.

Lemma reviewerRejectClaim_not_under_review env sender c reason w :
  status (claimAt (cp w) c) <> UnderReview ->
  reviewerRejectClaim env sender c reason w
  = Err (if isReviewer (cp w) sender then InvalidStatus else OnlyReviewer).
Proof.
  intros Hst. unfold reviewerRejectClaim.
  destruct (isReviewer (cp w) sender); [|reflexivity].
  cbn [require mbind result_bind bind].
  rewrite bool_decide_eq_false_2 by exact Hst. reflexivity.
Qed.

Lemma step_terminal (w w' : World) (c : Z) :
  step w w' ->
  c < nextClaimId (cp w) ->
  status (claimAt (cp w) c) = Rejected \/ status (claimAt (cp w) c) = Paid ->
  withReviewer 0 (claimAt (cp w') c) = withReviewer 0 (claimAt (cp w) c) /\
  c < nextClaimId (cp w').
Proof.
  intros Hstep Hc Hterm. destruct Hstep as [env sender m w w' Hexec | w reg man].
  - destruct (exec_effect _ _ _ _ _ Hexec) as (Hnext & _ & Hclaim).
    split; [|lia].
    destruct (Hclaim c Hc) as [-> | [Hs | [(Hs & _) | (q & ws & r & _ & _ & ->)]]].
    + reflexivity.
    + destruct Hterm; congruence.
    + destruct Hterm; congruence.
    + reflexivity.
  - cbn [cp]. auto.
Qed.

Lemma steps_terminal (w w' : World) (c : Z) :
  rtc step w w' ->
  c < nextClaimId (cp w) ->
  status (claimAt (cp w) c) = Rejected \/ status (claimAt (cp w) c) = Paid ->
  withReviewer 0 (claimAt (cp w') c) = withReviewer 0 (claimAt (cp w) c) /\
  c < nextClaimId (cp w').
Proof.
  intros Hsteps Hc Hterm.
  apply (rtc_ind_r (R := step)
           (fun w' =>
              withReviewer 0 (claimAt (cp w') c)
              = withReviewer 0 (claimAt (cp w) c) /\ c < nextClaimId (cp w'))
           w); [auto | | exact Hsteps].
  intros w1 w2 _ Hstep [Hsame Hlt].
  assert (Hst : status (claimAt (cp w1) c) = status (claimAt (cp w) c))
    by exact (f_equal status Hsame).
  destruct (step_terminal w1 w2 c Hstep Hlt) as [Hsame' Hlt'].
  { rewrite Hst. exact Hterm. }
  split; [congruence | exact Hlt'].
Qed.

(** C7, as the code has it: once a claim that [submitClaim] created is
    [Rejected] or [Paid],
    then in every later state its status is the same and every field of its
    record but [assignedReviewer] is the same; [submitAIAnalysis] fails, with
    the status error for the oracle and the role error for anyone else;
    [reviewerApproveClaim] and [reviewerRejectClaim] fail, with the status
    error for a registered reviewer and the role error for anyone else. *)
Theorem terminal_claim_frozen (w : World) (c : Z) :
  status (claimAt (cp w) c) = Rejected \/ status (claimAt (cp w) c) = Paid ->
  c < nextClaimId (cp w) ->
  forall w', rtc step w w' ->
    withReviewer 0 (claimAt (cp w') c) = withReviewer 0 (claimAt (cp w) c) /\
    status (claimAt (cp w') c) = status (claimAt (cp w) c) /\
    (forall env sender ty sev fraud p,
       submitAIAnalysis env sender c ty sev fraud p w'
       = Err (if sender =? aiOracle (cp w') then InvalidStatus
              else OnlyAIOracle)) /\
    (forall env sender p,
       reviewerApproveClaim env sender c p w'
       = Err (if isReviewer (cp w') sender then InvalidStatus
              else OnlyReviewer)) /\
    (forall env sender reason,
       reviewerRejectClaim env sender c reason w'
       = Err (if isReviewer (cp w') sender then InvalidStatus
              else OnlyReviewer)).
Proof.
  intros Hterm Hc w' Hsteps.
  destruct (steps_terminal w w' c Hsteps Hc Hterm) as [Hsame _].
  assert (Hst : status (claimAt (cp w') c) = status (claimAt (cp w) c))
    by exact (f_equal status Hsame).
  split; [exact Hsame|]. split; [exact Hst|].
  split; [|split]; intros.
  - apply submitAIAnalysis_not_submitted. destruct Hterm; congruence.
  - apply reviewerApproveClaim_not_under_review. destruct Hterm; congruence.
  - apply reviewerRejectClaim_not_under_review. destruct Hterm; congruence.
Qed.

Lemma worldAfter_reaches calls w : rtc step w (Scenarios.worldAfter calls w).
Proof.
  revert w. induction calls as [|[sender m] rest IH]; intros w;
    cbn [Scenarios.worldAfter]; [apply rtc_refl|].
  destruct (exec Scenarios.chain sender m w) as [w'|e] eqn:He; cbn [commit].
  - eapply rtc_l; [|apply IH]. eapply step_call. exact He.
  - apply IH.
Defined.

Lemma terminal_claim_frozen_witness :
  status (claimAt (cp Scenarios.rejectedReassignedWorld) 1) = Rejected /\
  reviewerApproveClaim Scenarios.chain 12 1 1000000
    Scenarios.rejectedReassignedWorld = Err InvalidStatus.
Proof.
  assert (Hrej : status (claimAt (cp Scenarios.rejectedWorld) 1) = Rejected)
    by (vm_compute; reflexivity).
  assert (Hlt : 1 < nextClaimId (cp Scenarios.rejectedWorld))
    by (vm_compute; reflexivity).
  destruct (terminal_claim_frozen Scenarios.rejectedWorld 1 (or_introl Hrej) Hlt
              Scenarios.rejectedReassignedWorld (worldAfter_reaches _ _))
    as (_ & Hst & _ & Happrove & _).
  split.
  - rewrite Hst. exact Hrej.
  - rewrite (Happrove Scenarios.chain 12 1000000).
    vm_compute. reflexivity.
Defined.

(** C7 as stated fails on the record: the claim 1 is [Rejected], and a
    further fulfilment of its request replaces its assigned reviewer 11 by
    the reviewer 12. *)
Lemma rejected_claim_reassigned :
  rtc step Scenarios.world0 Scenarios.rejectedWorld /\
  status (claimAt (cp Scenarios.rejectedWorld) 1) = Rejected /\
  exec Scenarios.chain 400 (RawFulfillRandomWords 77 [1]) Scenarios.rejectedWorld
  = Ok Scenarios.rejectedReassignedWorld /\
  assignedReviewer (claimAt (cp Scenarios.rejectedWorld) 1) = 11 /\
  assignedReviewer (claimAt (cp Scenarios.rejectedReassignedWorld) 1) = 12 /\
  claimAt (cp Scenarios.rejectedReassignedWorld) 1
  <> claimAt (cp Scenarios.rejectedWorld) 1.
Proof.
  split.
  { unfold Scenarios.rejectedWorld, Scenarios.assignedWorld, Scenarios.reviewWorld.
    etrans; [apply worldAfter_reaches|].
    etrans; [apply worldAfter_reaches|]. apply worldAfter_reaches. }
  assert (H11 : assignedReviewer (claimAt (cp Scenarios.rejectedWorld) 1) = 11)
    by (vm_compute; reflexivity).
  assert (H12 : assignedReviewer
                  (claimAt (cp Scenarios.rejectedReassignedWorld) 1) = 12)
    by (vm_compute; reflexivity).
  split; [vm_compute; reflexivity|].
  split; [vm_compute; reflexivity|].
  split; [exact H11|]. split; [exact H12|].
  intros Heq. rewrite Heq, H11 in H12. discriminate H12.
Qed.

(** Why the claim has to be one that [submitClaim] created: an id that was
    never assigned reads as a [Submitted] claim, the oracle can have it
    rejected, and the claim that later gets the id starts afresh. *)
Example phantom_claim_overwritten :
  nextClaimId (cp Scenarios.phantomWorld) = 1 /\
  status (claimAt (cp Scenarios.phantomWorld) 1) = Rejected /\
  status (claimAt (cp Scenarios.phantomOverwrittenWorld) 1) = Submitted.
Proof. vm_compute. repeat split. Qed.

(** *** Randomness fulfilment *)

Lemma updClaim_twice (id : Z) (f g : Claim -> Claim) (s : State) :
  updClaim id g (updClaim id f s) = updClaim id (fun c => g (f c)) s.
Proof.
  unfold updClaim at 1. rewrite claimAt_updClaim_eq.
  unfold updClaim, setClaims. cbn [claims vrfRequestToClaim reviewers
    activeReviewers nextClaimId vrfCoordinator policyRegistry payoutManager
    aiOracle admin autoApproveThreshold autoRejectThreshold].
  rewrite insert_insert_eq. reflexivity.
Qed.

Lemma fulfillRandomWords_ok q ws s r :
  0 < requestClaim s q ->
  selectReviewer s ws = Ok r ->
  fulfillRandomWords q ws s
  = Ok (updClaim (requestClaim s q) (withReviewer r) s).
Proof.
  intros Hq Hsel. unfold fulfillRandomWords.
  rewrite (proj2 (Z.ltb_lt _ _) Hq). cbn [require mbind result_bind bind].
  rewrite Hsel. reflexivity.
Qed.

(** C9, as the code has it: after a fulfilment for a request id has assigned
    a reviewer to its claim, a second fulfilment with the same request id is
    accepted and runs the selection again. It sets [assignedReviewer] of the
    claim to the reviewer its own random words select and changes nothing
    else; with the random words of the first fulfilment it leaves the state
    as it is. *)
Theorem second_fulfilment_reassigns (q : Z) (ws : list Z) (s s1 : State) :
  fulfillRandomWords q ws s = Ok s1 ->
  let c := requestClaim s q in
  (exists r, selectReviewer s ws = Ok r /\
     assignedReviewer (claimAt s1 c) = r) /\
  (forall ws2 r2, selectReviewer s1 ws2 = Ok r2 ->
     fulfillRandomWords q ws2 s1 = Ok (updClaim c (withReviewer r2) s1)) /\
  (forall ws2 s2, fulfillRandomWords q ws2 s1 = Ok s2 ->
     exists r2, selectReviewer s1 ws2 = Ok r2 /\
       s2 = updClaim c (withReviewer r2) s1 /\
       assignedReviewer (claimAt s2 c) = r2 /\
       withReviewer 0 (claimAt s2 c) = withReviewer 0 (claimAt s1 c)) /\
  fulfillRandomWords q ws s1 = Ok s1.
Proof.
  intros H c. apply fulfillRandomWords_inv in H.
  destruct H as (Hq & r & Hsel & ->). fold c.
  assert (Hq1 : forall f, requestClaim (updClaim c f s) q = c) by reflexivity.
  assert (Hsel1 : forall f ws', selectReviewer (updClaim c f s) ws'
                                = selectReviewer s ws') by reflexivity.
  split; [|split; [|split]].
  - exists r. split; [exact Hsel|]. rewrite claimAt_updClaim_eq. reflexivity.
  - intros ws2 r2 Hsel2.
    rewrite (fulfillRandomWords_ok q ws2 _ r2);
      [rewrite Hq1; reflexivity | rewrite Hq1; exact Hq | exact Hsel2].
  - intros ws2 s2 H2. apply fulfillRandomWords_inv in H2.
    destruct H2 as (_ & r2 & Hsel2 & ->). rewrite Hq1.
    exists r2. split; [exact Hsel2|]. split; [reflexivity|].
    rewrite !claimAt_updClaim_eq. split; reflexivity.
  - rewrite (fulfillRandomWords_ok q ws _ r);
      [| rewrite Hq1; exact Hq | rewrite Hsel1; exact Hsel].
    rewrite Hq1, updClaim_twice. reflexivity.
Qed.

Lemma second_fulfilment_reassigns_witness :
  fulfillRandomWords 77 [1] (cp Scenarios.assignedWorld)
  = Ok (updClaim 1 (withReviewer 12) (cp Scenarios.assignedWorld)) /\
  fulfillRandomWords 77 [0] (cp Scenarios.assignedWorld)
  = Ok (cp Scenarios.assignedWorld).
Proof.
  assert (H : fulfillRandomWords 77 [0] (cp Scenarios.reviewWorld)
              = Ok (cp Scenarios.assignedWorld)) by (vm_compute; reflexivity).
  destruct (second_fulfilment_reassigns 77 [0] (cp Scenarios.reviewWorld)
              (cp Scenarios.assignedWorld) H) as (_ & Hagain & _ & Hsame).
  split; [|exact Hsame].
  apply (Hagain [1] 12). vm_compute. reflexivity.
Defined.

(** C9 as stated fails: the second fulfilment of the request 77 is neither
    rejected nor ignored, it replaces the assigned reviewer 11 by 12. *)
Lemma second_fulfilment_changes_reviewer :
  fulfillRandomWords 77 [0] (cp Scenarios.reviewWorld)
  = Ok (cp Scenarios.assignedWorld) /\
  assignedReviewer (claimAt (cp Scenarios.assignedWorld) 1) = 11 /\
  fulfillRandomWords 77 [1] (cp Scenarios.assignedWorld)
  = Ok (cp Scenarios.reassignedWorld) /\
  exec Scenarios.chain 400 (RawFulfillRandomWords 77 [1]) Scenarios.assignedWorld
  = Ok Scenarios.reassignedWorld /\
  assignedReviewer (claimAt (cp Scenarios.reassignedWorld) 1) = 12 /\
  cp Scenarios.reassignedWorld <> cp Scenarios.assignedWorld.
Proof.
  assert (H11 : assignedReviewer (claimAt (cp Scenarios.assignedWorld) 1) = 11)
    by (vm_compute; reflexivity).
  assert (H12 : assignedReviewer (claimAt (cp Scenarios.reassignedWorld) 1) = 12)
    by (vm_compute; reflexivity).
  split; [vm_compute; reflexivity|]. split; [exact H11|].
  split; [vm_compute; reflexivity|].
  split; [vm_compute; reflexivity|]. split; [exact H12|].
  intros Heq. rewrite Heq, H11 in H12. discriminate H12.
Qed.

(** *** A claim whose reviewer was removed *)

Lemma orphaned_approve env caller c r p w :
  orphaned (cp w) c r ->
  reviewerApproveClaim env caller c p w
  = Err (if isReviewer (cp w) caller then NotAssignedReviewer else OnlyReviewer).
Proof.
  intros (Hst & Has & Hrev). unfold reviewerApproveClaim.
  destruct (isReviewer (cp w) caller) eqn:Hcaller; [|reflexivity].
  cbn [require mbind result_bind bind].
  rewrite bool_decide_eq_true_2 by exact Hst.
  destruct (Z.eqb_spec (assignedReviewer (claimAt (cp w) c)) caller) as [He|];
    [|reflexivity].
  congruence.
Qed.

Lemma orphaned_reject env caller c r reason w :
  orphaned (cp w) c r ->
  reviewerRejectClaim env caller c reason w
  = Err (if isReviewer (cp w) caller then NotAssignedReviewer else OnlyReviewer).
Proof.
  intros (Hst & Has & Hrev). unfold reviewerRejectClaim.
  destruct (isReviewer (cp w) caller) eqn:Hcaller; [|reflexivity].
  cbn [require mbind result_bind bind].
  rewrite bool_decide_eq_true_2 by exact Hst.
  destruct (Z.eqb_spec (assignedReviewer (claimAt (cp w) c)) caller) as [He|];
    [|reflexivity].
  congruence.
Qed.

Lemma removeReviewer_orphans sender r s s1 c :
  status (claimAt s c) = UnderReview ->
  assignedReviewer (claimAt s c) = r ->
  removeReviewer sender r s = Ok s1 ->
  orphaned s1 c r /\ nextClaimId s1 = nextClaimId s.
Proof.
  intros Hst Has H. unfold removeReviewer in H. inv_ok. subst s1.
  split; [|reflexivity]. repeat split; try assumption.
  unfold isReviewer, setReviewers. cbn [reviewers].
  rewrite lookup_insert_eq. reflexivity.
Qed.

Lemma step_without_orphaned (w w' : World) (c : Z) (r : address) :
  step_without c r w w' ->
  c < nextClaimId (cp w) -> orphaned (cp w) c r ->
  orphaned (cp w') c r /\ c < nextClaimId (cp w').
Proof.
  intros Hstep Hc (Hst & Has & Hrev).
  destruct Hstep as [(reg & man & ->) | (env & sender & m & Hexec & Hadd & Hful)].
  - cbn [cp]. repeat split; assumption.
  - destruct (exec_effect _ _ _ _ _ Hexec) as (Hnext & Hkeep & Hclaim).
    split; [|lia].
    assert (Hrev' : isReviewer (cp w') r = false) by (apply Hkeep; assumption).
    destruct (Hclaim c Hc)
      as [Heq | [Hs | [(_ & Hs & Ha) | (q & ws & r' & -> & Hq & _)]]].
    + unfold orphaned. rewrite Heq. repeat split; assumption.
    + congruence.
    + congruence.
    + exfalso. eapply Hful; [reflexivity | exact Hq].
Qed.

(** C10, as the code has it: if a claim that [submitClaim] created is
    [UnderReview] with the assigned reviewer [r] and [r] is removed by
    [removeReviewer], then, as long as [r]
    is not added again and no randomness fulfilment for a request of the
    claim is delivered, the claim stays [UnderReview] and assigned to [r],
    and every call of [reviewerApproveClaim] and [reviewerRejectClaim] on it
    fails: by [r] at the reviewer guard, by a registered reviewer at the
    assigned-reviewer check, by anyone else at the reviewer guard. *)
Theorem removed_reviewer_blocks (w : World) (c : Z) (r sender : address)
    (s1 : State) :
  status (claimAt (cp w) c) = UnderReview ->
  assignedReviewer (claimAt (cp w) c) = r ->
  c < nextClaimId (cp w) ->
  removeReviewer sender r (cp w) = Ok s1 ->
  forall w', rtc (step_without c r) (setCp s1 w) w' ->
    orphaned (cp w') c r /\
    (forall env caller p,
       reviewerApproveClaim env caller c p w'
       = Err (if isReviewer (cp w') caller then NotAssignedReviewer
              else OnlyReviewer)) /\
    (forall env caller reason,
       reviewerRejectClaim env caller c reason w'
       = Err (if isReviewer (cp w') caller then NotAssignedReviewer
              else OnlyReviewer)) /\
    (forall env p, reviewerApproveClaim env r c p w' = Err OnlyReviewer) /\
    (forall env reason, reviewerRejectClaim env r c reason w' = Err OnlyReviewer).
Proof.
  intros Hst Has Hc Hrm w' Hsteps.
  destruct (removeReviewer_orphans _ _ _ _ c Hst Has Hrm) as [Horph Hnext].
  assert (H : orphaned (cp w') c r /\ c < nextClaimId (cp w')).
  { apply (rtc_ind_r (R := step_without c r)
             (fun w' => orphaned (cp w') c r /\ c < nextClaimId (cp w'))
             (setCp s1 w)); [| | exact Hsteps].
    - cbn [cp setCp]. split; [exact Horph | lia].
    - intros w1 w2 _ Hstep [Ho Hlt].
      eapply step_without_orphaned; eassumption. }
  destruct H as [Ho _]. split; [exact Ho|].
  split; [intros; eapply orphaned_approve; exact Ho|].
  split; [intros; eapply orphaned_reject; exact Ho|].
  destruct Ho as (Hst' & Has' & Hrev').
  split; intros.
  - rewrite (orphaned_approve env r c r p w') by (repeat split; assumption).
    rewrite Hrev'. reflexivity.
  - rewrite (orphaned_reject env r c r reason w') by (repeat split; assumption).
    rewrite Hrev'. reflexivity.
Qed.

Lemma removed_reviewer_blocks_witness :
  reviewerApproveClaim Scenarios.chain 11 1 1000000 Scenarios.removedWorld
  = Err OnlyReviewer /\
  reviewerRejectClaim Scenarios.chain 12 1 "no" Scenarios.removedWorld
  = Err NotAssignedReviewer.
Proof.
  assert (Hst : status (claimAt (cp Scenarios.assignedWorld) 1) = UnderReview)
    by (vm_compute; reflexivity).
  assert (Has : assignedReviewer (claimAt (cp Scenarios.assignedWorld) 1) = 11)
    by (vm_compute; reflexivity).
  assert (Hlt : 1 < nextClaimId (cp Scenarios.assignedWorld))
    by (vm_compute; reflexivity).
  assert (Hrm : removeReviewer 1 11 (cp Scenarios.assignedWorld)
                = Ok (cp Scenarios.removedWorld))
    by (vm_compute; reflexivity).
  assert (Hw : setCp (cp Scenarios.removedWorld) Scenarios.assignedWorld
               = Scenarios.removedWorld) by (vm_compute; reflexivity).
  destruct (removed_reviewer_blocks Scenarios.assignedWorld 1 11 1
              (cp Scenarios.removedWorld) Hst Has Hlt Hrm
              Scenarios.removedWorld)
    as (_ & _ & Hreject & Happrove & _).
  { rewrite Hw. apply rtc_refl. }
  split.
  - exact (Happrove Scenarios.chain 1000000).
  - rewrite (Hreject Scenarios.chain 12 "no"). vm_compute. reflexivity.
Defined.

(** C10 as stated fails. The reviewer 11 is removed while the claim 1 is
    assigned to it and is never added again; a further fulfilment of the
    request 77 assigns the claim to the reviewer 12, whose approval succeeds.
    Likewise with a single fulfilment, when the claim still waits for it with
    the zero address in [assignedReviewer] and the zero address, registered
    as a reviewer, is removed. *)
Lemma removed_reviewer_claim_rescued :
  (status (claimAt (cp Scenarios.assignedWorld) 1) = UnderReview /\
   assignedReviewer (claimAt (cp Scenarios.assignedWorld) 1) = 11 /\
   exec Scenarios.chain 1 (RemoveReviewer 11) Scenarios.assignedWorld
   = Ok Scenarios.removedWorld /\
   exec Scenarios.chain 400 (RawFulfillRandomWords 77 [0]) Scenarios.removedWorld
   = Ok Scenarios.refulfilledWorld /\
   exec Scenarios.chain 12 (ReviewerApproveClaim 1 1000000)
     Scenarios.refulfilledWorld
   = Ok Scenarios.rescuedWorld /\
   isReviewer (cp Scenarios.refulfilledWorld) 11 = false /\
   status (claimAt (cp Scenarios.rescuedWorld) 1) = Approved) /\
  (status (claimAt (cp Scenarios.pendingWorld) 1) = UnderReview /\
   assignedReviewer (claimAt (cp Scenarios.pendingWorld) 1) = 0 /\
   vrfRequestToClaim (cp Scenarios.pendingWorld) !! 77 = Some 1 /\
   exec Scenarios.chain 1 (RemoveReviewer 0) Scenarios.pendingWorld
   = Ok Scenarios.pendingRemovedWorld /\
   exec Scenarios.chain 400 (RawFulfillRandomWords 77 [5])
     Scenarios.pendingRemovedWorld
   = Ok Scenarios.pendingAssignedWorld /\
   exec Scenarios.chain 12 (ReviewerRejectClaim 1 "not covered")
     Scenarios.pendingAssignedWorld
   = Ok Scenarios.pendingResolvedWorld /\
   isReviewer (cp Scenarios.pendingAssignedWorld) 0 = false /\
   status (claimAt (cp Scenarios.pendingResolvedWorld) 1) = Rejected).
Proof.
  split.
  - repeat (split; [vm_compute; reflexivity|]). vm_compute. reflexivity.
  - repeat (split; [vm_compute; reflexivity|]). vm_compute. reflexivity.
Qed.

End ClaimsProcessorProofs.
(** ** The registry as a whole *)

Module PolicyRegistryInvariants.
Import PolicyRegistry PolicyRegistryCalls ResultFacts.

(** *** Records and ids *)

Lemma policyAt_setPolicy (id : Z) (p : Policy) (s : State) (j : Z) :
  policyAt (setPolicy id p s) j = if decide (id = j) then p else policyAt s j.
Proof.
  unfold policyAt, setPolicy. cbn [policies].
  destruct (decide (id = j)) as [->|Hne].
  - rewrite lookup_insert_eq. reflexivity.
  - rewrite lookup_insert_ne by exact Hne. reflexivity.
Qed.

Lemma policyAt_setPolicy_eq (id : Z) (p : Policy) (s : State) :
  policyAt (setPolicy id p s) id = p.
Proof. rewrite policyAt_setPolicy. destruct (decide (id = id)); congruence. Qed.

Lemma policyAt_setPolicy_ne (id : Z) (p : Policy) (s : State) (j : Z) :
  id <> j -> policyAt (setPolicy id p s) j = policyAt s j.
Proof.
  intros Hne. rewrite policyAt_setPolicy. destruct (decide (id = j)); congruence.
Qed.

Lemma policyAt_None (s : State) (id : Z) :
  policies s !! id = None -> policyAt s id = zeroPolicy.
Proof. unfold policyAt. intros ->. reflexivity. Qed.

Lemma filter_ext_in {A : Type} (P1 P2 : A -> Prop)
    `{!forall x, Decision (P1 x), !forall x, Decision (P2 x)} (l : list A) :
  (forall x, x ∈ l -> (P1 x <-> P2 x)) -> filter P1 l = filter P2 l.
Proof.
  induction l as [|a l IH]; intros Hext; [reflexivity|].
  assert (Ha : P1 a <-> P2 a) by (apply Hext; left).
  assert (Hl : filter P1 l = filter P2 l).
  { apply IH. intros x Hx. apply Hext. right. exact Hx. }
  destruct (decide (P1 a)) as [Hp|Hp].
  - rewrite !filter_cons_True by tauto. rewrite Hl. reflexivity.
  - rewrite !filter_cons_False by tauto. exact Hl.
Qed.

(** A record that passes the two checks of the mutators was created. *)
Lemma active_created (s : State) (id : Z) :
  consistent s -> isActive (policyAt s id) = true -> created s id.
Proof.
  intros (_ & _ & Hnone) Hact.
  destruct (decide (created s id)) as [Hc|Hc]; [exact Hc|].
  rewrite (policyAt_None s id (Hnone id Hc)) in Hact. discriminate Hact.
Qed.

Ltac amends_tac :=
  eexists; split; [reflexivity|]; cbn; repeat split;
  try assumption; try reflexivity; try lia.

Lemma updatePolicy_amends sender id p c d t s s' :
  updatePolicy sender id p c d t s = Ok s' -> amends s s' id.
Proof.
  intros H. unfold updatePolicy in H. inv_ok.
  destruct (Z.ltb_spec 0 t); inv_ok; subst s'; amends_tac.
Qed.

Lemma incrementClaimCount_amends sender id s s' :
  incrementClaimCount sender id s = Ok s' -> amends s s' id.
Proof.
  intros H. unfold incrementClaimCount in H. inv_ok. subst s'. amends_tac.
Qed.

Lemma recordPayout_amends sender id a s s' :
  0 <= a -> recordPayout sender id a s = Ok s' -> amends s s' id.
Proof.
  intros Ha H. unfold recordPayout in H. inv_ok. subst s'. amends_tac.
Qed.

Lemma cancelPolicy_amends sender id s s' :
  cancelPolicy sender id s = Ok s' ->
  amends s s' id /\ isActive (policyAt s' id) = false.
Proof.
  intros H. unfold cancelPolicy in H. inv_ok. subst s'.
  split; [amends_tac|]. rewrite policyAt_setPolicy_eq. reflexivity.
Qed.

Lemma createPolicy_effect now sender h p c d ty t s id s' :
  createPolicy now sender h p c d ty t s = Ok (id, s') ->
  sender = admin s /\
  id = nextPolicyId s /\
  nextPolicyId s' = id + 1 /\ id + 1 <= MAX_UINT256 /\
  now + t <= MAX_UINT256 /\
  admin s' = admin s /\ claimsProcessor s' = claimsProcessor s /\
  policies s' = <[id := mkPolicy id h p c d ty now (now + t) true 0 0]>
                  (policies s) /\
  userPolicies s' = <[h := getUserPolicies s h ++ [id]]> (userPolicies s).
Proof.
  intros H. unfold createPolicy in H. inv_ok. subst. repeat split; auto.
Qed.

(** *** The invariants of the registry *)

Lemma amends_consistent s s' id :
  consistent s -> amends s s' id -> consistent s'.
Proof.
  intros Hcons (p' & -> & Hid & Hact & Hid' & _ & Hstart & Hend & _).
  pose proof (active_created s id Hcons Hact) as Hc.
  destruct Hcons as (Hnext & Hrec & Hnone).
  split; [exact Hnext|]. split.
  - intros j Hj. change (created s j) in Hj.
    destruct (decide (id = j)) as [<-|Hne].
    + rewrite policyAt_setPolicy_eq. destruct (Hrec id Hc) as [_ Hw].
      split; [exact Hid'|]. lia.
    + rewrite policyAt_setPolicy_ne by exact Hne. apply Hrec, Hj.
  - intros j Hj. change (~ created s j) in Hj.
    unfold setPolicy. cbn [policies].
    rewrite lookup_insert_ne by (intros <-; contradiction).
    apply Hnone, Hj.
Qed.

Lemma amends_indexed s s' id :
  indexed s -> amends s s' id -> indexed s'.
Proof.
  intros Hidx (p' & -> & _ & _ & _ & Hholder & _) h.
  change (getUserPolicies (setPolicy id p' s) h) with (getUserPolicies s h).
  change (nextPolicyId (setPolicy id p' s)) with (nextPolicyId s).
  rewrite Hidx. apply filter_ext_in. intros j _.
  destruct (decide (id = j)) as [<-|Hne].
  - rewrite policyAt_setPolicy_eq, Hholder. reflexivity.
  - rewrite policyAt_setPolicy_ne by exact Hne. reflexivity.
Qed.

Lemma amends_evolves s s' id :
  amends s s' id -> evolves s s'.
Proof.
  intros (p' & -> & Hid & Hact & Hid' & Hh & Hs & He & Hc & Ht).
  split; [cbn; lia|]. split; [reflexivity|].
  intros j _. destruct (decide (id = j)) as [<-|Hne].
  - rewrite policyAt_setPolicy_eq. repeat split; try congruence; try lia.
  - rewrite policyAt_setPolicy_ne by exact Hne. repeat split; auto; lia.
Qed.

Lemma evolves_refl s : evolves s s.
Proof. split; [lia|]. split; [reflexivity|]. intros. repeat split; auto; lia. Qed.

Lemma evolves_trans s1 s2 s3 :
  evolves s1 s2 -> evolves s2 s3 -> evolves s1 s3.
Proof.
  intros (Hn1 & Ha1 & H1) (Hn2 & Ha2 & H2).
  split; [lia|]. split; [congruence|].
  intros id Hc. destruct (H1 id Hc) as (? & ? & ? & ? & ? & ? & ?).
  destruct (H2 id) as (? & ? & ? & ? & ? & ? & ?);
    [unfold created in *; lia|].
  repeat split; try congruence; try lia. auto.
Qed.

Lemma exec_cases now sender m s s' :
  exec now sender m s = Ok s' ->
  0 <= now /\
  ((exists a, setClaimsProcessor sender a s = Ok s') \/
   (exists h p c d ty t id, 0 <= t /\
      createPolicy now sender h p c d ty t s = Ok (id, s')) \/
   (exists id, amends s s' id)).
Proof.
  unfold exec. intros H. inv_ok.
  match goal with Hn : is_uint256 now = true |- _ =>
    apply is_uint256_nonneg in Hn end.
  split; [assumption|].
  destruct m; cbn [wf_msg] in *; inv_ok.
  - left. eauto.
  - right. left.
    match goal with x : (Z * State)%type |- _ => destruct x as [id s1] end.
    inv_ok. subst s1.
    repeat match goal with Hu : is_uint256 _ = true |- _ =>
      apply is_uint256_nonneg in Hu end.
    do 7 eexists. split; [|eassumption]. assumption.
  - right. right. eexists. eapply updatePolicy_amends; eassumption.
  - right. right. eexists. eapply cancelPolicy_amends; eassumption.
  - right. right. eexists. eapply incrementClaimCount_amends; eassumption.
  - right. right. eexists. eapply recordPayout_amends; [|eassumption].
    apply is_uint256_nonneg. assumption.
Qed.

Lemma seqZ_snoc (n : Z) : 1 <= n -> seqZ 1 n = seqZ 1 (n - 1) ++ [n].
Proof.
  intros Hn. replace n with ((n - 1) + 1) at 1 by lia.
  rewrite seqZ_app by lia. f_equal.
  replace (1 + (n - 1)) with n by lia.
  rewrite seqZ_cons by lia. rewrite seqZ_nil by lia. reflexivity.
Qed.

Lemma step_keeps (s s' : State) :
  step s s' -> consistent s -> indexed s ->
  consistent s' /\ indexed s' /\ evolves s s'.
Proof.
  intros (now & sender & m & Hexec) Hcons Hidx.
  destruct (exec_cases _ _ _ _ _ Hexec)
    as (Hnow & [(a & Hset) | [(h & p & c & d & ty & t & id & Ht & Hcr)
                             | (id & Ham)]]).
  - unfold setClaimsProcessor in Hset. inv_ok. subst s'.
    split; [exact Hcons|]. split; [exact Hidx|]. exact (evolves_refl s).
  - destruct (createPolicy_effect _ _ _ _ _ _ _ _ _ _ _ Hcr)
      as (_ & -> & Hnext & Hmax & _ & Hadm & _ & Hpol & Husr).
    destruct Hcons as (Hn & Hrec & Hnone).
    assert (Hat : forall j, policyAt s' j =
              if decide (nextPolicyId s = j)
              then mkPolicy (nextPolicyId s) h p c d ty now (now + t) true 0 0
              else policyAt s j).
    { intros j. unfold policyAt. rewrite Hpol.
      destruct (decide (nextPolicyId s = j)) as [<-|Hne].
      - rewrite lookup_insert_eq. reflexivity.
      - rewrite lookup_insert_ne by exact Hne. reflexivity. }
    split; [|split].
    + split; [lia|]. split.
      * intros j Hj. unfold created in Hj. rewrite Hnext in Hj. rewrite Hat.
        destruct (decide (nextPolicyId s = j)) as [<-|Hne]; cbn; [lia|].
        apply Hrec. unfold created. lia.
      * intros j Hj. unfold created in Hj. rewrite Hnext in Hj. rewrite Hpol.
        rewrite lookup_insert_ne by lia. apply Hnone. unfold created. lia.
    + intros h'. unfold getUserPolicies. rewrite Husr, Hnext.
      replace (nextPolicyId s + 1 - 1) with (nextPolicyId s) by lia.
      rewrite seqZ_snoc by lia. rewrite filter_app.
      assert (Hold : filter (fun id => policyholder (policyAt s' id) = h')
                       (seqZ 1 (nextPolicyId s - 1))
                     = getUserPolicies s h').
      { rewrite Hidx. apply filter_ext_in. intros j Hj.
        apply elem_of_seqZ in Hj. rewrite Hat.
        destruct (decide (nextPolicyId s = j)); [lia | reflexivity]. }
      rewrite Hold.
      destruct (decide (h = h')) as [<-|Hne].
      * rewrite lookup_insert_eq. cbn [default from_option id]. f_equal.
        rewrite filter_cons_True; [reflexivity|].
        rewrite Hat. destruct (decide (nextPolicyId s = nextPolicyId s));
          [reflexivity | congruence].
      * rewrite lookup_insert_ne by exact Hne.
        rewrite filter_cons_False; [rewrite app_nil_r; reflexivity|].
        rewrite Hat. destruct (decide (nextPolicyId s = nextPolicyId s));
          [cbn; congruence | congruence].
    + split; [lia|]. split; [exact Hadm|].
      intros j Hj. unfold created in Hj. rewrite Hat.
      destruct (decide (nextPolicyId s = j)); [lia|].
      repeat split; auto; lia.
  - split; [eapply amends_consistent; eassumption|].
    split; [eapply amends_indexed; eassumption|].
    eapply amends_evolves; eassumption.
Qed.

Lemma init_consistent d : consistent (init d) /\ indexed (init d).
Proof.
  split.
  - split; [cbn; unfold MAX_UINT256; lia|]. split.
    + intros id Hid. unfold created in Hid. cbn in Hid. lia.
    + intros id _. apply lookup_empty.
  - intros h. unfold getUserPolicies. cbn. rewrite lookup_empty. reflexivity.
Qed.

Lemma steps_keep (s s' : State) :
  rtc step s s' -> consistent s -> indexed s ->
  consistent s' /\ indexed s' /\ evolves s s'.
Proof.
  induction 1 as [s|s1 s2 s3 H12 _ IH]; intros Hc Hi.
  - split; [exact Hc|]. split; [exact Hi|]. apply evolves_refl.
  - destruct (step_keeps _ _ H12 Hc Hi) as (Hc2 & Hi2 & He2).
    destruct (IH Hc2 Hi2) as (Hc3 & Hi3 & He3).
    split; [exact Hc3|]. split; [exact Hi3|].
    eapply evolves_trans; eassumption.
Qed.

Lemma reachable_consistent s : reachable s -> consistent s /\ indexed s.
Proof.
  intros (d & Hsteps). destruct (init_consistent d) as [Hc Hi].
  destruct (steps_keep _ _ Hsteps Hc Hi) as (? & ? & _). auto.
Qed.

Lemma registryAfter_reaches calls s :
  rtc step s (MoreScenarios.registryAfter calls s).
Proof.
  revert s. induction calls as [|[[now sender] m] rest IH]; intros s;
    [apply rtc_refl|].
  cbn [MoreScenarios.registryAfter fold_left].
  destruct (exec now sender m s) as [s'|e] eqn:He; cbn [commit].
  - eapply rtc_l; [|apply IH]. exists now, sender, m. exact He.
  - apply IH.
Defined.

Lemma busyRegistry_reachable : reachable MoreScenarios.busyRegistry.
Proof. exists 1. apply registryAfter_reaches. Defined.

Lemma busyRegistry_created (id : Z) :
  created MoreScenarios.busyRegistry id <-> 1 <= id < 4.
Proof.
  unfold created.
  replace (nextPolicyId MoreScenarios.busyRegistry) with 4
    by (vm_compute; reflexivity).
  reflexivity.
Defined.

(** X1: in a reachable registry, [createPolicy] returns the id
    [nextPolicyId], which is at least 1 and under which nothing was stored;
    the counter advances by one; the policy is stored active, with the
    window from the time of the call to that time plus the duration and
    with no claim and no payout; every other policy is unchanged; the id is
    appended to the policies of its holder; and the new policy is valid for
    claims exactly for its holder, at the times of the window. *)
Theorem createPolicy_fresh_id (now : Z) (sender h : address)
    (p c d : Z) (ty : string) (t : Z) (s s' : State) (id : Z) :
  reachable s ->
  createPolicy now sender h p c d ty t s = Ok (id, s') ->
  id = nextPolicyId s /\ 1 <= id /\
  policyAt s id = zeroPolicy /\
  nextPolicyId s' = id + 1 /\
  policyAt s' id = mkPolicy id h p c d ty now (now + t) true 0 0 /\
  (forall j, j <> id -> policyAt s' j = policyAt s j) /\
  getUserPolicies s' h = getUserPolicies s h ++ [id] /\
  (forall tm claimant,
     isPolicyValidForClaims tm s' id claimant = true <->
     claimant = h /\ now <= tm <= now + t).
Proof.
  intros Hreach Hcr.
  destruct (reachable_consistent s Hreach) as [(Hn & _ & Hnone) _].
  destruct (createPolicy_effect _ _ _ _ _ _ _ _ _ _ _ Hcr)
    as (_ & -> & Hnext & _ & _ & _ & _ & Hpol & Husr).
  assert (Hat : forall j, policyAt s' j =
            if decide (nextPolicyId s = j)
            then mkPolicy (nextPolicyId s) h p c d ty now (now + t) true 0 0
            else policyAt s j).
  { intros j. unfold policyAt. rewrite Hpol.
    destruct (decide (nextPolicyId s = j)) as [<-|Hne].
    - rewrite lookup_insert_eq. reflexivity.
    - rewrite lookup_insert_ne by exact Hne. reflexivity. }
  assert (Hnew : policyAt s' (nextPolicyId s)
                 = mkPolicy (nextPolicyId s) h p c d ty now (now + t) true 0 0).
  { rewrite Hat. destruct (decide (nextPolicyId s = nextPolicyId s));
      congruence. }
  split; [reflexivity|]. split; [lia|].
  split; [apply policyAt_None, Hnone; unfold created; lia|].
  split; [exact Hnext|]. split; [exact Hnew|]. split.
  { intros j Hj. rewrite Hat. destruct (decide (nextPolicyId s = j)); congruence. }
  split.
  { unfold getUserPolicies at 1. rewrite Husr, lookup_insert_eq. reflexivity. }
  intros tm claimant. unfold isPolicyValidForClaims. rewrite Hnew. cbn.
  rewrite !andb_true_iff, !Z.eqb_eq, !Z.leb_le. intuition congruence.
Qed.

Lemma createPolicy_fresh_id_witness :
  createPolicy 130 1 9 5 6 7 "health" 10 MoreScenarios.busyRegistry
  = Ok (4, MoreScenarios.crowdedRegistry) /\
  getUserPolicies MoreScenarios.crowdedRegistry 9
  = getUserPolicies MoreScenarios.busyRegistry 9 ++ [4] /\
  policyAt MoreScenarios.busyRegistry 4 = zeroPolicy.
Proof.
  assert (H : createPolicy 130 1 9 5 6 7 "health" 10 MoreScenarios.busyRegistry
              = Ok (4, MoreScenarios.crowdedRegistry))
    by (vm_compute; reflexivity).
  split; [exact H|].
  destruct (createPolicy_fresh_id 130 1 9 5 6 7 "health" 10
              MoreScenarios.busyRegistry MoreScenarios.crowdedRegistry 4
              busyRegistry_reachable H)
    as (_ & _ & Hzero & _ & _ & _ & Husr & _).
  split; [exact Husr | exact Hzero].
Defined.

(** X2: in a reachable registry, [getUserPolicies] returns the ids created
    so far whose policyholder is the user, in increasing order: no id is
    listed twice, and an id is listed exactly when it was created for that
    holder. *)
Theorem getUserPolicies_lists_holder (s : State) (h : address) :
  reachable s ->
  getUserPolicies s h
  = filter (fun id => policyholder (policyAt s id) = h)
           (seqZ 1 (nextPolicyId s - 1)) /\
  NoDup (getUserPolicies s h) /\
  (forall id, id ∈ getUserPolicies s h <->
     created s id /\ policyholder (policyAt s id) = h).
Proof.
  intros Hreach. destruct (reachable_consistent s Hreach) as [_ Hidx].
  split; [apply Hidx|]. rewrite Hidx. split.
  - apply NoDup_filter, NoDup_seqZ.
  - intros id. rewrite list_elem_of_filter, elem_of_seqZ.
    unfold created. split; intros [? ?]; split; auto; lia.
Qed.

Lemma getUserPolicies_lists_holder_witness :
  getUserPolicies MoreScenarios.busyRegistry 7 = [1; 3] /\
  3 ∈ getUserPolicies MoreScenarios.busyRegistry 7.
Proof.
  destruct (getUserPolicies_lists_holder MoreScenarios.busyRegistry 7
              busyRegistry_reachable) as (Heq & _ & Hmem).
  split.
  - rewrite Heq. vm_compute. reflexivity.
  - apply Hmem. split; [apply busyRegistry_created; lia|].
    vm_compute. reflexivity.
Defined.

(** X3: in a reachable registry, the record at an id carries that id
    exactly when the id was assigned by [createPolicy] (the id 0 reads the
    empty record, whose id is 0); only created policies are active; an id
    never created reads as the empty record; and a created policy starts no
    later than it ends. *)
Theorem policy_record_iff_created (s : State) (id : Z) :
  reachable s ->
  (policyId (policyAt s id) = id <-> created s id \/ id = 0) /\
  (isActive (policyAt s id) = true -> created s id) /\
  (~ created s id -> policyAt s id = zeroPolicy) /\
  (created s id ->
   0 <= startDate (policyAt s id) <= endDate (policyAt s id)).
Proof.
  intros Hreach. destruct (reachable_consistent s Hreach) as [Hcons _].
  pose proof Hcons as (Hn & Hrec & Hnone).
  split; [|split; [|split]].
  - split.
    + intros Hid. destruct (decide (created s id)) as [Hc|Hc]; [left; exact Hc|].
      right. rewrite (policyAt_None s id (Hnone id Hc)) in Hid.
      cbn in Hid. congruence.
    + intros [Hc | ->]; [apply Hrec, Hc|].
      rewrite policyAt_None; [reflexivity|]. apply Hnone. unfold created. lia.
  - apply active_created, Hcons.
  - intros Hc. apply policyAt_None, Hnone, Hc.
  - intros Hc. apply Hrec, Hc.
Qed.

Lemma policy_record_iff_created_witness :
  policyId (policyAt MoreScenarios.busyRegistry 2) = 2 /\
  policyAt MoreScenarios.busyRegistry 9 = zeroPolicy.
Proof.
  destruct (policy_record_iff_created MoreScenarios.busyRegistry 2
              busyRegistry_reachable) as (Hid & _).
  destruct (policy_record_iff_created MoreScenarios.busyRegistry 9
              busyRegistry_reachable) as (_ & _ & Hzero & _).
  split.
  - apply Hid. left. apply busyRegistry_created. lia.
  - apply Hzero. rewrite busyRegistry_created. lia.
Defined.

(** X4: a cancelled policy stays cancelled. After a successful
    [cancelPolicy] in a reachable registry, in every later state the policy
    is inactive and valid for claims at no time and for no claimant;
    [updatePolicy], [cancelPolicy], [incrementClaimCount] and [recordPayout]
    on it revert, at the role guard for a caller without the role and with
    the inactive-policy message otherwise. No function reactivates it. *)
Theorem cancelled_policy_stays_cancelled (s s1 : State) (sender : address)
    (id : Z) :
  reachable s ->
  cancelPolicy sender id s = Ok s1 ->
  forall s2, rtc step s1 s2 ->
    isActive (policyAt s2 id) = false /\
    (forall now claimant, isPolicyValidForClaims now s2 id claimant = false) /\
    (forall caller p c d t,
       updatePolicy caller id p c d t s2
       = Err (if caller =? admin s2 then PolicyNotActive else OnlyAdmin)) /\
    (forall caller,
       cancelPolicy caller id s2
       = Err (if caller =? admin s2 then PolicyAlreadyInactive else OnlyAdmin)) /\
    (forall caller,
       incrementClaimCount caller id s2
       = Err (if caller =? claimsProcessor s2 then PolicyNotActive
              else OnlyClaimsProcessor)) /\
    (forall caller a,
       recordPayout caller id a s2
       = Err (if caller =? claimsProcessor s2 then PolicyNotActive
              else OnlyClaimsProcessor)).
Proof.
  intros Hreach Hcancel s2 Hsteps.
  destruct (reachable_consistent s Hreach) as [Hcons Hidx].
  destruct (cancelPolicy_amends _ _ _ _ Hcancel) as [Ham Hoff].
  pose proof Ham as (p' & _ & Hid & Hact & _).
  pose proof (active_created s id Hcons Hact) as Hc.
  pose proof (amends_consistent _ _ _ Hcons Ham) as Hcons1.
  pose proof (amends_indexed _ _ _ Hidx Ham) as Hidx1.
  pose proof (amends_evolves _ _ _ Ham) as (_ & _ & Hev01).
  destruct (Hev01 id Hc) as (Hid1 & _).
  destruct (steps_keep _ _ Hsteps Hcons1 Hidx1) as (_ & _ & (_ & _ & Hev)).
  assert (Hc1 : created s1 id).
  { destruct Ham as (q & -> & _). exact Hc. }
  destruct (Hev id Hc1) as (Hid2 & _ & _ & _ & _ & _ & Hoff2).
  specialize (Hoff2 Hoff).
  assert (Hidok : (policyId (policyAt s2 id) =? id) = true).
  { apply Z.eqb_eq. congruence. }
  split; [exact Hoff2|]. split.
  { intros now claimant. unfold isPolicyValidForClaims. rewrite Hoff2.
    rewrite !andb_false_r. reflexivity. }
  split; [|split; [|split]]; intros.
  - unfold updatePolicy. destruct (caller =? admin s2); [|reflexivity].
    cbn [require mbind result_bind bind]. rewrite Hidok, Hoff2. reflexivity.
  - unfold cancelPolicy. destruct (caller =? admin s2); [|reflexivity].
    cbn [require mbind result_bind bind]. rewrite Hidok, Hoff2. reflexivity.
  - unfold incrementClaimCount.
    destruct (caller =? claimsProcessor s2); [|reflexivity].
    cbn [require mbind result_bind bind]. rewrite Hidok, Hoff2. reflexivity.
  - unfold recordPayout.
    destruct (caller =? claimsProcessor s2); [|reflexivity].
    cbn [require mbind result_bind bind]. rewrite Hidok, Hoff2. reflexivity.
Qed.

Lemma cancelled_policy_stays_cancelled_witness :
  isPolicyValidForClaims 125 MoreScenarios.cancelledRegistry 1 7 = false /\
  recordPayout 300 1 500 MoreScenarios.cancelledRegistry = Err PolicyNotActive.
Proof.
  assert (H : cancelPolicy 1 1 MoreScenarios.busyRegistry
              = Ok MoreScenarios.cancelledRegistry) by (vm_compute; reflexivity).
  destruct (cancelled_policy_stays_cancelled MoreScenarios.busyRegistry
              MoreScenarios.cancelledRegistry 1 1 busyRegistry_reachable H
              MoreScenarios.cancelledRegistry (rtc_refl _ _))
    as (_ & Hvalid & _ & _ & _ & Hpay).
  split; [apply Hvalid|]. rewrite Hpay. vm_compute. reflexivity.
Defined.

(** X5: for a created policy of a reachable registry, whatever calls
    follow: the policy stays created, the administrator of the registry, the
    id, the policyholder and the start date stay as they are, and the end
    date, the number of claims and the total of the payouts never
    decrease. *)
Theorem policy_terms_only_grow (s s' : State) (id : Z) :
  reachable s -> created s id -> rtc step s s' ->
  created s' id /\
  admin s' = admin s /\
  policyId (policyAt s' id) = id /\
  policyholder (policyAt s' id) = policyholder (policyAt s id) /\
  startDate (policyAt s' id) = startDate (policyAt s id) /\
  endDate (policyAt s id) <= endDate (policyAt s' id) /\
  claimsCount (policyAt s id) <= claimsCount (policyAt s' id) /\
  totalPayouts (policyAt s id) <= totalPayouts (policyAt s' id).
Proof.
  intros Hreach Hc Hsteps.
  destruct (reachable_consistent s Hreach) as [Hcons Hidx].
  destruct (steps_keep _ _ Hsteps Hcons Hidx) as (_ & _ & (Hn & Ha & Hev)).
  destruct (Hev id Hc) as (Hid & Hh & Hs & He & Hcc & Ht & _).
  destruct Hcons as (_ & Hrec & _). destruct (Hrec id Hc) as [Hid0 _].
  unfold created in *. repeat split; try assumption; try lia; congruence.
Qed.

Lemma policy_terms_only_grow_witness :
  policyholder (policyAt MoreScenarios.cancelledRegistry 3)
  = policyholder (policyAt MoreScenarios.busyRegistry 3) /\
  endDate (policyAt MoreScenarios.busyRegistry 3)
  <= endDate (policyAt MoreScenarios.cancelledRegistry 3).
Proof.
  assert (Hc : created MoreScenarios.busyRegistry 3)
    by (apply busyRegistry_created; lia).
  destruct (policy_terms_only_grow MoreScenarios.busyRegistry
              MoreScenarios.cancelledRegistry 3 busyRegistry_reachable Hc
              (registryAfter_reaches _ _))
    as (_ & _ & _ & Hh & _ & He & _).
  split; [exact Hh | exact He].
Defined.

(** X6: every state-changing call of the registry is gated. A caller that
    is not the administrator, and that is not the claims processor or does
    not call [incrementClaimCount] or [recordPayout], has every call
    reverted: with the role message of the function, or for arguments out of
    range. *)
Theorem registry_calls_are_gated (now : Z) (sender : address) (m : msg)
    (s : State) :
  sender <> admin s ->
  (sender <> claimsProcessor s \/
   forall i a, m <> IncrementClaimCount i /\ m <> RecordPayout i a) ->
  exec now sender m s = Err BadCalldata \/
  exec now sender m s = Err OnlyAdmin \/
  exec now sender m s = Err OnlyClaimsProcessor.
Proof.
  intros Hadm Hcp. unfold exec.
  destruct (is_uint256 now && wf_msg m); [|left; reflexivity].
  cbn [require mbind result_bind bind].
  apply Z.eqb_neq in Hadm.
  destruct m; cbn.
  - right. left. unfold setClaimsProcessor. rewrite Hadm. reflexivity.
  - right. left. unfold createPolicy. rewrite Hadm. reflexivity.
  - right. left. unfold updatePolicy. rewrite Hadm. reflexivity.
  - right. left. unfold cancelPolicy. rewrite Hadm. reflexivity.
  - right. right. unfold incrementClaimCount.
    destruct Hcp as [Hcp | Hcp]; [|destruct (Hcp _policyId 0); congruence].
    apply Z.eqb_neq in Hcp. rewrite Hcp. reflexivity.
  - right. right. unfold recordPayout.
    destruct Hcp as [Hcp | Hcp]; [|destruct (Hcp _policyId _amount); congruence].
    apply Z.eqb_neq in Hcp. rewrite Hcp. reflexivity.
Qed.

Lemma registry_calls_are_gated_witness :
  exec 130 300 (CancelPolicy 1) MoreScenarios.busyRegistry = Err OnlyAdmin.
Proof.
  destruct (registry_calls_are_gated 130 300 (CancelPolicy 1)
              MoreScenarios.busyRegistry) as [H | [H | H]].
  - vm_compute. discriminate.
  - right. intros i a. split; discriminate.
  - vm_compute in H. discriminate H.
  - exact H.
  - vm_compute in H. discriminate H.
Defined.

End PolicyRegistryInvariants.

(** ** The payout manager as a whole *)

Module PayoutManagerInvariants.
Import PayoutManager PayoutManagerHealth ResultFacts PayoutManagerProofs.

(** *** Ranges and roles *)

Lemma mul256_Ok (a b c : Z) : mul256 a b = Ok c -> c = a * b.
Proof.
  unfold mul256. destruct (a * b <=? MAX_UINT256); [|discriminate].
  intros [= <-]. reflexivity.
Qed.

Lemma convertUSDToAVAX_nonneg env s u v :
  0 <= u -> convertUSDToAVAX env s u = Ok v -> 0 <= v.
Proof.
  intros Hu H. unfold convertUSDToAVAX in H.
  destruct (latestAnswer env (priceFeed s)) as [price|]; [|discriminate].
  inv_ok.
  repeat match goal with Hm : mul256 _ _ = Ok _ |- _ =>
    apply mul256_Ok in Hm end.
  subst. apply Z.div_pos; lia.
Qed.

Lemma upholds_refl (s : State) : upholds s s.
Proof. split; auto. Qed.

Lemma upholds_trans (s1 s2 s3 : State) :
  upholds s1 s2 -> upholds s2 s3 -> upholds s1 s3.
Proof. intros [] []. split; auto. congruence. Qed.

Ltac fields :=
  unfold balanceOf, emit, setTotalPayouts, setTotalWithdrawn,
    setAvailableFunds, setSelfBalance, setBalance, setPayout in *;
  cbn [payouts balances claimsProcessor admin treasury priceFeed totalPayouts
       totalWithdrawn availableFunds selfBalance log] in *.

Lemma processPayout_upholds env sender c r u s s' :
  processPayout env sender c r u s = Ok s' -> upholds s s'.
Proof.
  unfold processPayout. intros H. inv_ok. subst s'.
  match goal with Hc : convertUSDToAVAX _ _ _ = Ok ?v |- _ =>
    assert (Hv : 0 <= v) by (eapply convertUSDToAVAX_nonneg; [|exact Hc]; lia)
  end.
  split; fields; try reflexivity; try lia.
  - intros Hb a. specialize (Hb a).
    destruct (Z.eqb_spec r a) as [->|Hne].
    + rewrite lookup_insert_eq. cbn [from_option id]. lia.
    + rewrite lookup_insert_ne by exact Hne. exact Hb.
  - intros Hrec c'. unfold payoutAt. cbn [payouts].
    destruct (Z.eqb_spec c c') as [->|Hne].
    + rewrite lookup_insert_eq. cbn [from_option id]. right. cbn. auto.
    + rewrite lookup_insert_ne by exact Hne. apply Hrec.
Qed.

Lemma deposit_upholds sender v s s' :
  deposit sender v s = Ok s' -> upholds s s'.
Proof.
  unfold deposit. intros H. inv_ok. subst s'.
  split; fields; try reflexivity; try lia; auto.
Qed.

Lemma setTreasury_upholds sender t s s' :
  setTreasury sender t s = Ok s' -> upholds s s'.
Proof. unfold setTreasury. intros H. inv_ok. subst s'. split; auto. Qed.

Lemma setPriceFeed_upholds sender f s s' :
  setPriceFeed sender f s = Ok s' -> upholds s s'.
Proof. unfold setPriceFeed. intros H. inv_ok. subst s'. split; auto. Qed.

Lemma setBalance_zero_upholds a s : upholds s (setBalance a 0 s).
Proof.
  split; fields; auto.
  intros Hb a'. specialize (Hb a').
  destruct (Z.eqb_spec a a') as [->|Hne].
  - rewrite lookup_insert_eq. cbn [from_option id]. lia.
  - rewrite lookup_insert_ne by exact Hne. exact Hb.
Qed.

Lemma withdraw_upholds send sender s s' :
  send_upholds send -> withdraw send sender s = Ok s' -> upholds s s'.
Proof.
  intros Hsend. unfold withdraw, withdraw_effects. intros H. inv_ok.
  match goal with x : (Z * State)%type |- _ => destruct x as [amount s1] end.
  inv_ok. subst amount s1.
  specialize (Hsend sender (balanceOf s sender) (setBalance sender 0 s)).
  destruct (send sender (balanceOf s sender) (setBalance sender 0 s))
    as [[] s2]; inv_ok; [|discriminate].
  subst s'. cbn [snd] in Hsend.
  eapply upholds_trans; [apply setBalance_zero_upholds|].
  eapply upholds_trans; [exact Hsend|].
  split; fields; auto. lia.
Qed.

Lemma withdrawToTreasury_upholds send sender a s s' :
  0 <= a -> send_upholds send ->
  withdrawToTreasury send sender a s = Ok s' -> upholds s s'.
Proof.
  intros Ha Hsend. unfold withdrawToTreasury. intros H. inv_ok.
  match type of H with
  | (let '(_, _) := send ?t ?v ?st in _) = _ =>
      specialize (Hsend t v st); destruct (send t v st) as [[] s2]
  end; inv_ok; [|discriminate].
  subst s'. cbn [snd] in Hsend.
  eapply upholds_trans; [|eapply upholds_trans; [exact Hsend|]].
  - split; fields; auto. lia.
  - split; fields; auto.
Qed.

Lemma dispatch_upholds env send sender m s s' :
  send_upholds send -> dispatch env send sender m s = Ok s' -> upholds s s'.
Proof.
  intros Hsend. unfold dispatch. intros H. inv_ok.
  destruct m; cbn [wf_msg] in *.
  - eapply processPayout_upholds; eassumption.
  - eapply withdraw_upholds; eassumption.
  - eapply deposit_upholds; eassumption.
  - eapply deposit_upholds; eassumption.
  - eapply withdrawToTreasury_upholds; [apply is_uint256_nonneg| |];
      eassumption.
  - eapply setTreasury_upholds; eassumption.
  - eapply setPriceFeed_upholds; eassumption.
Qed.

Lemma run_upholds invoke b :
  (forall from m s s', invoke from m s = Ok s' -> upholds s s') ->
  forall s s', run invoke b s = Ok s' -> upholds s s'.
Proof.
  intros Hinv. induction b as [| |from m k IH]; intros s s' H; cbn [run] in H.
  - inv_ok. subst. apply upholds_refl.
  - discriminate.
  - destruct (invoke from m s) as [s1|e] eqn:Hm.
    + eapply upholds_trans; [eapply Hinv; exact Hm | eapply IH; exact H].
    + eapply IH; exact H.
Qed.

Lemma transfer_upholds env depth : send_upholds (transfer env depth).
Proof.
  induction depth as [|d IH]; intros to v s; cbn [transfer];
    [apply upholds_refl|].
  destruct (selfBalance s <? v); [apply upholds_refl|].
  assert (Hdebit : upholds s (setSelfBalance (selfBalance s - v) s))
    by (split; auto).
  destruct (to =? this env).
  - destruct (dispatch env (transfer env d) (this env) (Receive v) _) eqn:Hd;
      cbn [snd]; [|apply upholds_refl].
    eapply upholds_trans; [exact Hdebit|].
    eapply dispatch_upholds; [exact IH | exact Hd].
  - destruct (run _ _ _) eqn:Hr; cbn [snd]; [|apply upholds_refl].
    eapply upholds_trans; [exact Hdebit|].
    eapply run_upholds; [|exact Hr].
    intros from m s1 s2. apply dispatch_upholds. exact IH.
Qed.

Lemma step_upholds (s s' : State) : step s s' -> upholds s s'.
Proof.
  intros [(env & depth & sender & m & H) | (v & _ & ->)].
  - eapply dispatch_upholds; [apply transfer_upholds | exact H].
  - split; auto.
Qed.

Lemma steps_uphold (s s' : State) : rtc step s s' -> upholds s s'.
Proof.
  induction 1 as [|s1 s2 s3 H12 _ IH]; [apply upholds_refl|].
  eapply upholds_trans; [apply step_upholds, H12 | exact IH].
Qed.

Lemma in_range_init d c f : in_range (init d c f).
Proof.
  unfold in_range, balanceOf, MAX_UINT256. cbn.
  split; [intros a; rewrite lookup_empty; cbn; lia | lia].
Qed.

Lemma upholds_in_range s s' : upholds s s' -> in_range s -> in_range s'.
Proof.
  intros [] (Hb & Hw & Hp & Ha).
  split; [auto|]. split; [auto|]. split; [apply up_payouts0; exact Hp | auto].
Qed.

(** Every withdrawable balance is part of their sum. *)
Lemma balance_le_sum (m : gmap Z Z) (a : Z) :
  (forall k, 0 <= default 0 (m !! k)) ->
  default 0 (m !! a) <= map_fold (fun _ x acc => x + acc) 0 m.
Proof.
  revert a. induction m as [|k v m Hk _ IH] using map_first_key_ind.
  - intros a _. rewrite lookup_empty, map_fold_empty. cbn. lia.
  - intros a Hall.
    rewrite sum_insert_fresh by exact Hk.
    assert (Hv : 0 <= v).
    { specialize (Hall k). rewrite lookup_insert_eq in Hall. exact Hall. }
    assert (Hm : forall j, 0 <= default 0 (m !! j)).
    { intros j. specialize (Hall j).
      destruct (decide (k = j)) as [<-|Hne].
      - rewrite Hk. cbn. lia.
      - rewrite lookup_insert_ne in Hall by exact Hne. exact Hall. }
    specialize (IH a Hm).
    destruct (decide (k = a)) as [<-|Hne].
    + rewrite lookup_insert_eq. cbn [from_option id].
      specialize (IH). rewrite Hk in IH. cbn in IH. lia.
    + rewrite lookup_insert_ne by exact Hne. lia.
Qed.

(** *** The books are exact *)

Lemma books_init d c f :
  slack (init d c f) = 0 /\ cover (init d c f) = 0 /\ books (init d c f) = 0.
Proof.
  unfold slack, cover, books, sumBalances. cbn. rewrite map_fold_empty. lia.
Qed.

Lemma drainedManager_reachable : reachable MoreScenarios.drainedManager.
Proof. exists 1, 2, 3. apply managerAfter_reaches. Defined.

Lemma reachable_accounts (d c f : address) (s : State) :
  rtc step (init d c f) s ->
  admin s = d /\ claimsProcessor s = c /\
  slack s = 0 /\ 0 <= cover s /\
  (forall a, 0 <= balanceOf s a <= sumBalances s) /\
  0 <= totalWithdrawn s /\
  totalPayouts s <= MAX_UINT256 /\
  0 <= availableFunds s <= MAX_UINT256.
Proof.
  intros Hsteps.
  pose proof (steps_uphold _ _ Hsteps) as Hup.
  pose proof (upholds_in_range _ _ Hup (in_range_init d c f))
    as (Hb & Hw & Hp & Ha).
  pose proof (steps_sustain _ _ Hsteps) as Hsus.
  destruct (books_init d c f) as (Hs0 & Hc0 & _).
  assert (Havail : 0 <= availableFunds s).
  { apply (sus_avail _ _ Hsus). cbn. lia. }
  split; [exact (up_admin _ _ Hup)|].
  split; [exact (sus_processor _ _ Hsus)|].
  split; [rewrite (sus_slack _ _ Hsus); exact Hs0|].
  split; [pose proof (sus_cover _ _ Hsus); lia|].
  split; [|lia].
  intros a. split; [apply Hb | apply balance_le_sum; exact Hb].
Qed.

Lemma calls_conserve (s s' : State) : rtc called s s' -> conserves s s'.
Proof.
  induction 1 as [|s1 s2 s3 H12 _ IH]; [apply conserves_refl|].
  eapply conserves_trans; [apply called_conserves, H12 | exact IH].
Qed.

Lemma managerAfter_calls env calls s :
  rtc called s (Scenarios.managerAfter env calls s).
Proof.
  revert s. induction calls as [|[sender m] rest IH]; intros s;
    cbn [Scenarios.managerAfter]; [apply rtc_refl|].
  destruct (exec env 8 sender m s) as [s'|e] eqn:He; cbn [commit].
  - eapply rtc_l; [|apply IH]. exists env, 8%nat, sender, m. exact He.
  - apply IH.
Defined.

Lemma forcedManager_reachable : reachable MoreScenarios.forcedManager.
Proof.
  exists 1, 2, 3. eapply rtc_r; [apply managerAfter_reaches|].
  right. exists 5. split; [lia | reflexivity].
Defined.

(** X7: the books of the payout manager are exact. In every reachable
    state, currency forced into the contract included, the balances of all
    recipients and the amounts withdrawn add up to [totalPayouts], and the
    contract holds at least the funding pool plus the balances of all
    recipients; it holds exactly that when it received currency through
    [deposit] and [receive] only. *)
Theorem ledger_is_exact (s : State) :
  reachable s ->
  sumBalances s + totalWithdrawn s = totalPayouts s /\
  availableFunds s + sumBalances s <= selfBalance s /\
  (reachable_by_calls s ->
   selfBalance s = availableFunds s + sumBalances s).
Proof.
  intros (d & c & f & Hsteps).
  destruct (reachable_accounts _ _ _ _ Hsteps) as (_ & _ & Hs & Hc & _).
  unfold slack, cover in *.
  split; [lia|]. split; [lia|].
  intros (d' & c' & f' & Hcalls).
  pose proof (cons_cover _ _ (calls_conserve _ _ Hcalls)) as Hcover.
  destruct (books_init d' c' f') as (_ & Hc0 & _).
  unfold cover in *. lia.
Qed.

Lemma ledger_is_exact_witness :
  sumBalances MoreScenarios.drainedManager
  + totalWithdrawn MoreScenarios.drainedManager
  = totalPayouts MoreScenarios.drainedManager /\
  selfBalance MoreScenarios.drainedManager
  = availableFunds MoreScenarios.drainedManager
    + sumBalances MoreScenarios.drainedManager.
Proof.
  assert (Hcalls : reachable_by_calls MoreScenarios.drainedManager).
  { exists 1, 2, 3. apply managerAfter_calls. }
  destruct (ledger_is_exact MoreScenarios.drainedManager
              drainedManager_reachable) as (Hsum & _ & Hheld).
  exact (conj Hsum (Hheld Hcalls)).
Defined.

(** X8: in every state reachable from the constructor, the administrator
    and the claims processor are those of the constructor; the balance of
    every account is between 0 and what the contract holds;
    [totalWithdrawn] is between 0 and [totalPayouts], which fits in 256
    bits; and so does the funding pool, which is not negative. *)
Theorem roles_fixed_amounts_in_range (d c f : address) (s : State) :
  rtc step (init d c f) s ->
  admin s = d /\ claimsProcessor s = c /\
  (forall a, 0 <= balanceOf s a <= selfBalance s) /\
  0 <= totalWithdrawn s <= totalPayouts s /\
  totalPayouts s <= MAX_UINT256 /\
  0 <= availableFunds s <= MAX_UINT256.
Proof.
  intros Hsteps.
  destruct (reachable_accounts _ _ _ _ Hsteps)
    as (Hadm & Hcp & Hs & Hc & Hb & Hw & Hp & Ha).
  unfold slack, cover in *.
  split; [exact Hadm|]. split; [exact Hcp|].
  split; [intros a; specialize (Hb a); lia|].
  specialize (Hb 0). lia.
Qed.

Lemma roles_fixed_amounts_in_range_witness :
  admin MoreScenarios.drainedManager = 1 /\
  claimsProcessor MoreScenarios.drainedManager = 2 /\
  0 <= balanceOf MoreScenarios.drainedManager 7
    <= selfBalance MoreScenarios.drainedManager.
Proof.
  pose proof (roles_fixed_amounts_in_range 1 2 3 MoreScenarios.drainedManager
                (managerAfter_reaches _ _ _)) as (Ha & Hc & Hb & _).
  exact (conj Ha (conj Hc (Hb 7))).
Defined.

(** X9: a recipient can always withdraw. In a reachable state, [withdraw]
    by an account with a positive balance that accepts the transfer
    succeeds: the contract holds the amount, the addition to
    [totalWithdrawn] does not overflow, the whole balance is sent and the
    balance is left at zero. *)
Theorem withdraw_succeeds_for_creditor (env : Env) (d : nat) (caller : address)
    (s : State) :
  reachable s ->
  0 < balanceOf s caller ->
  caller <> this env ->
  code env d caller = Accept ->
  exec env (S d) caller Withdraw s
  = Ok (emit (FundsWithdrawn caller (balanceOf s caller))
          (setTotalWithdrawn (totalWithdrawn s + balanceOf s caller)
             (setSelfBalance (selfBalance s - balanceOf s caller)
                (setBalance caller 0 s)))).
Proof.
  intros (d0 & c0 & f0 & Hsteps) Hb Hself Hcode.
  destruct (reachable_accounts _ _ _ _ Hsteps)
    as (_ & _ & Hs & Hc & Hbal & Hw & Hp & Ha).
  unfold slack, cover in *. specialize (Hbal caller).
  apply withdraw_pays; try assumption; lia.
Qed.

Lemma paidManager_reachable : reachable Scenarios.paidManager.
Proof.
  exists 1, 2, 3.
  unfold Scenarios.paidManager, Scenarios.fundedManager.
  etrans; [apply managerAfter_reaches|].
  apply managerAfter_reaches.
Defined.

Lemma withdraw_succeeds_for_creditor_witness :
  exec (Scenarios.quote 2000000000) 1 7 Withdraw Scenarios.paidManager
  = Ok (emit (FundsWithdrawn 7 (balanceOf Scenarios.paidManager 7))
          (setTotalWithdrawn
             (totalWithdrawn Scenarios.paidManager
              + balanceOf Scenarios.paidManager 7)
             (setSelfBalance
                (selfBalance Scenarios.paidManager
                 - balanceOf Scenarios.paidManager 7)
                (setBalance 7 0 Scenarios.paidManager)))).
Proof.
  assert (Hb : 0 < balanceOf Scenarios.paidManager 7)
    by (vm_compute; reflexivity).
  assert (Hself : 7 <> this (Scenarios.quote 2000000000))
    by (vm_compute; discriminate).
  assert (Hcode : code (Scenarios.quote 2000000000) 0 7 = Accept)
    by reflexivity.
  exact (withdraw_succeeds_for_creditor (Scenarios.quote 2000000000) 0 7
           Scenarios.paidManager paidManager_reachable Hb Hself Hcode).
Defined.

Lemma sub256_fits (a b : Z) : b <= a -> sub256 a b = Ok (a - b).
Proof. intros H. unfold sub256. rewrite (proj2 (Z.leb_le _ _) H). reflexivity. Qed.

Lemma sub256_panics (a b : Z) : a < b -> sub256 a b = Err Panic.
Proof. intros H. unfold sub256. rewrite (proj2 (Z.leb_gt _ _) H). reflexivity. Qed.

Lemma add256_fits (a b : Z) : a + b <= MAX_UINT256 -> add256 a b = Ok (a + b).
Proof. intros H. unfold add256. rewrite (proj2 (Z.leb_le _ _) H). reflexivity. Qed.

(** X10: what the administrator can send to the treasury. In a reachable
    state, currency forced into the contract included, whose balance fits
    in 256 bits, [withdrawToTreasury] by the administrator reverts with an
    arithmetic panic, whatever the amount, when the contract holds less
    than [totalPayouts] (the subtraction [address(this).balance -
    totalPayouts] underflows). Otherwise the bound of its [require] is what
    the contract holds beyond the balances of the recipients: a larger
    amount is refused; an amount within the bound and above the funding
    pool (possible only after forced currency) reverts with an arithmetic
    panic at [availableFunds -= _amount]; and an amount within the funding
    pool is sent to a treasury that accepts it and is taken from the
    pool. *)
Theorem withdrawToTreasury_bounds (env : Env) (d : nat) (amount : Z)
    (s : State) :
  reachable s ->
  selfBalance s <= MAX_UINT256 ->
  0 <= amount <= MAX_UINT256 ->
  (selfBalance s < totalPayouts s ->
   exec env d (admin s) (WithdrawToTreasury amount) s = Err Panic) /\
  (totalPayouts s <= selfBalance s ->
   selfBalance s - sumBalances s < amount ->
   exec env d (admin s) (WithdrawToTreasury amount) s
   = Err ExceedsAvailableFunds) /\
  (totalPayouts s <= selfBalance s ->
   amount <= selfBalance s - sumBalances s ->
   availableFunds s < amount ->
   exec env d (admin s) (WithdrawToTreasury amount) s = Err Panic) /\
  (totalPayouts s <= selfBalance s ->
   amount <= availableFunds s ->
   treasury s <> this env -> code env d (treasury s) = Accept ->
   exec env (S d) (admin s) (WithdrawToTreasury amount) s
   = Ok (emit (FundsWithdrawn (treasury s) amount)
           (setSelfBalance (selfBalance s - amount)
              (setAvailableFunds (availableFunds s - amount) s)))).
Proof.
  intros (d0 & c0 & f0 & Hsteps) Hheld Hamount.
  destruct (reachable_accounts _ _ _ _ Hsteps)
    as (_ & _ & Hs & Hc & Hbal & Hw & Hp & Ha).
  unfold slack, cover in *. specialize (Hbal 0).
  assert (Hwf : wf_msg (WithdrawToTreasury amount) = true).
  { unfold wf_msg, is_uint256.
    apply andb_true_iff; split; apply Z.leb_le; lia. }
  assert (Hhead : forall depth,
    exec env depth (admin s) (WithdrawToTreasury amount) s
    = withdrawToTreasury (transfer env depth) (admin s) amount s).
  { intros depth. unfold exec, dispatch. rewrite Hwf. reflexivity. }
  assert (Hbound : totalPayouts s <= selfBalance s ->
    forall depth,
      exec env depth (admin s) (WithdrawToTreasury amount) s
      = (_ ← require (amount <=? selfBalance s - sumBalances s)
               ExceedsAvailableFunds;
         avail ← sub256 (availableFunds s) amount;
         let s1 := setAvailableFunds avail s in
         let '(success, s2) := transfer env depth (treasury s1) amount s1 in
         _ ← require success TransferFailed;
         Ok (emit (FundsWithdrawn (treasury s2) amount) s2))).
  { intros Hle depth. rewrite Hhead. unfold withdrawToTreasury.
    rewrite Z.eqb_refl. cbn [require mbind result_bind bind].
    rewrite (sub256_fits (selfBalance s)) by exact Hle.
    cbn [mbind result_bind bind].
    rewrite add256_fits by lia.
    cbn [mbind result_bind bind].
    replace (selfBalance s - totalPayouts s + totalWithdrawn s)
      with (selfBalance s - sumBalances s) by lia.
    reflexivity. }
  split; [|split; [|split]].
  - intros Hlt. rewrite Hhead. unfold withdrawToTreasury.
    rewrite Z.eqb_refl. cbn [require mbind result_bind bind].
    rewrite (sub256_panics (selfBalance s)) by lia. reflexivity.
  - intros Hle Hlt. rewrite (Hbound Hle).
    rewrite (proj2 (Z.leb_gt amount _)) by lia. reflexivity.
  - intros Hle Hfit Hpool. rewrite (Hbound Hle).
    rewrite (proj2 (Z.leb_le amount _)) by lia.
    cbn [require mbind result_bind bind].
    rewrite (sub256_panics (availableFunds s)) by lia. reflexivity.
  - intros Hle Hfit Htreasury Hcode. rewrite (Hbound Hle).
    rewrite (proj2 (Z.leb_le amount _)) by lia.
    cbn [require mbind result_bind bind].
    rewrite (sub256_fits (availableFunds s)) by lia.
    cbn [mbind result_bind bind transfer].
    change (selfBalance (setAvailableFunds _ s)) with (selfBalance s).
    change (treasury (setAvailableFunds _ s)) with (treasury s).
    rewrite (proj2 (Z.ltb_ge (selfBalance s) amount)) by lia.
    rewrite (proj2 (Z.eqb_neq _ _) Htreasury), Hcode.
    cbn [run require mbind result_bind bind]. reflexivity.
Qed.

Lemma withdrawToTreasury_bounds_witness :
  exec (Scenarios.quote 2000000000) 8 (admin MoreScenarios.forcedManager)
       (WithdrawToTreasury 12) MoreScenarios.forcedManager
  = Err Panic.
Proof.
  assert (Hheld : selfBalance MoreScenarios.forcedManager <= MAX_UINT256)
    by (vm_compute; discriminate).
  assert (Hamount : 0 <= 12 <= MAX_UINT256) by (vm_compute; split; discriminate).
  assert (Hle : totalPayouts MoreScenarios.forcedManager
                <= selfBalance MoreScenarios.forcedManager)
    by (vm_compute; discriminate).
  assert (Hfit : 12 <= selfBalance MoreScenarios.forcedManager
                       - sumBalances MoreScenarios.forcedManager)
    by (vm_compute; discriminate).
  assert (Hpool : availableFunds MoreScenarios.forcedManager < 12)
    by (vm_compute; reflexivity).
  exact (proj1 (proj2 (proj2 (withdrawToTreasury_bounds
                  (Scenarios.quote 2000000000) 8 12
                  MoreScenarios.forcedManager forcedManager_reachable
                  Hheld Hamount))) Hle Hfit Hpool).
Defined.

(** *** Payouts *)

Lemma convertUSDToAVAX_Ok env s usd avax :
  convertUSDToAVAX env s usd = Ok avax ->
  exists p, latestAnswer env (priceFeed s) = Some p /\ 0 < p /\
    avax = usd * 10 ^ 18 / (p * 10 ^ 2).
Proof.
  unfold convertUSDToAVAX. intros H.
  destruct (latestAnswer env (priceFeed s)) as [p|]; [|discriminate].
  inv_ok.
  repeat match goal with Hm : mul256 _ _ = Ok _ |- _ =>
    apply mul256_Ok in Hm end.
  subst. exists p. auto.
Qed.

(** X11: [convertUSDToAVAX] rounds down and is monotone. When it returns
    for two amounts in order, the results are in the same order and not
    negative; and the result [avax] for [usd] at the quote [p] satisfies
    [avax * (p * 100) <= usd * 10^18 < (avax + 1) * (p * 100)]: a recipient
    is never credited more than the exact quotient, and less by under one
    unit. *)
Theorem convertUSDToAVAX_rounds_down (env : Env) (s : State)
    (usd usd' avax avax' : Z) :
  convertUSDToAVAX env s usd = Ok avax ->
  convertUSDToAVAX env s usd' = Ok avax' ->
  0 <= usd <= usd' ->
  0 <= avax <= avax' /\
  exists p, latestAnswer env (priceFeed s) = Some p /\
    avax * (p * 100) <= usd * 10 ^ 18 < (avax + 1) * (p * 100).
Proof.
  intros H H' Hu.
  destruct (convertUSDToAVAX_Ok _ _ _ _ H) as (p & Hp & Hpos & ->).
  destruct (convertUSDToAVAX_Ok _ _ _ _ H') as (p' & Hp' & _ & ->).
  assert (p' = p) by congruence. subst p'.
  change (10 ^ 2) with 100.
  assert (Hd : 0 < p * 100) by lia.
  split.
  - split; [apply Z.div_pos; lia|].
    apply Z.div_le_mono; [exact Hd | lia].
  - exists p. split; [exact Hp|].
    pose proof (Z.div_mod (usd * 10 ^ 18) (p * 100) ltac:(lia)) as Hdm.
    pose proof (Z.mod_pos_bound (usd * 10 ^ 18) (p * 100) Hd) as Hm.
    nia.
Qed.

Lemma convertUSDToAVAX_rounds_down_witness :
  0 <= 16666665000000 <= 25000000000000.
Proof.
  assert (H : convertUSDToAVAX MoreScenarios.calm Scenarios.freshManager 3333333
              = Ok 16666665000000) by (vm_compute; reflexivity).
  assert (H' : convertUSDToAVAX MoreScenarios.calm Scenarios.freshManager 5000000
               = Ok 25000000000000) by (vm_compute; reflexivity).
  assert (Hu : 0 <= 3333333 <= 5000000) by lia.
  exact (proj1 (convertUSDToAVAX_rounds_down _ _ _ _ _ _ H H' Hu)).
Defined.

Lemma processPayout_effect env sender c r u s s' :
  processPayout env sender c r u s = Ok s' ->
  sender = claimsProcessor s /\ 0 < u /\
  exists avax, convertUSDToAVAX env s u = Ok avax /\
    avax <= availableFunds s /\
    payoutAt s' c = mkPayout c r u avax (now env) true false /\
    balanceOf s' r = balanceOf s r + avax /\
    (forall a, a <> r -> balanceOf s' a = balanceOf s a) /\
    availableFunds s' = availableFunds s - avax /\
    totalPayouts s' = totalPayouts s + avax /\
    totalWithdrawn s' = totalWithdrawn s /\
    selfBalance s' = selfBalance s.
Proof.
  unfold processPayout. intros H. inv_ok. subst s'.
  split; [assumption|]. split; [assumption|].
  eexists. split; [eassumption|]. split; [assumption|].
  fields. unfold payoutAt. cbn [payouts].
  rewrite !lookup_insert_eq. cbn [from_option id].
  split; [reflexivity|]. split; [reflexivity|].
  split; [|repeat split].
  intros a Ha. rewrite lookup_insert_ne by congruence. reflexivity.
Qed.

(** X12: a funded payout goes through. In a reachable state,
    [processPayout] by the claims processor, for a claim id without a record,
    a positive amount that the conversion turns into [avax], with [avax]
    within the funding pool and [totalPayouts + avax] within 256 bits,
    succeeds: no other check can fail. It stores the record, credits
    exactly [avax] to the recipient, and moves [avax] from the pool to
    [totalPayouts]. *)
Theorem funded_payout_goes_through (env : Env) (c : Z) (r : address)
    (u avax : Z) (s : State) :
  reachable s ->
  claimId (payoutAt s c) = 0 ->
  0 < u ->
  convertUSDToAVAX env s u = Ok avax ->
  avax <= availableFunds s ->
  totalPayouts s + avax <= MAX_UINT256 ->
  exists s',
    processPayout env (claimsProcessor s) c r u s = Ok s' /\
    payoutAt s' c = mkPayout c r u avax (now env) true false /\
    balanceOf s' r = balanceOf s r + avax /\
    availableFunds s' = availableFunds s - avax /\
    totalPayouts s' = totalPayouts s + avax.
Proof.
  intros Hreach Hnew Hu Hconv Hfunds Htotal.
  destruct Hreach as (d0 & c0 & f0 & Hsteps).
  destruct (reachable_accounts _ _ _ _ Hsteps)
    as (_ & _ & Hs & _ & Hbal & Hw & Hp & Ha).
  unfold slack in Hs. specialize (Hbal r).
  assert (Hv : 0 <= avax) by (eapply convertUSDToAVAX_nonneg; [|exact Hconv]; lia).
  assert (Hcall : exists s', processPayout env (claimsProcessor s) c r u s = Ok s').
  { unfold processPayout. rewrite Z.eqb_refl, Hnew.
    cbn [require mbind result_bind bind Z.eqb].
    rewrite (proj2 (Z.ltb_lt 0 u) Hu). cbn [require mbind result_bind bind].
    rewrite Hconv. cbn [mbind result_bind bind].
    rewrite (proj2 (Z.leb_le avax _) Hfunds).
    cbn [require mbind result_bind bind].
    change (balanceOf (setPayout _ _ s) r) with (balanceOf s r).
    rewrite (add256_fits (balanceOf s r)) by lia.
    cbn [mbind result_bind bind].
    change (availableFunds (setBalance _ _ (setPayout _ _ s)))
      with (availableFunds s).
    rewrite (sub256_fits (availableFunds s)) by lia.
    cbn [mbind result_bind bind].
    change (totalPayouts (setAvailableFunds _ (setBalance _ _ (setPayout _ _ s))))
      with (totalPayouts s).
    rewrite (add256_fits (totalPayouts s)) by lia.
    cbn [mbind result_bind bind]. eexists. reflexivity. }
  destruct Hcall as (s' & Hcall). exists s'. split; [exact Hcall|].
  destruct (processPayout_effect _ _ _ _ _ _ _ Hcall)
    as (_ & _ & avax' & Hconv' & _ & Hrec & Hb & _ & Hav & Htp & _).
  assert (avax' = avax) by congruence. subst avax'. auto.
Qed.

Lemma funded_payout_goes_through_witness :
  exists s',
    processPayout MoreScenarios.calm (claimsProcessor Scenarios.fundedManager)
      1 7 5000000 Scenarios.fundedManager = Ok s' /\
    balanceOf s' 7 = balanceOf Scenarios.fundedManager 7 + 25000000000000.
Proof.
  assert (Hreach : reachable Scenarios.fundedManager).
  { exists 1, 2, 3. apply managerAfter_reaches. }
  assert (Hnew : claimId (payoutAt Scenarios.fundedManager 1) = 0)
    by (vm_compute; reflexivity).
  assert (Hu : 0 < 5000000) by lia.
  assert (Hconv : convertUSDToAVAX MoreScenarios.calm Scenarios.fundedManager
                    5000000 = Ok 25000000000000) by (vm_compute; reflexivity).
  assert (Hfunds : 25000000000000 <= availableFunds Scenarios.fundedManager)
    by (vm_compute; discriminate).
  assert (Htotal : totalPayouts Scenarios.fundedManager + 25000000000000
                   <= MAX_UINT256) by (vm_compute; discriminate).
  destruct (funded_payout_goes_through MoreScenarios.calm 1 7 5000000
              25000000000000 Scenarios.fundedManager
              Hreach Hnew Hu Hconv Hfunds Htotal)
    as (s' & Hcall & _ & Hb & _).
  exists s'. split; [exact Hcall | exact Hb].
Defined.

(** X27: the payout records keep their shape. In every reachable state the
    record of an id is never marked as withdrawn, not even after the
    recipient has withdrawn the amount; a record that is not marked as
    processed is the empty record; and a record marked as processed carries
    the id it is stored under and a positive amount. *)
Theorem payout_never_marked_withdrawn (s : State) (c : Z) :
  reachable s ->
  withdrawn (payoutAt s c) = false /\
  (processed (payoutAt s c) = false -> payoutAt s c = zeroPayout) /\
  (processed (payoutAt s c) = true ->
   claimId (payoutAt s c) = c /\
   0 < usdAmount (payoutAt s c) /\ 0 <= avaxAmount (payoutAt s c)).
Proof.
  intros (d0 & c0 & f0 & Hsteps).
  assert (Hinit : forall c', filed (payoutAt (init d0 c0 f0) c') c').
  { intros c'. left. unfold payoutAt. cbn [payouts init].
    rewrite lookup_empty. reflexivity. }
  destruct (up_records _ _ (steps_uphold _ _ Hsteps) Hinit c)
    as [-> | (Hid & Hp & Hw & Hu & Ha)].
  - cbn. split; [reflexivity|]. split; [reflexivity | discriminate].
  - split; [exact Hw|]. split; [congruence | auto].
Qed.

Lemma payout_never_marked_withdrawn_witness :
  withdrawn (payoutAt MoreScenarios.drainedManager 1) = false.
Proof.
  exact (proj1 (payout_never_marked_withdrawn MoreScenarios.drainedManager 1
                  drainedManager_reachable)).
Defined.

End PayoutManagerInvariants.

(** ** The claims processor as a whole *)

Module ClaimsProcessorInvariants.
Import ClaimsProcessor ClaimsProcessorViews ResultFacts ClaimsProcessorProofs.

(** *** The loop of removeReviewer *)

Lemma removeLoop_absent (fuel i : nat) (r : address) (l : list address) :
  r ∉ l -> removeLoop fuel i r l = l.
Proof.
  intros Hr. revert i. induction fuel as [|fuel IH]; intros i; [reflexivity|].
  cbn [removeLoop]. destruct (Nat.ltb_spec i (length l)) as [Hi|Hi]; [|reflexivity].
  destruct (Z.eqb_spec (nth i l 0) r) as [He|Hne]; [|apply IH].
  exfalso. apply Hr. rewrite <- He. apply list_elem_of_In, nth_In. exact Hi.
Qed.

Lemma removeLoop_first (fuel i : nat) (r : address) (l1 l2 : list address) :
  r ∉ l1 ->
  (i <= length l1)%nat ->
  (length l1 - i < fuel)%nat ->
  removeLoop fuel i r (l1 ++ r :: l2)
  = List.removelast
      (<[length l1 := List.last (l1 ++ r :: l2) 0]> (l1 ++ r :: l2)).
Proof.
  intros Hr. revert i. induction fuel as [|fuel IH]; intros i Hi Hfuel; [lia|].
  cbn [removeLoop].
  assert (Hlen : (i < length (l1 ++ r :: l2))%nat).
  { rewrite length_app. cbn [length]. lia. }
  rewrite (proj2 (Nat.ltb_lt _ _) Hlen).
  destruct (decide (i = length l1)) as [->|Hne].
  - rewrite nth_middle, Z.eqb_refl. reflexivity.
  - assert (Hi' : (i < length l1)%nat) by lia.
    rewrite app_nth1 by exact Hi'.
    destruct (Z.eqb_spec (nth i l1 0) r) as [He|_].
    + exfalso. apply Hr. rewrite <- He. apply list_elem_of_In, nth_In. exact Hi'.
    + apply IH; lia.
Qed.

Lemma swap_and_pop (r : address) (l1 l2 : list address) :
  List.removelast
    (<[length l1 := List.last (l1 ++ r :: l2) 0]> (l1 ++ r :: l2))
  ≡ₚ l1 ++ l2.
Proof.
  rewrite insert_app_r_alt by lia. rewrite Nat.sub_diag. cbn [insert list_insert].
  destruct l2 as [|y l2 _] using rev_ind.
  - replace (List.removelast (l1 ++ [List.last (l1 ++ [r]) 0])) with l1.
    + rewrite app_nil_r. reflexivity.
    + rewrite List.last_last, List.removelast_last. reflexivity.
  - replace (List.removelast
               (l1 ++ List.last (l1 ++ r :: l2 ++ [y]) 0 :: l2 ++ [y]))
      with (l1 ++ y :: l2).
    + apply Permutation_app_head. apply Permutation_cons_append.
    + rewrite (app_comm_cons l2 [y] r), (app_assoc l1 (r :: l2) [y]).
      rewrite List.last_last.
      rewrite (app_comm_cons l2 [y] y), (app_assoc l1 (y :: l2) [y]).
      rewrite List.removelast_last. reflexivity.
Qed.

(** *** What a call changes *)

Lemma advances_refl (a : Claim) : advances a a.
Proof. split; [reflexivity|]. left. split; reflexivity. Qed.

Lemma moves_trans (a b c : ClaimStatus) : moves a b -> moves b c -> moves a c.
Proof. destruct a, b; cbn; intuition (subst; cbn in *; intuition congruence). Qed.

Lemma advances_trans (a b c : Claim) :
  advances a b -> advances b c -> advances a c.
Proof.
  intros (Hi1 & H1) (Hi2 & H2). split; [congruence|].
  destruct H1 as [(Hs1 & Hr1)|(Hm1 & Hr1)], H2 as [(Hs2 & Hr2)|(Hm2 & Hr2)].
  - left. split; congruence.
  - right. rewrite <- Hs1. auto.
  - right. rewrite Hs2. split; [exact Hm1|]. intros Hu. rewrite Hr2. auto.
  - right. split; [eapply moves_trans; eassumption | exact Hr2].
Qed.

Lemma same_settings_refl (s : State) : same_settings s s.
Proof. repeat split. Qed.

Lemma same_wiring_refl (s : State) : same_wiring s s.
Proof. repeat split. Qed.

Lemma same_wiring_trans (s1 s2 s3 : State) :
  same_wiring s1 s2 -> same_wiring s2 s3 -> same_wiring s1 s3.
Proof. unfold same_wiring. intuition congruence. Qed.

Lemma approveClaim_shape env id p w w' :
  _approveClaim env id p w = Ok w' ->
  same_wiring (cp w) (cp w') /\ same_settings (cp w) (cp w') /\
  identity (claimAt (cp w') id) = identity (claimAt (cp w) id) /\
  requiresHumanReview (claimAt (cp w') id)
  = requiresHumanReview (claimAt (cp w) id) /\
  (status (claimAt (cp w') id) = Approved \/
   status (claimAt (cp w') id) = Paid).
Proof.
  unfold _approveClaim. intros H.
  destruct (payoutManager _ =? 0).
  - inv_ok. subst w'. cbn [cp setCp]. rewrite claimAt_updClaim_eq.
    repeat split. left. reflexivity.
  - inv_ok. subst w'. cbn [cp]. rewrite !claimAt_updClaim_eq.
    repeat split. right. reflexivity.
Qed.

Lemma call_shape env sender m w w' :
  exec env sender m w = Ok w' ->
  same_wiring (cp w) (cp w') /\
  ((by_admin m = true /\ sender = admin (cp w) /\
    claims (cp w') = claims (cp w) /\
    nextClaimId (cp w') = nextClaimId (cp w)) \/
   (by_admin m = false /\ same_settings (cp w) (cp w') /\
    exists p d e, m = SubmitClaim p d e /\
      nextClaimId (cp w') = nextClaimId (cp w) + 1 /\
      nextClaimId (cp w) + 1 <= MAX_UINT256 /\
      claimAt (cp w') (nextClaimId (cp w))
      = mkClaim (nextClaimId (cp w)) p sender d e (now env)
                Submitted 0 0 0 0 0 0 false 0 /\
      forall c, c <> nextClaimId (cp w) ->
        claimAt (cp w') c = claimAt (cp w) c) \/
   (by_admin m = false /\ same_settings (cp w) (cp w') /\
    nextClaimId (cp w') = nextClaimId (cp w) /\
    exists id,
      (forall c, c <> id -> claimAt (cp w') c = claimAt (cp w) c) /\
      advances (claimAt (cp w) id) (claimAt (cp w') id))).
Proof.
  unfold exec. intros H. inv_ok.
  match goal with Hwf : wf_msg _ = true |- _ => clear Hwf end.
  destruct m.
  - unfold onCp, setPayoutManager in H. inv_ok. subst.
    split; [repeat split|]. left. repeat split.
  - unfold onCp, setAIOracle in H. inv_ok. subst.
    split; [repeat split|]. left. repeat split.
  - unfold onCp, addReviewer in H. inv_ok. subst.
    split; [repeat split|]. left. repeat split.
  - unfold onCp, removeReviewer in H. inv_ok. subst.
    split; [repeat split|]. left. repeat split.
  - unfold onCp, setThresholds in H. inv_ok. subst.
    split; [repeat split|]. left. repeat split.
  - (* submitClaim *)
    unfold submitClaim in H. inv_ok.
    match goal with x : (Z * World)%type |- _ => destruct x as [id w1] end.
    inv_ok. subst. cbn [cp].
    split; [repeat split|]. right. left. split; [reflexivity|].
    split; [repeat split|].
    eexists _, _, _. split; [reflexivity|].
    split; [reflexivity|]. split; [assumption|]. split.
    + unfold claimAt, setClaims. cbn [claims].
      rewrite lookup_insert_eq. reflexivity.
    + intros c Hc. unfold claimAt, setClaims. cbn [claims].
      rewrite lookup_insert_ne by congruence. reflexivity.
  - (* submitAIAnalysis *)
    pose proof (submitAIAnalysis_touches _ _ _ _ _ _ _ _ _ H)
      as (Hst & Hothers & Hnext & _).
    assert (Hgoal :
      same_wiring (cp w) (cp w') /\ same_settings (cp w) (cp w') /\
      advances (claimAt (cp w) _claimId) (claimAt (cp w') _claimId)).
    { unfold submitAIAnalysis in H. inv_ok.
      destruct (_ && _).
      - apply approveClaim_shape in H.
        destruct H as (Hw & Hs & Hi & Hr & Ho).
        cbn [cp setCp] in *. unfold recordAnalysis in *.
        rewrite claimAt_updClaim_eq in Hi, Hr.
        split; [exact Hw|]. split; [exact Hs|].
        split; [exact Hi|]. right. rewrite Hst.
        split; [destruct Ho as [-> | ->]; cbn; auto|].
        intros Hu. destruct Ho as [Ho|Ho]; congruence.
      - destruct (_ <? _).
        + inv_ok. subst w'. cbn [cp setCp]. unfold recordAnalysis.
          rewrite !claimAt_updClaim_eq.
          split; [repeat split|]. split; [repeat split|].
          split; [reflexivity|]. right. rewrite Hst. cbn.
          split; [auto|discriminate].
        + inv_ok. subst w'. cbn [cp setCp].
          match goal with
          | Hr : _requestRandomReviewer _ _ _ = Ok _ |- _ =>
              unfold _requestRandomReviewer in Hr; inv_ok;
              destruct (requestId env); inv_ok
          end.
          subst. unfold recordAnalysis.
          change (claimAt (setRequest ?q ?c ?s) ?i) with (claimAt s i).
          rewrite !claimAt_updClaim_eq.
          split; [repeat split|]. split; [repeat split|].
          split; [reflexivity|]. right. rewrite Hst. cbn.
          split; [auto|reflexivity]. }
    destruct Hgoal as (Hw & Hs & Ha).
    split; [exact Hw|]. right. right. split; [reflexivity|]. split; [exact Hs|].
    split; [exact Hnext|]. exists _claimId. split; [|exact Ha].
    intros c Hc. apply Hothers. exact Hc.
  - (* reviewerApproveClaim *)
    pose proof (reviewerApproveClaim_touches _ _ _ _ _ _ H)
      as (Hst & _ & _ & Hothers & Hnext & _).
    unfold reviewerApproveClaim in H. inv_ok.
    apply approveClaim_shape in H. destruct H as (Hw & Hs & Hi & Hr & Ho).
    split; [exact Hw|]. right. right. split; [reflexivity|]. split; [exact Hs|].
    split; [exact Hnext|]. exists _claimId.
    split; [intros c Hc; apply Hothers; exact Hc|].
    split; [exact Hi|]. right. rewrite Hst.
    split; [destruct Ho as [-> | ->]; cbn; auto|].
    intros Hu. destruct Ho as [Ho|Ho]; congruence.
  - (* reviewerRejectClaim *)
    pose proof (reviewerRejectClaim_touches _ _ _ _ _ _ H)
      as (Hst & _ & _ & Hothers & Hnext & _).
    unfold reviewerRejectClaim in H. inv_ok. subst w'. cbn [cp setCp] in *.
    split; [repeat split|]. right. right. split; [reflexivity|]. split; [repeat split|].
    split; [reflexivity|]. exists _claimId.
    split; [intros c Hc; apply Hothers; exact Hc|].
    rewrite claimAt_updClaim_eq.
    split; [reflexivity|]. right. rewrite Hst. cbn.
    split; [auto|discriminate].
  - (* rawFulfillRandomWords *)
    unfold onCp in H. inv_ok. subst w'.
    match goal with
    | Hf : rawFulfillRandomWords _ _ _ _ = Ok _ |- _ =>
        apply rawFulfillRandomWords_inv in Hf;
        destruct Hf as (_ & _ & r & _ & ->)
    end.
    cbn [cp setCp].
    split; [repeat split|]. right. right. split; [reflexivity|]. split; [repeat split|].
    split; [reflexivity|]. exists (requestClaim (cp w) _requestId).
    split; [intros c Hc; apply claimAt_updClaim_ne; congruence|].
    rewrite claimAt_updClaim_eq.
    split; [reflexivity|]. left. split; reflexivity.
Qed.

(** *** Claims through the steps *)

Lemma claimAt_same_claims (s s' : State) (c : Z) :
  claims s' = claims s -> claimAt s' c = claimAt s c.
Proof. unfold claimAt. intros ->. reflexivity. Qed.

Lemma call_advances env sender m w w' :
  exec env sender m w = Ok w' ->
  nextClaimId (cp w) <= nextClaimId (cp w') /\
  forall c, created (cp w) c ->
    advances (claimAt (cp w) c) (claimAt (cp w') c).
Proof.
  intros H. destruct (call_shape _ _ _ _ _ H) as (_ & Hshape).
  destruct Hshape as [(_ & _ & Hc & Hn)|[(_ & _ & Hsub)|(_ & _ & Hn & Hone)]].
  - split; [lia|]. intros c _.
    rewrite (claimAt_same_claims _ _ c Hc). apply advances_refl.
  - destruct Hsub as (p & d & e & _ & Hn & _ & _ & Hothers).
    split; [lia|]. intros c [_ Hc].
    rewrite Hothers by lia. apply advances_refl.
  - destruct Hone as (id & Hothers & Hadv).
    split; [lia|]. intros c _.
    destruct (decide (c = id)) as [->|Hne]; [exact Hadv|].
    rewrite Hothers by exact Hne. apply advances_refl.
Qed.

Lemma step_advances (w w' : World) :
  step w w' ->
  nextClaimId (cp w) <= nextClaimId (cp w') /\
  forall c, created (cp w) c ->
    advances (claimAt (cp w) c) (claimAt (cp w') c).
Proof.
  intros [env sender m w1 w2 H|w1 reg man].
  - eapply call_advances, H.
  - cbn [cp]. split; [lia|]. intros c _. apply advances_refl.
Qed.

Lemma steps_advance (w w' : World) :
  rtc step w w' ->
  nextClaimId (cp w) <= nextClaimId (cp w') /\
  forall c, created (cp w) c ->
    advances (claimAt (cp w) c) (claimAt (cp w') c).
Proof.
  induction 1 as [w|w1 w2 w3 H12 _ IH].
  - split; [lia|]. intros c _. apply advances_refl.
  - destruct (step_advances _ _ H12) as (Hn & Ha), IH as (Hn' & Ha').
    split; [lia|]. intros c Hc.
    eapply advances_trans; [apply Ha, Hc|].
    apply Ha'. unfold created in *. lia.
Qed.

Lemma reviewWorld_reachable : reachable Scenarios.reviewWorld.
Proof.
  exists 1, 400, 200, (registry Scenarios.world0), (manager Scenarios.world0).
  exact (worldAfter_reaches _ Scenarios.world0).
Defined.

Lemma moves_settled (a b : ClaimStatus) :
  moves a b -> b <> AIAnalyzed /\ b <> Submitted.
Proof. destruct a; cbn; intuition (subst; discriminate). Qed.

Lemma identity_claimId (a b : Claim) :
  identity b = identity a -> claimId b = claimId a.
Proof. unfold identity. intros [= -> _ _ _ _ _]. reflexivity. Qed.

Lemma call_keeps_claims env sender m w w' :
  exec env sender m w = Ok w' -> well_kept (cp w) -> well_kept (cp w').
Proof.
  intros H (Hrange & Hall).
  destruct (call_shape _ _ _ _ _ H) as (_ & Hshape).
  destruct Hshape as [(_ & _ & Hc & Hn)|[(_ & _ & Hsub)|(_ & _ & Hn & Hone)]].
  - split; [lia|]. intros c.
    rewrite (claimAt_same_claims _ _ c Hc). unfold created. rewrite Hn.
    apply Hall.
  - destruct Hsub as (p & d & e & _ & Hn & Hfits & Hnew & Hothers).
    split; [lia|]. intros c.
    destruct (decide (c = nextClaimId (cp w))) as [->|Hne].
    + rewrite Hnew. cbn [claimId status requiresHumanReview].
      rewrite bool_decide_eq_true_2 by (unfold created; lia).
      split; [reflexivity|]. split; discriminate.
    + rewrite Hothers by exact Hne.
      destruct (Hall c) as (Hid & Hrest). split; [|exact Hrest].
      rewrite Hid. unfold created. rewrite Hn.
      repeat case_bool_decide; (reflexivity || lia).
  - destruct Hone as (id & Hothers & Hadv).
    split; [lia|]. intros c. unfold created. rewrite Hn.
    destruct (decide (c = id)) as [->|Hne].
    + destruct (Hall id) as (Hid & Hst & Hur).
      destruct Hadv as (Hident & Hmove).
      split; [rewrite (identity_claimId _ _ Hident); exact Hid|].
      destruct Hmove as [(Hs & Hr)|(Hm & Hr)].
      * rewrite Hs, Hr. auto.
      * split; [apply (moves_settled _ _ Hm) | exact Hr].
    + rewrite Hothers by exact Hne. apply Hall.
Qed.

Lemma init_well_kept (d v r : address) : well_kept (init d v r).
Proof.
  split; [cbn; unfold MAX_UINT256; lia|]. intros c.
  unfold claimAt. cbn [claims init]. rewrite lookup_empty. cbn.
  rewrite bool_decide_eq_false_2 by (unfold created; cbn; lia).
  split; [reflexivity|]. split; discriminate.
Qed.

Lemma reachable_well_kept (w : World) : reachable w -> well_kept (cp w).
Proof.
  intros (d & v & r & reg & man & Hsteps).
  apply (rtc_ind_r (R := step)
           (fun w' => well_kept (cp w'))
           (mkWorld (init d v r) reg man)); [apply init_well_kept| |exact Hsteps].
  intros w1 w2 _ H12 IH. destruct H12 as [env sender m w1 w2 H|w1 reg' man'].
  - eapply call_keeps_claims; eassumption.
  - exact IH.
Qed.

(** *** The reviewers *)

Lemma in_sync_same (s s' : State) :
  same_settings s s' -> reviewers_in_sync s -> reviewers_in_sync s'.
Proof.
  intros (_ & _ & _ & _ & Hr & Ha) (Hnd & Hiff).
  unfold reviewers_in_sync, isReviewer in *. rewrite Hr, Ha. auto.
Qed.

Lemma addReviewer_in_sync sender a s s' :
  addReviewer sender a s = Ok s' -> reviewers_in_sync s -> reviewers_in_sync s'.
Proof.
  unfold addReviewer. intros H (Hnd & Hiff). inv_ok. subst s'.
  match goal with Hn : negb _ = true |- _ => apply negb_true_iff in Hn; rename Hn into Hnew end.
  assert (Hnotin : a ∉ activeReviewers s).
  { intros Hin. apply Hiff in Hin. congruence. }
  unfold reviewers_in_sync, isReviewer in *. cbn [reviewers activeReviewers setReviewers].
  split.
  - apply NoDup_app. split; [exact Hnd|]. split; [|apply NoDup_singleton].
    intros rv Hx Hx'. apply list_elem_of_singleton in Hx'. subst rv. auto.
  - intros rv. rewrite elem_of_app, list_elem_of_singleton.
    destruct (decide (a = rv)) as [->|Hne].
    + rewrite lookup_insert_eq. cbn. tauto.
    + rewrite lookup_insert_ne by exact Hne. rewrite Hiff.
      split; [tauto|]. intros [Hx|Hx]; [exact Hx|congruence].
Qed.

Lemma removeReviewer_in_sync sender a s s' :
  removeReviewer sender a s = Ok s' ->
  reviewers_in_sync s -> reviewers_in_sync s'.
Proof.
  unfold removeReviewer. intros H (Hnd & Hiff). inv_ok. subst s'.
  match goal with Hr : isReviewer _ _ = true |- _ => rename Hr into Hold end.
  apply Hiff in Hold.
  destruct (list_elem_of_split_l _ _ Hold) as (l1 & l2 & Hl & Hl1).
  unfold reviewers_in_sync, isReviewer in *.
  cbn [reviewers activeReviewers setReviewers].
  rewrite Hl in *.
  rewrite (removeLoop_first _ 0 a l1 l2 Hl1)
    by (try rewrite length_app; cbn [length]; lia).
  rewrite swap_and_pop.
  apply NoDup_app in Hnd. destruct Hnd as (Hnd1 & Hdisj & Hnd2).
  apply NoDup_cons in Hnd2. destruct Hnd2 as (Hl2 & Hnd2).
  split.
  - apply NoDup_app. split; [exact Hnd1|]. split; [|exact Hnd2].
    intros rv Hx Hx'. apply (Hdisj rv Hx). right. exact Hx'.
  - intros rv. rewrite swap_and_pop, elem_of_app.
    destruct (decide (a = rv)) as [->|Hne].
    + rewrite lookup_insert_eq. cbn. split; [discriminate|].
      intros [Hx|Hx]; contradiction.
    + rewrite lookup_insert_ne by exact Hne. rewrite Hiff.
      rewrite elem_of_app, elem_of_cons.
      split; [intros [Hx|[Hx|Hx]]; [tauto|congruence|tauto] | tauto].
Qed.

Lemma call_keeps_reviewers env sender m w w' :
  exec env sender m w = Ok w' ->
  reviewers_in_sync (cp w) -> reviewers_in_sync (cp w').
Proof.
  intros H Hsync.
  destruct (call_shape _ _ _ _ _ H) as (_ & Hshape).
  destruct Hshape as [(Hadm & _)|[(_ & Hs & _)|(_ & Hs & _)]];
    try (eapply in_sync_same; eassumption).
  unfold exec in H. inv_ok.
  destruct m; try discriminate Hadm; unfold onCp in H; inv_ok; subst w';
    cbn [cp setCp].
  - match goal with Hc : setPayoutManager _ _ _ = Ok _ |- _ =>
      unfold setPayoutManager in Hc; inv_ok; subst end. exact Hsync.
  - match goal with Hc : setAIOracle _ _ _ = Ok _ |- _ =>
      unfold setAIOracle in Hc; inv_ok; subst end. exact Hsync.
  - eapply addReviewer_in_sync; eassumption.
  - eapply removeReviewer_in_sync; eassumption.
  - match goal with Hc : setThresholds _ _ _ _ = Ok _ |- _ =>
      unfold setThresholds in Hc; inv_ok; subst end. exact Hsync.
Qed.

Lemma call_keeps_thresholds env sender m w w' :
  exec env sender m w = Ok w' ->
  thresholds_ordered (cp w) -> thresholds_ordered (cp w').
Proof.
  intros H Hord.
  destruct (call_shape _ _ _ _ _ H) as (_ & Hshape).
  assert (Hsame : same_settings (cp w) (cp w') -> thresholds_ordered (cp w')).
  { intros (_ & _ & Ha & Hr & _). unfold thresholds_ordered in *.
    rewrite Ha, Hr. exact Hord. }
  destruct Hshape as [(Hadm & _)|[(_ & Hs & _)|(_ & Hs & _)]]; auto.
  unfold exec in H.
  apply bind_Ok in H. destruct H as (? & Hwf & H). apply require_Ok in Hwf.
  destruct m; try discriminate Hadm; unfold onCp in H; inv_ok; subst w';
    cbn [cp setCp].
  - match goal with Hc : setPayoutManager _ _ _ = Ok _ |- _ =>
      unfold setPayoutManager in Hc; inv_ok; subst end. exact Hord.
  - match goal with Hc : setAIOracle _ _ _ = Ok _ |- _ =>
      unfold setAIOracle in Hc; inv_ok; subst end. exact Hord.
  - match goal with Hc : addReviewer _ _ _ = Ok _ |- _ =>
      unfold addReviewer in Hc; inv_ok; subst end. exact Hord.
  - match goal with Hc : removeReviewer _ _ _ = Ok _ |- _ =>
      unfold removeReviewer in Hc; inv_ok; subst end. exact Hord.
  - match goal with Hc : setThresholds _ _ _ _ = Ok _ |- _ =>
      unfold setThresholds in Hc; inv_ok; subst end.
    cbn [wf_msg] in Hwf. unfold is_uint8 in Hwf. inv_ok.
    unfold thresholds_ordered. cbn. lia.
Qed.

(** *** The reachable states *)

Lemma reachable_invariant (P : State -> Prop) :
  (forall d v r, P (init d v r)) ->
  (forall env sender m w w', exec env sender m w = Ok w' -> P (cp w) -> P (cp w')) ->
  forall w, reachable w -> P (cp w).
Proof.
  intros Hinit Hcall w (d & v & r & reg & man & Hsteps).
  apply (rtc_ind_r (R := step) (fun w' => P (cp w'))
           (mkWorld (init d v r) reg man)); [apply Hinit| |exact Hsteps].
  intros w1 w2 _ H12 IH. destruct H12 as [env sender m w1 w2 H|w1 reg' man'].
  - eapply Hcall; eassumption.
  - exact IH.
Qed.

Lemma reviewWorld_created : created (cp Scenarios.reviewWorld) 1.
Proof. vm_compute. split; [discriminate|reflexivity]. Defined.

Lemma init_in_sync (d v r : address) : reviewers_in_sync (init d v r).
Proof.
  split; [apply NoDup_nil_2|]. intros a.
  unfold isReviewer. cbn. rewrite lookup_empty. cbn.
  split; [discriminate|]. intros Ha. inversion Ha.
Qed.

(** X13: in every reachable state of the claims processor the array
    [activeReviewers] and the flags [reviewers] agree: an address is in the
    array exactly when its flag is set, and no address is in the array
    twice. *)
Theorem reviewer_list_matches_flags (w : World) :
  reachable w -> reviewers_in_sync (cp w).
Proof.
  apply (reachable_invariant reviewers_in_sync);
    [apply init_in_sync | apply call_keeps_reviewers].
Qed.

Lemma reviewer_list_matches_flags_witness :
  reviewers_in_sync (cp Scenarios.reviewWorld).
Proof.
  exact (reviewer_list_matches_flags Scenarios.reviewWorld reviewWorld_reachable).
Defined.

(** X14: the loop of [removeReviewer]. When the reviewer is not in the
    array the loop leaves the array as it is. Otherwise it removes the first
    occurrence: the array it leaves is a permutation of the entries before
    and after that occurrence (the last entry takes its place), one entry
    shorter. *)
Theorem removeLoop_removes_first (r : address) (l : list address) :
  ((r ∉ l) /\ removeLoop (length l) 0 r l = l) \/
  (exists l1 l2, l = l1 ++ r :: l2 /\ (r ∉ l1) /\
     removeLoop (length l) 0 r l ≡ₚ l1 ++ l2 /\
     S (length (removeLoop (length l) 0 r l)) = length l).
Proof.
  destruct (decide (r ∈ l)) as [Hin|Hout].
  - right. destruct (list_elem_of_split_l _ _ Hin) as (l1 & l2 & -> & Hl1).
    exists l1, l2. split; [reflexivity|]. split; [exact Hl1|].
    rewrite (removeLoop_first _ 0 r l1 l2 Hl1)
      by (try rewrite length_app; cbn [length]; lia).
    split; [apply swap_and_pop|].
    rewrite swap_and_pop, !length_app. cbn [length]. lia.
  - left. split; [exact Hout | apply removeLoop_absent, Hout].
Qed.

(** X15: in a reachable state, a fulfilment for a request that belongs to
    a claim, carrying a first random word, always returns: the index
    [word % length] is within the array. It assigns to the claim the entry
    at that index, a registered reviewer; or the administrator when no
    reviewer is active. *)
Theorem fulfilment_assigns_registered_reviewer (w : World) (q word : Z)
    (ws : list Z) :
  reachable w ->
  0 < requestClaim (cp w) q ->
  0 <= word ->
  exists r,
    fulfillRandomWords q (word :: ws) (cp w)
    = Ok (updClaim (requestClaim (cp w) q) (withReviewer r) (cp w)) /\
    ((activeReviewers (cp w) = [] /\ r = admin (cp w)) \/
     (activeReviewers (cp w)
        !! Z.to_nat (word mod Z.of_nat (length (activeReviewers (cp w))))
      = Some r /\
      isReviewer (cp w) r = true)).
Proof.
  intros Hreach Hq Hword.
  destruct (reachable_invariant reviewers_in_sync init_in_sync
              call_keeps_reviewers w Hreach) as (_ & Hiff).
  unfold fulfillRandomWords.
  rewrite require_ok by (apply Z.ltb_lt; exact Hq).
  cbn [mbind result_bind bind]. unfold selectReviewer.
  destruct (activeReviewers (cp w)) as [|a l] eqn:Hl.
  - exists (admin (cp w)). cbn. split; [reflexivity|]. left. auto.
  - cbn [length Nat.eqb].
    assert (Hlen : 0 < Z.of_nat (S (length l))) by lia.
    pose proof (Z.mod_pos_bound word _ Hlen) as Hidx.
    destruct (lookup_lt_is_Some_2 (a :: l)
                (Z.to_nat (word mod Z.of_nat (S (length l)))))
      as (r & Hr); [cbn [length]; lia|].
    exists r. rewrite Hr. cbn [mbind result_bind bind].
    split; [reflexivity|]. right. split; [reflexivity|].
    apply Hiff. eapply list_elem_of_lookup_2, Hr.
Qed.

Lemma fulfilment_assigns_registered_reviewer_witness :
  exists r,
    fulfillRandomWords 77 [5] (cp Scenarios.reviewWorld)
    = Ok (updClaim (requestClaim (cp Scenarios.reviewWorld) 77)
            (withReviewer r) (cp Scenarios.reviewWorld)).
Proof.
  assert (Hq : 0 < requestClaim (cp Scenarios.reviewWorld) 77)
    by (vm_compute; reflexivity).
  assert (Hword : 0 <= 5) by lia.
  destruct (fulfilment_assigns_registered_reviewer Scenarios.reviewWorld 77 5 []
              reviewWorld_reachable Hq Hword) as (r & Hr & _).
  exists r. exact Hr.
Defined.

(** X16: in every reachable state the thresholds are ordered and fit in 8
    bits: [0 <= autoApproveThreshold < autoRejectThreshold <= 255]. *)
Theorem thresholds_stay_ordered (w : World) :
  reachable w -> thresholds_ordered (cp w).
Proof.
  apply (reachable_invariant thresholds_ordered).
  - intros d v r. unfold thresholds_ordered, MAX_UINT8. cbn. lia.
  - apply call_keeps_thresholds.
Qed.

Lemma thresholds_stay_ordered_witness :
  thresholds_ordered (cp Scenarios.reviewWorld).
Proof.
  exact (thresholds_stay_ordered Scenarios.reviewWorld reviewWorld_reachable).
Defined.

(** X17: the status [AIAnalyzed] is never stored: [submitAIAnalysis] sets
    it and replaces it before it returns, so in a reachable state no claim
    has it. And a claim that is [UnderReview] has [requiresHumanReview]
    set. *)
Theorem analysed_status_is_transient (w : World) (c : Z) :
  reachable w ->
  status (claimAt (cp w) c) <> AIAnalyzed /\
  (status (claimAt (cp w) c) = UnderReview ->
   requiresHumanReview (claimAt (cp w) c) = true).
Proof.
  intros Hreach. destruct (reachable_well_kept w Hreach) as (_ & Hall).
  apply Hall.
Qed.

Lemma analysed_status_is_transient_witness :
  requiresHumanReview (claimAt (cp Scenarios.reviewWorld) 1) = true.
Proof.
  assert (Hst : status (claimAt (cp Scenarios.reviewWorld) 1) = UnderReview)
    by (vm_compute; reflexivity).
  exact (proj2 (analysed_status_is_transient Scenarios.reviewWorld 1
                  reviewWorld_reachable) Hst).
Defined.

(** X18: the status of a created claim only moves forward. Through any
    steps, it stays as it is or moves from [Submitted] to [UnderReview],
    [Approved], [Rejected] or [Paid], or from [UnderReview] to [Approved],
    [Rejected] or [Paid]. In particular a claim approved while no payout
    manager was set stays [Approved]: it is not paid later. *)
Theorem status_only_moves_forward (w w' : World) (c : Z) :
  rtc step w w' ->
  created (cp w) c ->
  (status (claimAt (cp w') c) = status (claimAt (cp w) c) \/
   moves (status (claimAt (cp w) c)) (status (claimAt (cp w') c))) /\
  (status (claimAt (cp w) c) = Approved ->
   status (claimAt (cp w') c) = Approved).
Proof.
  intros Hsteps Hc.
  destruct (steps_advance _ _ Hsteps) as (_ & Hadv).
  destruct (Hadv c Hc) as (_ & [(Hs & _)|(Hm & _)]).
  - split; [left; exact Hs|]. congruence.
  - split; [right; exact Hm|]. intros Ha. rewrite Ha in Hm. destruct Hm.
Qed.

Lemma status_only_moves_forward_witness :
  status (claimAt (cp Scenarios.rejectedWorld) 1)
  = status (claimAt (cp Scenarios.reviewWorld) 1) \/
  moves (status (claimAt (cp Scenarios.reviewWorld) 1))
        (status (claimAt (cp Scenarios.rejectedWorld) 1)).
Proof.
  assert (Hsteps : rtc step Scenarios.reviewWorld Scenarios.rejectedWorld).
  { unfold Scenarios.rejectedWorld, Scenarios.assignedWorld.
    etrans; apply worldAfter_reaches. }
  exact (proj1 (status_only_moves_forward Scenarios.reviewWorld
                  Scenarios.rejectedWorld 1 Hsteps reviewWorld_created)).
Defined.

(** X19: what [submitClaim] records of a claim is permanent: through any
    steps a created claim stays created and keeps its id, policy, claimant,
    description, evidence and time of submission. *)
Theorem claim_identity_is_permanent (w w' : World) (c : Z) :
  rtc step w w' ->
  created (cp w) c ->
  created (cp w') c /\
  identity (claimAt (cp w') c) = identity (claimAt (cp w) c).
Proof.
  intros Hsteps Hc.
  destruct (steps_advance _ _ Hsteps) as (Hn & Hadv).
  split; [unfold created in *; lia|]. apply (Hadv c Hc).
Qed.

Lemma claim_identity_is_permanent_witness :
  created (cp Scenarios.rejectedWorld) 1 /\
  identity (claimAt (cp Scenarios.rejectedWorld) 1)
  = identity (claimAt (cp Scenarios.reviewWorld) 1).
Proof.
  assert (Hsteps : rtc step Scenarios.reviewWorld Scenarios.rejectedWorld).
  { unfold Scenarios.rejectedWorld, Scenarios.assignedWorld.
    etrans; apply worldAfter_reaches. }
  exact (claim_identity_is_permanent Scenarios.reviewWorld
           Scenarios.rejectedWorld 1 Hsteps reviewWorld_created).
Defined.

(** X20: claim ids are assigned from 1 without gaps. In a reachable state
    [nextClaimId] is at least 1 and fits in 256 bits, the record at a
    created id carries that id, and the record at any other id carries the
    id 0 (whatever an analysis of an id never submitted wrote there). *)
Theorem claim_ids_are_sequential (w : World) (c : Z) :
  reachable w ->
  1 <= nextClaimId (cp w) <= MAX_UINT256 /\
  (created (cp w) c -> claimId (claimAt (cp w) c) = c) /\
  (~ created (cp w) c -> claimId (claimAt (cp w) c) = 0).
Proof.
  intros Hreach. destruct (reachable_well_kept w Hreach) as (Hrange & Hall).
  destruct (Hall c) as (Hid & _).
  split; [exact Hrange|]. rewrite Hid.
  split; intros Hc.
  - rewrite bool_decide_eq_true_2 by exact Hc. reflexivity.
  - rewrite bool_decide_eq_false_2 by exact Hc. reflexivity.
Qed.

Lemma claim_ids_are_sequential_witness :
  claimId (claimAt (cp Scenarios.reviewWorld) 1) = 1.
Proof.
  exact (proj1 (proj2 (claim_ids_are_sequential Scenarios.reviewWorld 1
                         reviewWorld_reachable)) reviewWorld_created).
Defined.

(** X23: no call changes the administrator, the coordinator or the
    registry address of the claims processor; the calls under [onlyAdmin]
    succeed only for the administrator; and a successful call by anyone else
    leaves the payout manager, the oracle, the thresholds and the reviewers
    as they are. *)
Theorem settings_change_only_by_admin (env : Env) (sender : address) (m : msg)
    (w w' : World) :
  exec env sender m w = Ok w' ->
  same_wiring (cp w) (cp w') /\
  (by_admin m = true -> sender = admin (cp w)) /\
  (sender <> admin (cp w) -> same_settings (cp w) (cp w')).
Proof.
  intros H. destruct (call_shape _ _ _ _ _ H) as (Hw & Hshape).
  split; [exact Hw|].
  destruct Hshape as [(Hadm & Hs & _)|[(Hadm & Hs & _)|(Hadm & Hs & _)]].
  - split; [auto|]. intros Hne. contradiction.
  - split; [congruence | auto].
  - split; [congruence | auto].
Qed.

Lemma settings_change_only_by_admin_witness :
  same_settings (cp Scenarios.reviewWorld) (cp Scenarios.assignedWorld).
Proof.
  assert (Hcall :
    exec Scenarios.chain 400 (RawFulfillRandomWords 77 [0]) Scenarios.reviewWorld
    = Ok Scenarios.assignedWorld) by (vm_compute; reflexivity).
  assert (Hne : 400 <> admin (cp Scenarios.reviewWorld))
    by (vm_compute; discriminate).
  exact (proj2 (proj2 (settings_change_only_by_admin _ _ _ _ _ Hcall)) Hne).
Defined.

(** *** The two loops of the views *)

Lemma seqZ_step (i : Z) (fuel : nat) :
  seqZ i (Z.of_nat (S fuel)) = i :: seqZ (i + 1) (Z.of_nat fuel).
Proof.
  rewrite seqZ_cons by lia. f_equal. f_equal; lia.
Qed.

Lemma countLoop_counts (p : Z -> bool) (next : Z) (fuel : nat) (i count : Z) :
  i + Z.of_nat fuel = next ->
  countLoop fuel i next p count
  = count + Z.of_nat (length (filter (fun j => p j = true)
                                (seqZ i (Z.of_nat fuel)))).
Proof.
  revert i count. induction fuel as [|fuel IH]; intros i count Hi.
  - cbn [countLoop]. rewrite seqZ_nil by (cbn; lia). cbn. lia.
  - cbn [countLoop]. rewrite (proj2 (Z.ltb_lt i next)) by lia.
    rewrite IH by lia. rewrite seqZ_step, filter_cons.
    destruct (p i); cbn [decide].
    + rewrite decide_True by reflexivity. cbn [length]. lia.
    + rewrite decide_False by discriminate. lia.
Qed.

Lemma fillLoop_fills (p : Z -> bool) (next : Z) (fuel : nat) (i : Z)
    (done : list Z) :
  i + Z.of_nat fuel = next ->
  fillLoop fuel i next p (length done)
    (done ++ replicate (length (filter (fun j => p j = true)
                                  (seqZ i (Z.of_nat fuel)))) 0)
  = Ok (done ++ filter (fun j => p j = true) (seqZ i (Z.of_nat fuel))).
Proof.
  revert i done. induction fuel as [|fuel IH]; intros i done Hi.
  - cbn [fillLoop]. rewrite seqZ_nil by (cbn; lia). cbn.
    rewrite app_nil_r. reflexivity.
  - cbn [fillLoop]. rewrite (proj2 (Z.ltb_lt i next)) by lia.
    rewrite seqZ_step, filter_cons.
    destruct (p i) eqn:Hp.
    + rewrite decide_True by reflexivity. cbn [length replicate].
      rewrite (proj2 (Nat.ltb_lt _ _))
        by (rewrite length_app; cbn [length]; lia).
      rewrite insert_app_r_alt by lia. rewrite Nat.sub_diag.
      cbn [insert list_insert].
      replace (S (length done)) with (length (done ++ [i]))
        by (rewrite length_app; cbn [length]; lia).
      match goal with
      | |- fillLoop _ _ _ _ _ (done ++ i :: ?t) = _ =>
          replace (done ++ i :: t) with ((done ++ [i]) ++ t)
            by (rewrite <- app_assoc; reflexivity)
      end.
      rewrite IH by lia. rewrite <- app_assoc. reflexivity.
    + rewrite decide_False by discriminate. apply IH. lia.
Qed.

Lemma collect_filters (s : State) (p : Z -> bool) :
  collect s p
  = Ok (filter (fun j => p j = true) (seqZ 1 (nextClaimId s - 1))).
Proof.
  unfold collect.
  destruct (Z.le_gt_cases 1 (nextClaimId s)) as [Hn|Hn].
  - remember (Z.to_nat (nextClaimId s - 1)) as n eqn:Hfuel.
    assert (Hlen : Z.of_nat n = nextClaimId s - 1) by lia.
    rewrite countLoop_counts by lia.
    rewrite <- Hlen, Z.add_0_l, Nat2Z.id.
    apply (fillLoop_fills p (nextClaimId s) n 1 []). lia.
  - replace (Z.to_nat (nextClaimId s - 1)) with 0%nat by lia.
    rewrite seqZ_nil by lia. reflexivity.
Qed.

(** X21: [getUserClaims] returns the ids from 1 to [nextClaimId - 1] whose
    claimant is the user, in increasing order; its second loop never writes
    past the end of the array the first loop sized. *)
Theorem getUserClaims_lists_claims_of_user (s : State) (user : address) :
  getUserClaims s user
  = Ok (filter (fun c => claimant (claimAt s c) = user)
          (seqZ 1 (nextClaimId s - 1))).
Proof.
  unfold getUserClaims. rewrite collect_filters. f_equal.
  apply list_filter_iff. intros c. apply Z.eqb_eq.
Qed.

(** X22: [getClaimsForReview] reverts for a caller that is not a reviewer;
    for a reviewer it returns the ids from 1 to [nextClaimId - 1] of the
    claims that are [UnderReview] and assigned to the caller, in increasing
    order. *)
Theorem getClaimsForReview_lists_assigned_claims (sender : address)
    (s : State) :
  (isReviewer s sender = false ->
   getClaimsForReview sender s = Err OnlyReviewer) /\
  (isReviewer s sender = true ->
   getClaimsForReview sender s
   = Ok (filter (fun c => status (claimAt s c) = UnderReview /\
                          assignedReviewer (claimAt s c) = sender)
           (seqZ 1 (nextClaimId s - 1)))).
Proof.
  unfold getClaimsForReview. split; intros ->; [reflexivity|].
  cbn [require mbind result_bind bind]. rewrite collect_filters. f_equal.
  apply list_filter_iff. intros c.
  rewrite andb_true_iff, bool_decide_eq_true, Z.eqb_eq. reflexivity.
Qed.

Lemma getClaimsForReview_lists_assigned_claims_witness :
  getClaimsForReview 11 (cp Scenarios.assignedWorld)
  = Ok (filter (fun c =>
                  status (claimAt (cp Scenarios.assignedWorld) c) = UnderReview /\
                  assignedReviewer (claimAt (cp Scenarios.assignedWorld) c) = 11)
          (seqZ 1 (nextClaimId (cp Scenarios.assignedWorld) - 1))).
Proof.
  assert (Hrev : isReviewer (cp Scenarios.assignedWorld) 11 = true)
    by (vm_compute; reflexivity).
  exact (proj2 (getClaimsForReview_lists_assigned_claims 11
                  (cp Scenarios.assignedWorld)) Hrev).
Defined.

(** *** The three contracts together *)

Lemma recordPayout_effect sender id a s s' :
  PolicyRegistry.recordPayout sender id a s = Ok s' ->
  sender = PolicyRegistry.claimsProcessor s /\
  PolicyRegistry.policyId (PolicyRegistry.policyAt s id) = id /\
  PolicyRegistry.isActive (PolicyRegistry.policyAt s id) = true /\
  PolicyRegistry.totalPayouts (PolicyRegistry.policyAt s' id)
  = PolicyRegistry.totalPayouts (PolicyRegistry.policyAt s id) + a.
Proof.
  unfold PolicyRegistry.recordPayout. intros H. inv_ok. subst s'.
  rewrite PolicyRegistryInvariants.policyAt_setPolicy_eq. cbn. auto.
Qed.

Lemma recordPayout_inactive sender id a s :
  PolicyRegistry.isActive (PolicyRegistry.policyAt s id) = false ->
  exists e, PolicyRegistry.recordPayout sender id a s = Err e.
Proof.
  intros Hoff. unfold PolicyRegistry.recordPayout.
  destruct (require (sender =? _) _); cbn [mbind result_bind bind]; [|eauto].
  destruct (require (_ =? id) _); cbn [mbind result_bind bind]; [|eauto].
  rewrite Hoff. cbn. eauto.
Qed.

Lemma approveClaim_inactive env c p w :
  payoutManager (cp w) <> 0 ->
  PolicyRegistry.isActive
    (PolicyRegistry.policyAt (registry w) (policyId (claimAt (cp w) c)))
  = false ->
  exists e, _approveClaim env c p w = Err e.
Proof.
  intros Hpm Hoff. unfold _approveClaim.
  change (payoutManager (updClaim _ _ (cp w))) with (payoutManager (cp w)).
  rewrite (proj2 (Z.eqb_neq _ _) Hpm).
  rewrite claimAt_updClaim_eq.
  change (claimant (withProcessedAt _ (withFinalPayout _ (withStatus _ ?x))))
    with (claimant x).
  change (policyId (withProcessedAt _ (withFinalPayout _ (withStatus _ ?x))))
    with (policyId x).
  destruct (PayoutManager.processPayout _ _ _ _ _ _) as [man|e];
    cbn [mbind result_bind bind]; [|eauto].
  destruct (recordPayout_inactive (self env) _ p _ Hoff) as (e & ->).
  cbn. eauto.
Qed.

(** X24: when a payout manager is set, a claim on an inactive policy cannot
    be approved: [reviewerApproveClaim] reverts for every caller, and so
    does [submitAIAnalysis] with a fraud risk below the approval threshold
    and a positive recommended payout, since [recordPayout] of the registry
    refuses the policy. *)
Theorem approval_needs_active_policy (env : Env) (c p : Z) (w : World) :
  payoutManager (cp w) <> 0 ->
  PolicyRegistry.isActive
    (PolicyRegistry.policyAt (registry w) (policyId (claimAt (cp w) c)))
  = false ->
  (forall sender, exists e, reviewerApproveClaim env sender c p w = Err e) /\
  (forall sender ty sev fraud,
     fraud < autoApproveThreshold (cp w) -> 0 < p ->
     exists e, submitAIAnalysis env sender c ty sev fraud p w = Err e).
Proof.
  intros Hpm Hoff. split.
  - intros sender. unfold reviewerApproveClaim.
    destruct (require (isReviewer _ _) _); cbn [mbind result_bind bind]; [|eauto].
    destruct (require (bool_decide _) _); cbn [mbind result_bind bind]; [|eauto].
    destruct (require (_ =? sender) _); cbn [mbind result_bind bind]; [|eauto].
    apply approveClaim_inactive; assumption.
  - intros sender ty sev fraud Hlow Hpos. unfold submitAIAnalysis.
    destruct (require (sender =? _) _); cbn [mbind result_bind bind]; [|eauto].
    destruct (require (bool_decide _) _); cbn [mbind result_bind bind]; [|eauto].
    change (autoApproveThreshold (recordAnalysis _ _ _ _ _ (cp w)))
      with (autoApproveThreshold (cp w)).
    rewrite (proj2 (Z.ltb_lt _ _) Hlow), (proj2 (Z.ltb_lt _ _) Hpos).
    cbn [andb].
    apply approveClaim_inactive; cbn [cp setCp registry].
    + exact Hpm.
    + unfold recordAnalysis. rewrite claimAt_updClaim_eq. exact Hoff.
Qed.

Lemma approval_needs_active_policy_witness :
  exists e,
    reviewerApproveClaim Scenarios.chain 11 1 1000000 MoreScenarios.lapsedWorld
    = Err e.
Proof.
  assert (Hpm : payoutManager (cp MoreScenarios.lapsedWorld) <> 0)
    by (vm_compute; discriminate).
  assert (Hoff :
    PolicyRegistry.isActive
      (PolicyRegistry.policyAt (registry MoreScenarios.lapsedWorld)
         (policyId (claimAt (cp MoreScenarios.lapsedWorld) 1))) = false)
    by (vm_compute; reflexivity).
  exact (proj1 (approval_needs_active_policy Scenarios.chain 1 1000000
                  MoreScenarios.lapsedWorld Hpm Hoff) 11).
Defined.

Lemma approveClaim_pays env c p w w' :
  _approveClaim env c p w = Ok w' ->
  payoutManager (cp w) <> 0 ->
  status (claimAt (cp w') c) = Paid /\
  finalPayout (claimAt (cp w') c) = p /\
  processedAt (claimAt (cp w') c) = now env /\
  exists avax,
    PayoutManager.convertUSDToAVAX (managerEnv env w) (manager w) p = Ok avax /\
    PayoutManager.payoutAt (manager w') c
    = PayoutManager.mkPayout c (claimant (claimAt (cp w) c)) p avax (now env)
        true false /\
    PayoutManager.balanceOf (manager w') (claimant (claimAt (cp w) c))
    = PayoutManager.balanceOf (manager w) (claimant (claimAt (cp w) c)) + avax /\
    PayoutManager.availableFunds (manager w')
    = PayoutManager.availableFunds (manager w) - avax /\
    PolicyRegistry.totalPayouts
      (PolicyRegistry.policyAt (registry w') (policyId (claimAt (cp w) c)))
    = PolicyRegistry.totalPayouts
        (PolicyRegistry.policyAt (registry w) (policyId (claimAt (cp w) c))) + p.
Proof.
  intros H Hpm. unfold _approveClaim in H.
  change (payoutManager (updClaim _ _ (cp w))) with (payoutManager (cp w)) in H.
  rewrite (proj2 (Z.eqb_neq _ _) Hpm) in H.
  rewrite claimAt_updClaim_eq in H.
  change (claimant (withProcessedAt _ (withFinalPayout _ (withStatus _ ?x))))
    with (claimant x) in H.
  change (policyId (withProcessedAt _ (withFinalPayout _ (withStatus _ ?x))))
    with (policyId x) in H.
  apply bind_Ok in H. destruct H as (man & Hman & H).
  apply bind_Ok in H. destruct H as (reg & Hreg & H).
  injection H as <-. cbn [cp registry manager].
  rewrite !claimAt_updClaim_eq. cbn [status finalPayout processedAt withStatus
    withProcessedAt withFinalPayout].
  split; [reflexivity|]. split; [reflexivity|]. split; [reflexivity|].
  destruct (PayoutManagerInvariants.processPayout_effect _ _ _ _ _ _ _ Hman)
    as (_ & _ & avax & Hconv & _ & Hrec & Hb & _ & Hav & _).
  destruct (recordPayout_effect _ _ _ _ _ Hreg) as (_ & _ & _ & Htp).
  exists avax. auto 10.
Qed.

(** X25: an approval by the reviewer, with a payout manager set, pays the
    claimant. When [reviewerApproveClaim] returns, the claim is [Paid] with
    the payout as final payout and the time of the call; the payout manager
    holds the record of the claim, for the claimant, with the amount
    converted at the quote of the call; the balance of the claimant there
    grew by the converted amount, taken from the funding pool; and the
    registry added the payout to the total of the policy of the claim. *)
Theorem reviewer_approval_pays_claimant (env : Env) (sender : address)
    (c p : Z) (w w' : World) :
  reviewerApproveClaim env sender c p w = Ok w' ->
  payoutManager (cp w) <> 0 ->
  status (claimAt (cp w') c) = Paid /\
  finalPayout (claimAt (cp w') c) = p /\
  processedAt (claimAt (cp w') c) = now env /\
  exists avax,
    PayoutManager.convertUSDToAVAX (managerEnv env w) (manager w) p = Ok avax /\
    PayoutManager.payoutAt (manager w') c
    = PayoutManager.mkPayout c (claimant (claimAt (cp w) c)) p avax (now env)
        true false /\
    PayoutManager.balanceOf (manager w') (claimant (claimAt (cp w) c))
    = PayoutManager.balanceOf (manager w) (claimant (claimAt (cp w) c)) + avax /\
    PayoutManager.availableFunds (manager w')
    = PayoutManager.availableFunds (manager w) - avax /\
    PolicyRegistry.totalPayouts
      (PolicyRegistry.policyAt (registry w') (policyId (claimAt (cp w) c)))
    = PolicyRegistry.totalPayouts
        (PolicyRegistry.policyAt (registry w) (policyId (claimAt (cp w) c))) + p.
Proof.
  unfold reviewerApproveClaim. intros H Hpm.
  apply bind_Ok in H. destruct H as (? & _ & H).
  apply bind_Ok in H. destruct H as (? & _ & H).
  apply bind_Ok in H. destruct H as (? & _ & H).
  eapply approveClaim_pays; eassumption.
Qed.

Lemma reviewer_approval_pays_claimant_witness :
  status (claimAt
            (cp (commit MoreScenarios.wiredReviewWorld
                   (reviewerApproveClaim Scenarios.chain 11 1 1000000
                      MoreScenarios.wiredReviewWorld))) 1) = Paid.
Proof.
  assert (Hcall :
    reviewerApproveClaim Scenarios.chain 11 1 1000000
      MoreScenarios.wiredReviewWorld
    = Ok (commit MoreScenarios.wiredReviewWorld
            (reviewerApproveClaim Scenarios.chain 11 1 1000000
               MoreScenarios.wiredReviewWorld)))
    by (vm_compute; reflexivity).
  assert (Hpm : payoutManager (cp MoreScenarios.wiredReviewWorld) <> 0)
    by (vm_compute; discriminate).
  exact (proj1 (reviewer_approval_pays_claimant _ _ _ _ _ _ Hcall Hpm)).
Defined.

(** X26: [submitClaim] files the claim against a policy of the caller. When
    it returns, the id is the former [nextClaimId], the counter advanced by
    one, the claim is stored [Submitted] for the caller with the time of
    the call; the policy was held by the caller, active and within its
    window; the registry counts one claim more for it; and the payout
    manager is untouched. *)
Theorem submitClaim_files_against_policy (env : Env) (sender : address)
    (p : Z) (d : string) (e : list string) (w w' : World) (id : Z) :
  submitClaim env sender p d e w = Ok (id, w') ->
  id = nextClaimId (cp w) /\
  nextClaimId (cp w') = id + 1 /\
  claimAt (cp w') id
  = mkClaim id p sender d e (now env) Submitted 0 0 0 0 0 0 false 0 /\
  PolicyRegistry.policyholder (PolicyRegistry.policyAt (registry w) p) = sender /\
  PolicyRegistry.isActive (PolicyRegistry.policyAt (registry w) p) = true /\
  PolicyRegistry.startDate (PolicyRegistry.policyAt (registry w) p) <= now env
    <= PolicyRegistry.endDate (PolicyRegistry.policyAt (registry w) p) /\
  PolicyRegistry.claimsCount (PolicyRegistry.policyAt (registry w') p)
  = PolicyRegistry.claimsCount (PolicyRegistry.policyAt (registry w) p) + 1 /\
  manager w' = manager w.
Proof.
  unfold submitClaim. intros H.
  apply bind_Ok in H. destruct H as (? & Hvalid & H).
  apply require_Ok in Hvalid.
  apply bind_Ok in H. destruct H as (next & Hnext & H).
  apply add256_Ok in Hnext. destruct Hnext as (-> & _).
  apply bind_Ok in H. destruct H as (reg & Hreg & H).
  injection H as <- <-. cbn [cp registry manager].
  unfold PolicyRegistry.isPolicyValidForClaims in Hvalid.
  repeat (apply andb_true_iff in Hvalid; destruct Hvalid as [Hvalid ?]).
  unfold PolicyRegistry.incrementClaimCount in Hreg. inv_ok. subst reg.
  rewrite PolicyRegistryInvariants.policyAt_setPolicy_eq.
  unfold claimAt, setClaims. cbn [claims]. rewrite lookup_insert_eq.
  cbn. repeat split; auto; lia.
Qed.

Lemma submitClaim_files_against_policy_witness :
  fst (commit (0, Scenarios.world0)
         (submitClaim Scenarios.chain 7 1 "hail damage" ["Qm1"] Scenarios.world0))
  = nextClaimId (cp Scenarios.world0).
Proof.
  assert (Hcall :
    submitClaim Scenarios.chain 7 1 "hail damage" ["Qm1"] Scenarios.world0
    = Ok (fst (commit (0, Scenarios.world0)
                 (submitClaim Scenarios.chain 7 1 "hail damage" ["Qm1"]
                    Scenarios.world0)),
          snd (commit (0, Scenarios.world0)
                 (submitClaim Scenarios.chain 7 1 "hail damage" ["Qm1"]
                    Scenarios.world0))))
    by (vm_compute; reflexivity).
  exact (proj1 (submitClaim_files_against_policy _ _ _ _ _ _ _ _ Hcall)).
Defined.

End ClaimsProcessorInvariants.
